(** * Jamaah.in document-intake pipeline: a shallow embedding

    The development follows the Python sources under [backend/app]:
    [services/cache.py], [services/cleaner.py], [services/validators.py],
    [services/parser.py], [services/parsers/common.py],
    [services/parsers/ktp_parser.py], [services/parsers/passport_parser.py],
    [services/document_processor.py], [mappers.py] and [schemas.py].

    Modelling conventions.
    - A Python [str] is a [list ascii]. The character classes [\d], [\s],
      [\w], [A-Z] and [str.upper] are those of Python on the 7-bit range;
      characters above it are carried through unchanged and belong to no
      class.
    - [None] is [option]'s [None]; the truth value of a string is its
      non-emptiness. A function that can raise returns an [option], with
      [None] for the exception.
    - The regular expressions of the sources only ever quantify a
      character class, so a pattern is a list of atoms (a greedy class
      repetition or an anchor) run by a backtracking matcher with Python's
      leftmost, greedy semantics; a group of the source is the piece of
      its atom.
    - Objects that are updated in place are modelled with their state
      passed explicitly: the cache is a record, the extracted items live
      in a heap of references, so that two places of a list can hold the
      same object.
    - What lies outside the repository is a parameter: the clock (passed
      to the cache operations in integral ticks), [difflib]'s similarity
      ratio, [datetime.strptime], the hash of a file, the OCR engines and
      the PDF renderer. *)

From Stdlib Require Import List Ascii String Bool Arith NArith ZArith Lia.
From Stdlib Require Import DecimalString.
Import ListNotations.

Open Scope string_scope.
Open Scope nat_scope.
Open Scope list_scope.

(* ================================================================== *)
(** ** Python strings *)
(* ================================================================== *)

Definition str := list ascii.

Definition lit (s : string) : str := list_ascii_of_string s.
Coercion lit : string >-> str.

Definition in_range (lo hi c : ascii) : bool :=
  (nat_of_ascii lo <=? nat_of_ascii c) && (nat_of_ascii c <=? nat_of_ascii hi).

Definition is_digit (c : ascii) : bool := in_range "0" "9" c.
Definition is_upper (c : ascii) : bool := in_range "A" "Z" c.
Definition is_lower (c : ascii) : bool := in_range "a" "z" c.
Definition is_alpha (c : ascii) : bool := is_upper c || is_lower c.

(** [str.isspace] / the class [\s]: TAB..CR, FS..US and the blank. *)
Definition is_space (c : ascii) : bool :=
  let n := nat_of_ascii c in
  ((9 <=? n) && (n <=? 13)) || ((28 <=? n) && (n <=? 32)).

(** The class [\w]. *)
Definition is_word (c : ascii) : bool :=
  is_alpha c || is_digit c || Ascii.eqb c "_".

Definition one_of (set : string) (c : ascii) : bool :=
  existsb (Ascii.eqb c) (lit set).

Definition char_upper (c : ascii) : ascii :=
  if is_lower c then ascii_of_nat (nat_of_ascii c - 32) else c.

Definition char_lower (c : ascii) : ascii :=
  if is_upper c then ascii_of_nat (nat_of_ascii c + 32) else c.

(** [s.upper()] *)
Definition upper (s : str) : str := map char_upper s.

Fixpoint drop_while (p : ascii -> bool) (s : str) : str :=
  match s with
  | [] => []
  | c :: s' => if p c then drop_while p s' else s
  end.

Definition lstrip (s : str) : str := drop_while is_space s.
Definition rstrip (s : str) : str := rev (drop_while is_space (rev s)).

(** [s.strip()] *)
Definition strip (s : str) : str := rstrip (lstrip s).

Fixpoint str_eqb (a b : str) : bool :=
  match a, b with
  | [], [] => true
  | x :: a', y :: b' => Ascii.eqb x y && str_eqb a' b'
  | _, _ => false
  end.

(** [s.startswith(p)] *)
Fixpoint starts_with (p s : str) : bool :=
  match p, s with
  | [], _ => true
  | x :: p', y :: s' => Ascii.eqb x y && starts_with p' s'
  | _ :: _, [] => false
  end.

(** [needle in hay] *)
Fixpoint contains (needle hay : str) : bool :=
  starts_with needle hay ||
  match hay with
  | [] => false
  | _ :: hay' => contains needle hay'
  end.

(** [s.replace(old, new)]: left to right, occurrences do not overlap.
    [skip] counts the characters of an occurrence still to be dropped. *)
Fixpoint replace_from (old new : str) (skip : nat) (s : str) : str :=
  match s with
  | [] => []
  | c :: s' =>
      match skip with
      | S k => replace_from old new k s'
      | O =>
          if starts_with old s
          then new ++ replace_from old new (List.length old - 1) s'
          else c :: replace_from old new 0 s'
      end
  end.

Definition replace (old new s : str) : str :=
  match old with
  | [] => new ++ flat_map (fun c => c :: new) s
  | _ :: _ => replace_from old new 0 s
  end.

(** The loop [for old, new in table.items(): text = text.replace(old, new)]. *)
Definition replace_all (table : list (string * string)) (s : str) : str :=
  fold_left (fun t (p : string * string) => replace (fst p) (snd p) t) table s.

(** [int(s)] on a string of decimal digits. *)
Definition digit_val (c : ascii) : N := N.of_nat (nat_of_ascii c - 48).

Definition int_of (s : str) : N :=
  fold_left (fun acc c => (acc * 10 + digit_val c)%N) s 0%N.

(** [str(n)] for a non-negative integer. *)
Definition str_of_int (n : N) : str :=
  lit (NilEmpty.string_of_uint (N.to_uint n)).

(** [s.zfill(w)] on a string without sign. *)
Definition zfill (w : nat) (s : str) : str :=
  repeat "0"%char (w - List.length s) ++ s.

(* ================================================================== *)
(** ** Regular expressions *)
(* ================================================================== *)

Module Re.

(** [Rep cls lo hi] is the greedy [cls{lo,hi}] ([hi = None]: unbounded);
    [WordB] is [\b], [Bol] is [^] and [Eol] is [$] (without MULTILINE). *)
Inductive atom : Type :=
| Rep (cls : ascii -> bool) (lo : nat) (hi : option nat)
| WordB
| Bol
| Eol.

Definition pattern := list atom.

Definition one (cls : ascii -> bool) : atom := Rep cls 1 (Some 1).
Definition plus (cls : ascii -> bool) : atom := Rep cls 1 None.
Definition star (cls : ascii -> bool) : atom := Rep cls 0 None.
Definition exactly (n : nat) (cls : ascii -> bool) : atom := Rep cls n (Some n).
Definition at_least (n : nat) (cls : ascii -> bool) : atom := Rep cls n None.
Definition char (c : ascii) : atom := one (Ascii.eqb c).

(** A literal word, one atom per character. *)
Definition word (w : string) : pattern := map char (lit w).

(** A class under [re.IGNORECASE]. *)
Definition nocase (cls : ascii -> bool) : ascii -> bool :=
  fun c => cls c || cls (char_upper c) || cls (char_lower c).

Definition neg (cls : ascii -> bool) : ascii -> bool := fun c => negb (cls c).

(** Length of the longest prefix of [s] inside [cls], capped by [hi]. *)
Fixpoint run (cls : ascii -> bool) (hi : option nat) (s : str) : nat :=
  match s with
  | [] => 0
  | c :: s' =>
      match hi with
      | Some 0 => 0
      | Some (S h) => if cls c then S (run cls (Some h) s') else 0
      | None => if cls c then S (run cls None s') else 0
      end
  end.

Definition prev_after (prev : option ascii) (consumed : str) : option ascii :=
  match consumed with
  | [] => prev
  | _ :: _ => Some (last consumed " "%char)
  end.

Definition word_before (prev : option ascii) : bool :=
  match prev with Some c => is_word c | None => false end.

Definition word_after (s : str) : bool :=
  match s with c :: _ => is_word c | [] => false end.

Definition at_boundary (prev : option ascii) (s : str) : bool :=
  xorb (word_before prev) (word_after s).

Definition at_begin (prev : option ascii) : bool :=
  match prev with None => true | Some _ => false end.

(** [$]: at the end, or before a newline that ends the string. *)
Definition at_end (s : str) : bool :=
  match s with
  | [] => true
  | [c] => Ascii.eqb c "010"%char
  | _ => false
  end.

(** A greedy repetition that took [k] characters tries the rest of the
    pattern ([cont]) and, when that fails, gives one character back. *)
Fixpoint give_back (lo : nat) (s : str)
         (cont : str -> str -> option (list str * str)) (k : nat)
  : option (list str * str) :=
  match (if lo <=? k then cont (firstn k s) (skipn k s) else None) with
  | Some r => Some r
  | None =>
      match k with
      | O => None
      | S k' => give_back lo s cont k'
      end
  end.

(** Match the pattern at the head of [s]; [prev] is the character before
    it. The result gives what each atom consumed and the rest of the
    text. *)
Fixpoint match_here (re : pattern) (prev : option ascii) (s : str)
  : option (list str * str) :=
  match re with
  | [] => Some ([], s)
  | a :: re' =>
      let continue (consumed : str) (rest : str) :=
        match match_here re' (prev_after prev consumed) rest with
        | Some (caps, out) => Some (consumed :: caps, out)
        | None => None
        end in
      match a with
      | Rep cls lo hi => give_back lo s continue (run cls hi s)
      | WordB => if at_boundary prev s then continue [] s else None
      | Bol => if at_begin prev then continue [] s else None
      | Eol => if at_end s then continue [] s else None
      end
  end.

(** A found match: the text before it, the pieces of the atoms, the text
    after it. *)
Record found : Type := mk_found {
  before : str;
  groups : list str;
  after : str
}.

Definition whole (m : found) : str := List.concat (groups m).

Definition group (m : found) (i : nat) : str := nth i (groups m) [].

Fixpoint search_from (re : pattern) (prev : option ascii)
         (skipped_rev : str) (s : str) : option found :=
  match match_here re prev s with
  | Some (caps, rest) => Some (mk_found (rev skipped_rev) caps rest)
  | None =>
      match s with
      | [] => None
      | c :: s' => search_from re (Some c) (c :: skipped_rev) s'
      end
  end.

(** [re.search(re, s)] *)
Definition search (re : pattern) (s : str) : option found :=
  search_from re None [] s.

(** [re.match(re, s)] *)
Definition match_start (re : pattern) (s : str) : option found :=
  match match_here re None s with
  | Some (caps, rest) => Some (mk_found [] caps rest)
  | None => None
  end.

(** Successive matches from left to right; every pattern of the sources
    consumes at least one character, so [fuel] bounded by the length of
    the text is enough. *)
Fixpoint scan (fuel : nat) (re : pattern) (prev : option ascii) (s : str)
  : list found :=
  match fuel with
  | O => []
  | S fuel' =>
      match search_from re prev [] s with
      | None => []
      | Some m =>
          m :: scan fuel' re
                 (prev_after prev (before m ++ whole m)) (after m)
      end
  end.

(** [re.findall(re, s)] for a pattern without group: the matched texts. *)
Definition findall (re : pattern) (s : str) : list str :=
  map whole (scan (S (List.length s)) re None s).

(** [re.sub(re, repl, s)] with [repl] a function of the match. *)
Fixpoint sub_from (fuel : nat) (re : pattern) (repl : found -> str)
         (prev : option ascii) (s : str) : str :=
  match fuel with
  | O => s
  | S fuel' =>
      match search_from re prev [] s with
      | None => s
      | Some m =>
          before m ++ repl m ++
          sub_from fuel' re repl (prev_after prev (before m ++ whole m)) (after m)
      end
  end.

Definition sub (re : pattern) (repl : found -> str) (s : str) : str :=
  sub_from (S (List.length s)) re repl None s.

(** What an atom may consume. *)
Definition atom_ok (a : atom) (piece : str) : Prop :=
  match a with
  | Rep cls lo hi =>
      Forall (fun c => cls c = true) piece
      /\ lo <= List.length piece
      /\ match hi with Some h => List.length piece <= h | None => True end
  | WordB | Bol | Eol => piece = []
  end.

(** A pattern every match of which takes at least one character. *)
Definition consumes (re : pattern) : bool :=
  existsb (fun a => match a with
                    | Rep _ lo _ => 1 <=? lo
                    | WordB | Bol | Eol => false
                    end) re.

End Re.

(* ================================================================== *)
(** ** schemas.py: ExtractedDataItem *)
(* ================================================================== *)

(** The 32 columns of [ExtractedDataItem], in declaration order. *)
Inductive field : Type :=
| title | nama | nama_ayah | jenis_identitas | no_identitas | nama_paspor
| no_paspor | tanggal_paspor | kota_paspor | tempat_lahir | tanggal_lahir
| alamat | provinsi | kabupaten | kecamatan | kelurahan | no_telepon | no_hp
| kewarganegaraan | status_pernikahan | pendidikan | pekerjaan
| provider_visa | no_visa | tanggal_visa | tanggal_visa_akhir | asuransi
| no_polis | tanggal_input_polis | tanggal_awal_polis | tanggal_akhir_polis
| no_bpjs.

Scheme Equality for field.

Definition all_fields : list field :=
  [ title; nama; nama_ayah; jenis_identitas; no_identitas; nama_paspor;
    no_paspor; tanggal_paspor; kota_paspor; tempat_lahir; tanggal_lahir;
    alamat; provinsi; kabupaten; kecamatan; kelurahan; no_telepon; no_hp;
    kewarganegaraan; status_pernikahan; pendidikan; pekerjaan;
    provider_visa; no_visa; tanggal_visa; tanggal_visa_akhir; asuransi;
    no_polis; tanggal_input_polis; tanggal_awal_polis; tanggal_akhir_polis;
    no_bpjs ].

(** The attribute name of a column, as [model_dump] spells it. *)
Definition key (f : field) : string :=
  match f with
  | title => "title" | nama => "nama" | nama_ayah => "nama_ayah"
  | jenis_identitas => "jenis_identitas" | no_identitas => "no_identitas"
  | nama_paspor => "nama_paspor" | no_paspor => "no_paspor"
  | tanggal_paspor => "tanggal_paspor" | kota_paspor => "kota_paspor"
  | tempat_lahir => "tempat_lahir" | tanggal_lahir => "tanggal_lahir"
  | alamat => "alamat" | provinsi => "provinsi" | kabupaten => "kabupaten"
  | kecamatan => "kecamatan" | kelurahan => "kelurahan"
  | no_telepon => "no_telepon" | no_hp => "no_hp"
  | kewarganegaraan => "kewarganegaraan"
  | status_pernikahan => "status_pernikahan" | pendidikan => "pendidikan"
  | pekerjaan => "pekerjaan" | provider_visa => "provider_visa"
  | no_visa => "no_visa" | tanggal_visa => "tanggal_visa"
  | tanggal_visa_akhir => "tanggal_visa_akhir" | asuransi => "asuransi"
  | no_polis => "no_polis" | tanggal_input_polis => "tanggal_input_polis"
  | tanggal_awal_polis => "tanggal_awal_polis"
  | tanggal_akhir_polis => "tanggal_akhir_polis" | no_bpjs => "no_bpjs"
  end.

(** An item gives every column a string; [getattr] is application. *)
Definition Item : Type := field -> str.

(** [setattr(item, f, v)] *)
Definition set_field (it : Item) (f : field) (v : str) : Item :=
  fun g => if field_beq g f then v else it g.

(** [ExtractedDataItem()]: every column empty, citizenship ["WNI"]. *)
Definition blank_item : Item :=
  fun f => match f with kewarganegaraan => lit "WNI" | _ => [] end.

(** Python truthiness of a string. *)
Definition truthy (s : str) : bool :=
  match s with [] => false | _ :: _ => true end.

(** Items are objects: a heap maps a reference to the object's state. *)
Definition ref : Type := nat.
Definition heap : Type := ref -> Item.

Definition store (h : heap) (r : ref) (it : Item) : heap :=
  fun r' => if Nat.eqb r' r then it else h r'.

Definition set_attr (h : heap) (r : ref) (f : field) (v : str) : heap :=
  store h r (set_field (h r) f v).

(* ================================================================== *)
(** ** cleaner.py *)
(* ================================================================== *)

Module Cleaner.

(** The characters [validate_and_clean_name] keeps: the complement of the
    class [[^A-Z\s\-\']]. *)
Definition is_name_char (c : ascii) : bool :=
  is_upper c || is_space c || Ascii.eqb c "-" || Ascii.eqb c "'".

Definition name_blacklist : list string :=
  [ "PROVINSI"; "KABUPATEN"; "KOTA"; "NIK"; "LAKI-LAKI"; "PEREMPUAN";
    "AGAMA"; "KAWIN"; "GOL. DARAH"; "GOL DARAH"; "PARTAI";
    "PEMILIHAN"; "UMUM"; "KARTU"; "PENDUDUK"; "NEGARA" ].

Definition validate_and_clean_name (raw_name : option str) : option str :=
  match raw_name with
  | None => None
  | Some [] => None
  | Some raw =>
      let cleaned :=
        Re.sub [Re.one (Re.neg is_name_char)] (fun _ => []) (upper raw) in
      let cleaned :=
        strip (Re.sub [Re.plus is_space] (fun _ => lit " ") cleaned) in
      if List.length cleaned <? 3 then None
      else if existsb (fun w : string => contains w cleaned) name_blacklist
      then None
      else Some cleaned
  end.

Definition replacements : list (string * string) :=
  [ ("l", "1"); ("I", "1"); ("O", "0"); ("o", "0");
    ("?", "7"); (":", "-"); (".", "-"); (",", "-");
    ("|", "1"); ("_", "-") ].

Definition month_map : list (string * string) :=
  [ ("JAN", "01"); ("FEB", "02"); ("PEB", "02"); ("MAR", "03");
    ("APR", "04"); ("MEI", "05"); ("MAY", "05"); ("JUN", "06");
    ("JUL", "07"); ("AGU", "08"); ("AUG", "08"); ("SEP", "09");
    ("OKT", "10"); ("OCT", "10"); ("NOV", "11"); ("DES", "12");
    ("DEC", "12") ].

(** The class [[\s\-]]. *)
Definition is_sep (c : ascii) : bool := is_space c || Ascii.eqb c "-".

(** [(\d{1,2})[\s\-]+([A-Z]{3,})[\s\-]+(\d{4})]: groups are atoms 0, 2, 4. *)
Definition text_month_re : Re.pattern :=
  [ Re.Rep is_digit 1 (Some 2); Re.plus is_sep; Re.at_least 3 is_upper;
    Re.plus is_sep; Re.exactly 4 is_digit ].

(** [\d+] *)
Definition number_re : Re.pattern := [ Re.plus is_digit ].

(** Strategy A of [standardize_date]: day, month name, year. *)
Definition text_month_date (text : str) : option str :=
  match Re.search text_month_re text with
  | Some m =>
      let d := Re.group m 0 in
      let m_str := Re.group m 2 in
      let y := Re.group m 4 in
      match find (fun kv : string * string => contains (fst kv) m_str)
                 month_map with
      | Some kv => Some (y ++ lit "-" ++ lit (snd kv) ++ lit "-" ++ zfill 2 d)
      | None => None
      end
  | None => None
  end.

(** Strategy B of [standardize_date]: numeric tokens. *)
Definition numeric_date (text : str) : option str :=
  let nums := Re.findall number_re text in
  if 3 <=? List.length nums then
    match find (fun n => List.length n =? 4) nums with
    | Some year =>
        let others := filter (fun n => negb (str_eqb n year)) nums in
        match others with
        | o1 :: o2 :: _ =>
            let n1 := int_of o1 in
            let n2 := int_of o2 in
            let y_val := int_of year in
            if negb ((1900 <=? y_val) && (y_val <=? 2040))%N then None
            else
              let '(month, day) :=
                if ((12 <? n2) && (n1 <=? 12))%N then (n1, n2)
                else if ((12 <? n1) && (n2 <=? 12))%N then (n2, n1)
                else (n2, n1) in
              if ((1 <=? month) && (month <=? 12)
                  && (1 <=? day) && (day <=? 31))%N
              then Some (year ++ lit "-" ++ zfill 2 (str_of_int month)
                              ++ lit "-" ++ zfill 2 (str_of_int day))
              else None
        | _ => None
        end
    | None => None
    end
  else None.

Definition standardize_date (raw_text : option str) : option str :=
  match raw_text with
  | None => None
  | Some [] => None
  | Some raw =>
      let text := replace_all replacements (strip (upper raw)) in
      match text_month_date text with
      | Some r => Some r
      | None => numeric_date text
      end
  end.

(** [standardize_date(x) or x] *)
Definition standardized_or_same (x : str) : str :=
  match standardize_date (Some x) with
  | Some r => if truthy r then r else x
  | None => x
  end.

(** The class [[.,\-!@#$%\^&*()_+=|<>?{}[\]~`]] of [clean_entry]. *)
Definition is_punct (c : ascii) : bool :=
  one_of ".,-!@#$%^&*()_+=|<>?{}[]~`" c.

Definition entry_blacklist : list string :=
  [ "PROVINSI"; "KABUPATEN"; "JAWA"; "NIK"; "LAKI-LAKI"; "PEREMPUAN";
    "AGAMA"; "KAWIN"; "GOL. DARAH"; "GOL DARAH"; "PARTAI" ].

Definition clean_name (raw : str) : str :=
  let name := upper raw in
  let name := Re.sub [Re.one is_punct] (fun _ => lit " ") name in
  let name := strip (Re.sub [Re.plus is_space] (fun _ => lit " ") name) in
  let name := Re.sub (Re.Bol :: Re.word "DN" ++ [Re.plus is_space])
                     (fun _ => []) name in
  let name := Re.sub (Re.Bol :: Re.word "IDN" ++ [Re.plus is_space])
                     (fun _ => []) name in
  Re.sub (Re.plus is_space :: Re.word "SE" ++ [Re.Eol]) (fun _ => []) name.

(** [clean_entry]: [None] when the entry is dropped, else the entry after
    the in-place updates. *)
Definition clean_entry (entry : Item) : option Item :=
  let has_visa_data :=
    truthy (entry no_visa) || truthy (entry tanggal_visa)
    || truthy (entry provider_visa) in
  let has_passport_data :=
    truthy (entry no_paspor) || truthy (entry tanggal_paspor) in
  let has_id_data := truthy (entry no_identitas) in
  let has_name := truthy (entry nama) && truthy (strip (entry nama)) in
  let no_other :=
    negb has_visa_data && negb has_passport_data && negb has_id_data in
  if negb has_name && no_other then None
  else
    let named : option Item :=
      if has_name then
        let name := clean_name (entry nama) in
        if (List.length name <? 3) && no_other then None
        else
          let name := if List.length name <? 3 then [] else name in
          let is_blacklisted :=
            existsb (fun w : string => contains w name) entry_blacklist in
          if is_blacklisted && no_other then None
          else
            let name := if is_blacklisted then [] else name in
            Some (set_field entry nama name)
      else Some entry in
    match named with
    | None => None
    | Some e =>
        let on (f : field) (g : str -> str) (e : Item) : Item :=
          if truthy (e f) then set_field e f (g (e f)) else e in
        let e := on tanggal_lahir standardized_or_same e in
        let e := on tanggal_paspor standardized_or_same e in
        let e := on tanggal_visa standardized_or_same e in
        let e := on tanggal_visa_akhir standardized_or_same e in
        let e := on tempat_lahir (fun s => strip (upper s)) e in
        Some e
    end.

(** *** fuzzy_merge_data *)

Section Merge.

(** [SequenceMatcher(None, n1, n2).ratio() > threshold] with the default
    threshold 0.80: difflib is not part of the repository, its verdict
    is a parameter. *)
Variable ratio_above : str -> str -> bool.

Definition is_similar (n1 n2 : str) : bool :=
  if negb (truthy n1) || negb (truthy n2) then false
  else if str_eqb n1 n2 then true
  else if (3 <? List.length n1) && (3 <? List.length n2)
          && (starts_with n2 n1 || starts_with n1 n2) then true
  else ratio_above n1 n2.

(** Step 1 of the merge strategy: which name the existing record keeps. *)
Definition merge_name (h : heap) (existing new_item : ref) : heap :=
  let curr_space := contains (lit " ") (h existing nama) in
  let new_space := contains (lit " ") (h new_item nama) in
  if new_space && negb curr_space then
    set_attr h existing nama (h new_item nama)
  else if Bool.eqb new_space curr_space then
    if (List.length (h existing nama) <? List.length (h new_item nama))
       && negb (contains (lit "KKK") (h new_item nama))
    then set_attr h existing nama (h new_item nama)
    else h
  else h.

(** Step 2: [for field, value in new_dict.items()], filling empty columns. *)
Definition fill_missing (h : heap) (existing : ref) (new_dict : Item) : heap :=
  fold_left
    (fun h f =>
       if negb (truthy (h existing f)) && truthy (new_dict f)
       then set_attr h existing f (new_dict f)
       else h)
    all_fields h.

Definition merge_into (h : heap) (existing new_item : ref) : heap :=
  let h1 := merge_name h existing new_item in
  fill_missing h1 existing (h1 new_item).

(** The loop over [data_list]; [consolidated] holds references. *)
Fixpoint merge_loop (h : heap) (consolidated data_list : list ref)
  : heap * list ref :=
  match data_list with
  | [] => (h, consolidated)
  | new_item :: rest =>
      match find (fun existing => is_similar (h new_item nama) (h existing nama))
                 consolidated with
      | Some existing => merge_loop (merge_into h existing new_item) consolidated rest
      | None => merge_loop h (consolidated ++ [new_item]) rest
      end
  end.

Definition is_passport_type (it : Item) : bool :=
  truthy (it jenis_identitas)
  && existsb (fun t : string => str_eqb (upper (it jenis_identitas)) t)
             ["PASPOR"; "PASSPORT"; "VISA"].

(** The body of the post-merge loop, on one item. *)
Definition consolidate (it : Item) : Item :=
  if is_passport_type it then
    if truthy (it no_paspor) then set_field it no_identitas (it no_paspor)
    else it
  else if truthy (it no_paspor) && negb (truthy (it no_identitas)) then
    set_field (set_field it no_identitas (it no_paspor))
              jenis_identitas (lit "Paspor")
  else it.

Definition post_merge (h : heap) (consolidated : list ref) : heap :=
  fold_left (fun h r => store h r (consolidate (h r))) consolidated h.

Definition fuzzy_merge_data (h : heap) (data_list : list ref)
  : heap * list ref :=
  let merged := merge_loop h [] data_list in
  (post_merge (fst merged) (snd merged), snd merged).

End Merge.

End Cleaner.

(* ================================================================== *)
(** ** cache.py: OCRCache *)
(* ================================================================== *)

Module Cache.

Section Store.

(** The cached data; the pipeline stores lists of items. *)
Variable A : Type.

(** One cache entry: [{'data': ..., 'timestamp': ...}]. Time is read off
    the clock by the caller and passed in, in integral ticks. *)
Record entry : Type := mk_entry {
  data : A;
  timestamp : Z
}.

(** The object's attributes; [_cache] is an [OrderedDict], oldest first. *)
Record OCRCache : Type := mk_cache {
  _cache : list (str * entry);
  _max_size : Z;
  _ttl : Z;
  _hits : nat;
  _misses : nat
}.

(** [OCRCache(max_size, ttl)] *)
Definition new (max_size ttl : Z) : OCRCache :=
  mk_cache [] max_size ttl 0 0.

Fixpoint lookup (k : str) (d : list (str * entry)) : option entry :=
  match d with
  | [] => None
  | (k', e) :: d' => if str_eqb k k' then Some e else lookup k d'
  end.

(** [del d[k]] *)
Fixpoint remove (k : str) (d : list (str * entry)) : list (str * entry) :=
  match d with
  | [] => []
  | (k', e) :: d' => if str_eqb k k' then d' else (k', e) :: remove k d'
  end.

(** [d.move_to_end(k)] for a key of [d]. *)
Definition move_to_end (k : str) (d : list (str * entry)) : list (str * entry) :=
  match lookup k d with
  | Some e => remove k d ++ [(k, e)]
  | None => d
  end.

(** [d[k] = e]: an existing key keeps its place, a new one goes last. *)
Fixpoint assign (k : str) (e : entry) (d : list (str * entry))
  : list (str * entry) :=
  match d with
  | [] => [(k, e)]
  | (k', e') :: d' =>
      if str_eqb k k' then (k, e) :: d' else (k', e') :: assign k e d'
  end.

(** [k in self._cache] *)
Definition mem (k : str) (c : OCRCache) : bool :=
  match lookup k (_cache c) with Some _ => true | None => false end.

Definition keys (c : OCRCache) : list str := map fst (_cache c).

(** [get(file_hash)] at time [now]: the result and the cache afterwards. *)
Definition get (file_hash : str) (now : Z) (c : OCRCache)
  : option A * OCRCache :=
  match lookup file_hash (_cache c) with
  | Some e =>
      if (now - timestamp e <? _ttl c)%Z then
        (Some (data e),
         mk_cache (move_to_end file_hash (_cache c))
                  (_max_size c) (_ttl c) (S (_hits c)) (_misses c))
      else
        (None,
         mk_cache (remove file_hash (_cache c))
                  (_max_size c) (_ttl c) (_hits c) (S (_misses c)))
  | None =>
      (None,
       mk_cache (_cache c) (_max_size c) (_ttl c) (_hits c) (S (_misses c)))
  end.

(** The loop [while len(self._cache) >= self._max_size: popitem(last=False)];
    [None] is the [KeyError] of [popitem] on an empty dictionary. *)
Fixpoint evict (max_size : Z) (d : list (str * entry))
  : option (list (str * entry)) :=
  if (max_size <=? Z.of_nat (List.length d))%Z then
    match d with
    | [] => None
    | _ :: d' => evict max_size d'
    end
  else Some d.

(** [put(file_hash, data)] at time [now]. *)
Definition put (file_hash : str) (x : A) (now : Z) (c : OCRCache)
  : option OCRCache :=
  match evict (_max_size c) (_cache c) with
  | None => None
  | Some d =>
      Some (mk_cache (assign file_hash (mk_entry x now) d)
                     (_max_size c) (_ttl c) (_hits c) (_misses c))
  end.

End Store.

Arguments data {A} _.
Arguments timestamp {A} _.
Arguments _cache {A} _.
Arguments _max_size {A} _.
Arguments _ttl {A} _.
Arguments _hits {A} _.
Arguments _misses {A} _.
Arguments new {A} _ _.
Arguments mem {A} _ _.
Arguments keys {A} _.
Arguments get {A} _ _ _.
Arguments put {A} _ _ _ _.

End Cache.

(* ================================================================== *)
(** ** validators.py *)
(* ================================================================== *)

Module Validators.

(** [{"field": ..., "message": ...}] *)
Record warning : Type := mk_warning {
  w_field : string;
  message : str
}.

(** [validate_nik] *)
Definition validate_nik (nik : str) : option str :=
  if negb (truthy nik) then None
  else
    let cleaned := Re.sub [Re.one (Re.neg is_digit)] (fun _ => []) nik in
    if negb (List.length cleaned =? 16) then
      Some (lit "NIK harus 16 digit (ditemukan "
              ++ str_of_int (N.of_nat (List.length cleaned)) ++ lit " digit)")
    else None.

(** [^[A-Z]\d{6,7}$] *)
Definition passport_re : Re.pattern :=
  [ Re.Bol; Re.one is_upper; Re.Rep is_digit 6 (Some 7); Re.Eol ].

Definition quote : str := ["'"%char].

(** [validate_passport_number] *)
Definition validate_passport_number (passport : str) : option str :=
  if negb (truthy passport) then None
  else
    let cleaned := upper (strip passport) in
    match Re.match_start passport_re cleaned with
    | None => Some (lit "No Paspor format tidak valid: " ++ quote ++ passport ++ quote)
    | Some _ => None
    end.

(** [validate_visa_number] *)
Definition validate_visa_number (visa : str) : option str :=
  if negb (truthy visa) then None
  else
    let cleaned := strip visa in
    if List.length cleaned <? 8
    then Some (lit "No Visa terlalu pendek: " ++ quote ++ visa ++ quote)
    else None.

(** [validate_kewarganegaraan] *)
Definition validate_kewarganegaraan (value : str) : option str :=
  if negb (truthy value) then None
  else if negb (existsb (fun t : string => str_eqb (upper value) t) ["WNI"; "WNA"])
  then Some (lit "Kewarganegaraan harus WNI atau WNA")
  else None.

Definition date_formats : list string :=
  [ "%Y-%m-%d"; "%d-%m-%Y"; "%d/%m/%Y"; "%Y/%m/%d" ].

Definition date_fields : list (field * string) :=
  [ (tanggal_lahir, "Tanggal Lahir");
    (tanggal_paspor, "Tanggal Paspor");
    (tanggal_visa, "Tanggal Visa");
    (tanggal_visa_akhir, "Tanggal Visa Akhir");
    (tanggal_input_polis, "Tanggal Input Polis");
    (tanggal_awal_polis, "Tanggal Awal Polis");
    (tanggal_akhir_polis, "Tanggal Akhir Polis") ].

Section Dates.

(** [datetime.strptime(value, fmt)] of the Python library: [true] when it
    parses, [false] when it raises [ValueError]. *)
Variable strptime : str -> string -> bool.

(** [validate_date] *)
Definition validate_date (value : str) (field_label : string) : option str :=
  if negb (truthy value) then None
  else if existsb (fun fmt => strptime (strip value) fmt) date_formats then None
  else Some (lit field_label
               ++ lit ": format tanggal tidak valid (gunakan YYYY-MM-DD)").

(** [if w: warnings.append({"field": f, "message": w})] *)
Definition warn (f : field) (w : option str) : list warning :=
  match w with
  | Some msg => if truthy msg then [mk_warning (key f) msg] else []
  | None => []
  end.

(** [validate_row]; the row is [item.model_dump()], every column a string. *)
Definition validate_row (row_data : Item) : list warning :=
  (if existsb (fun t : string => str_eqb (upper (row_data jenis_identitas)) t)
              ["KTP"; "MERGED"]
   then warn no_identitas (validate_nik (row_data no_identitas))
   else [])
  ++ warn no_paspor (validate_passport_number (row_data no_paspor))
  ++ warn no_visa (validate_visa_number (row_data no_visa))
  ++ flat_map (fun fl : field * string =>
                 warn (fst fl) (validate_date (row_data (fst fl)) (snd fl)))
              date_fields
  ++ warn kewarganegaraan (validate_kewarganegaraan (row_data kewarganegaraan))
  ++ (if negb (truthy (strip (row_data nama)))
      then [mk_warning (key nama) (lit "Nama tidak boleh kosong")]
      else []).

(** Everything [validate_row] appends after the identity-number check. *)
Definition later_warnings (row : Item) : list warning :=
  warn no_paspor (validate_passport_number (row no_paspor))
  ++ warn no_visa (validate_visa_number (row no_visa))
  ++ flat_map (fun fl : field * string =>
                 warn (fst fl) (validate_date (row (fst fl)) (snd fl)))
              date_fields
  ++ warn kewarganegaraan (validate_kewarganegaraan (row kewarganegaraan))
  ++ (if negb (truthy (strip (row nama))) then [mk_warning (key nama) (lit "Nama tidak boleh kosong")]
      else []).

End Dates.

(** The text of the claim about short identity numbers, and the two ways
    to pick warnings: by the column they name, or by the text they hold. *)
Definition sixteen_digit : str := lit "16 digit".

Definition names_identity (w : warning) : bool :=
  String.eqb (w_field w) (key no_identitas).

Definition says_sixteen_digit (w : warning) : bool :=
  contains sixteen_digit (message w).

Definition nik_warning : warning :=
  mk_warning (key no_identitas) (lit "NIK harus 16 digit (ditemukan 15 digit)").

Definition nama_warning : warning :=
  mk_warning (key nama) (lit "Nama tidak boleh kosong").

End Validators.

(* ================================================================== *)
(** ** parsers/common.py, parsers/ktp_parser.py, parsers/passport_parser.py,
       parser.py *)
(* ================================================================== *)

Module Parser.

(** [fix_ocr_digits] *)
Definition digit_fixes : list (string * string) :=
  [ ("O", "0"); ("o", "0"); ("D", "0"); ("Q", "0");
    ("I", "1"); ("l", "1"); ("L", "1"); ("|", "1"); ("i", "1");
    ("?", "7"); ("T", "7");
    ("S", "5"); ("s", "5");
    ("B", "8");
    ("G", "6"); ("g", "9");
    ("A", "4");
    ("Z", "2"); ("z", "2") ].

Definition fix_ocr_digits (text : str) : str := replace_all digit_fixes text.

(** The class [[0-9OoIlLDSBZz?|\-\)\(]] of [extract_nik]. *)
Definition nik_like (c : ascii) : bool :=
  one_of "0123456789OoIlLDSBZz?|-)(" c.

(** The class [[:\s=]]. *)
Definition nik_gap (c : ascii) : bool :=
  Ascii.eqb c ":" || is_space c || Ascii.eqb c "=".

(** [\b(\d{16})\b]: the group is atom 1. *)
Definition nik_direct_re : Re.pattern :=
  [ Re.WordB; Re.exactly 16 is_digit; Re.WordB ].

(** [NIK[:\s=]*([0-9OoIlLDSBZz?|\-\)\(]{14,22})] under IGNORECASE: the
    group is atom 4. *)
Definition nik_label_re : Re.pattern :=
  [ Re.one (Re.nocase (Ascii.eqb "N")); Re.one (Re.nocase (Ascii.eqb "I"));
    Re.one (Re.nocase (Ascii.eqb "K")); Re.star (Re.nocase nik_gap);
    Re.Rep (Re.nocase nik_like) 14 (Some 22) ].

(** [[0-9OoIlLDSBZz?|\-\)\(]{14,22}] *)
Definition nik_run_re : Re.pattern := [ Re.Rep nik_like 14 (Some 22) ].

(** [re.sub(r'\D', '', s)] *)
Definition digits_of (s : str) : str :=
  Re.sub [Re.one (Re.neg is_digit)] (fun _ => []) s.

(** The shared tail of strategies 2 and 3: repair, keep the digits, accept
    16 or more of them. *)
Definition repaired_nik (seq : str) : option str :=
  let fixed := fix_ocr_digits seq in
  let digits := digits_of fixed in
  if 16 <=? List.length digits then Some (firstn 16 digits) else None.

(** The loop of strategy 3: the first sequence that is accepted. *)
Fixpoint first_repaired (sequences : list str) : option str :=
  match sequences with
  | [] => None
  | seq :: rest =>
      match repaired_nik seq with
      | Some nik => Some nik
      | None => first_repaired rest
      end
  end.

Definition extract_nik (text : str) : option str :=
  let clean_text := Re.sub [Re.plus is_space] (fun _ => lit " ") text in
  match Re.search nik_direct_re clean_text with
  | Some m => Some (Re.group m 1)
  | None =>
      let by_label :=
        match Re.search nik_label_re clean_text with
        | Some m => repaired_nik (Re.group m 4)
        | None => None
        end in
      match by_label with
      | Some nik => Some nik
      | None => first_repaired (Re.findall nik_run_re clean_text)
      end
  end.

(** *** clean_mrz_line *)

Definition chevron : ascii := "<"%char.

(** The bracket-like characters of pass 1; the last four are the
    guillemets, the pound and the cent sign, by code point. *)
Definition bracket_like : list ascii :=
  [ "("%char; ")"%char; "["%char; "]"%char; "{"%char; "}"%char;
    ascii_of_nat 171; ascii_of_nat 187; ascii_of_nat 163; ascii_of_nat 162;
    "|"%char ].

Definition chevron_lookalikes : list ascii :=
  [ "K"%char; "C"%char; "E"%char; "R"%char; "X"%char; "V"%char; "Y"%char ].

(** The body of [for char in chevron_lookalikes]. *)
Definition repair_between (result : str) (c : ascii) : str :=
  let result := replace [chevron; c; chevron] (lit "<<<") result in
  replace [chevron; c; c; chevron] (lit "<<<<") result.

(** The body of [for _ in range(5)]. *)
Definition repair_pass (result : str) : str :=
  let result := fold_left repair_between chevron_lookalikes result in
  let result := replace (lit "K<") (lit "<<") result in
  let result := replace (lit "<K") (lit "<<") result in
  let result := replace (lit "C<") (lit "<<") result in
  replace (lit "<C") (lit "<<") result.

(** [(<{3,})([KCERXVY]+)$] *)
Definition trailing_re : Re.pattern :=
  [ Re.at_least 3 (Ascii.eqb chevron); Re.plus (one_of "KCERXVY"); Re.Eol ].

Definition is_mrz_char (c : ascii) : bool :=
  is_upper c || is_digit c || Ascii.eqb c chevron.

Definition clean_mrz_line (line : str) : str :=
  if negb (truthy line) then []
  else
    let result := upper line in
    (* pass 1 *)
    let result :=
      fold_left (fun r old => replace [old] [chevron] r) bracket_like result in
    (* pass 2 *)
    let result := fold_left (fun r _ => repair_pass r) (seq 0 5) result in
    (* pass 3 *)
    let result :=
      match Re.search trailing_re result with
      | Some m =>
          Re.before m
          ++ repeat chevron (List.length (Re.group m 0) + List.length (Re.group m 1))
      | None => result
      end in
    (* pass 4 *)
    let result := Re.sub [Re.one (Re.neg is_mrz_char)] (fun _ => []) result in
    (* pass 5 *)
    Re.sub [Re.at_least 3 (Ascii.eqb chevron)]
           (fun m => repeat chevron (List.length (Re.whole m))) result.

(** *** detect_document_type *)

Definition visa_keywords : list string :=
  [ "VISA"; "KINGDOM OF SAUDI"; "KSA"; "MOFA"; "KEDUTAAN"; "EMBASSY"; "R.S.A" ].

Definition ktp_keywords : list string :=
  [ "PROVINSI"; "KABUPATEN"; "KECAMATAN"; "KELURAHAN"; "NIK"; "RT/RW";
    "BERLAKU HINGGA"; "KARTU TANDA PENDUDUK" ].

Definition passport_keywords : list string :=
  [ "PASSPORT"; "PASPOR"; "DATE OF ISSUE"; "DATE OF EXPIRY";
    "REPUBLIC OF INDONESIA"; "TANGGAL HABIS BERLAKU"; "IMIGRASI" ].

(** [sum(1 for kw in kws if kw in text)] *)
Definition hits (kws : list string) (text : str) : nat :=
  List.length (filter (fun kw : string => contains kw text) kws).

(** [[A-Z]{2}<[A-Z]+<<] *)
Definition mrz_name_re : Re.pattern :=
  [ Re.exactly 2 is_upper; Re.char chevron; Re.plus is_upper;
    Re.char chevron; Re.char chevron ].

Definition found_by (re : Re.pattern) (text : str) : bool :=
  match Re.search re text with Some _ => true | None => false end.

Definition detect_document_type (text : str) : string :=
  let text_upper := upper text in
  if contains (lit "VISA") text_upper
     && (contains (lit "SAUDI") text_upper || contains (lit "NUMBER") text_upper
         || contains (lit "NO") text_upper)
  then "VISA"
  else if 2 <=? hits visa_keywords text_upper then "VISA"
  else if 2 <=? hits ktp_keywords text_upper then "KTP"
  else if 2 <=? hits passport_keywords text_upper then "PASSPORT"
  else if contains (lit "P<") text_upper || contains (lit "P<IDN") text_upper
  then "PASSPORT"
  else if contains (lit "V<") text_upper || contains (lit "V<IDN") text_upper
  then "VISA"
  else if contains (lit "<<<") text || found_by mrz_name_re text_upper then
    if contains (lit "SAUDI") text_upper || contains (lit "ARABIA") text_upper
    then "VISA" else "PASSPORT"
  else if found_by [Re.exactly 16 is_digit] text then "KTP"
  else if found_by [Re.one is_upper; Re.exactly 7 is_digit] text then "PASSPORT"
  else "UNKNOWN".

(** The decision list of the spec: the tests in priority order, each with
    the type it gives; the first test that holds decides. *)
Definition tiers (text : str) : list (bool * string) :=
  let text_upper := upper text in
  let generic_mrz :=
    contains (lit "<<<") text || found_by mrz_name_re text_upper in
  [ (contains (lit "VISA") text_upper
     && (contains (lit "SAUDI") text_upper || contains (lit "NUMBER") text_upper
         || contains (lit "NO") text_upper), "VISA");
    (2 <=? hits visa_keywords text_upper, "VISA");
    (2 <=? hits ktp_keywords text_upper, "KTP");
    (2 <=? hits passport_keywords text_upper, "PASSPORT");
    (contains (lit "P<") text_upper || contains (lit "P<IDN") text_upper,
     "PASSPORT");
    (contains (lit "V<") text_upper || contains (lit "V<IDN") text_upper,
     "VISA");
    (generic_mrz
     && (contains (lit "SAUDI") text_upper || contains (lit "ARABIA") text_upper),
     "VISA");
    (generic_mrz, "PASSPORT");
    (found_by [Re.exactly 16 is_digit] text, "KTP");
    (found_by [Re.one is_upper; Re.exactly 7 is_digit] text, "PASSPORT") ].

Definition first_tier (ts : list (bool * string)) : string :=
  match find fst ts with
  | Some t => snd t
  | None => "UNKNOWN"
  end.

End Parser.

(* ================================================================== *)
(** ** mappers.py and document_processor.py *)
(* ================================================================== *)

Module Processor.

(** A raw OCR dictionary: string keys with [Optional[str]] values, and the
    two bookkeeping keys ['_partial'] and ['_error'] of a failed unit. *)
Record doc_data : Type := mk_doc {
  entries : list (string * option str);
  _partial : bool;
  _error : option str
}.

Fixpoint assoc (k : string) (d : list (string * option str))
  : option (option str) :=
  match d with
  | [] => None
  | (k', v) :: d' => if String.eqb k k' then Some v else assoc k d'
  end.

(** [doc_data.get(k)] *)
Definition dget (d : doc_data) (k : string) : option str :=
  match assoc k (entries d) with
  | Some v => v
  | None => None
  end.

(** [doc_data.get(k, default)] *)
Definition dget_or (d : doc_data) (k : string) (default : string) : option str :=
  match assoc k (entries d) with
  | Some v => v
  | None => Some (lit default)
  end.

(** [x or ""] *)
Definition or_empty (x : option str) : str :=
  match x with
  | Some s => s
  | None => []
  end.

Definition truthy_opt (x : option str) : bool :=
  match x with
  | Some s => truthy s
  | None => false
  end.

(** [doc_data_to_item]; [None] is the validation error the item's
    constructor raises when ['document_type'] is present and null. *)
Definition doc_data_to_item (d : doc_data) : option Item :=
  match dget_or d "document_type" "UNKNOWN" with
  | None => None
  | Some doc_type =>
      Some (fun f =>
              match f with
              | jenis_identitas => doc_type
              | nama_paspor => or_empty (dget d "nama")
              | kewarganegaraan => lit "WNI"
              | _ => or_empty (dget d (key f))
              end)
  end.

(** [_has_useful_data] *)
Definition _has_useful_data (d : doc_data) : bool :=
  truthy_opt (dget d "nama") || truthy_opt (dget d "no_identitas")
  || truthy_opt (dget d "no_paspor") || truthy_opt (dget d "no_visa").

(** *** _process_single_image *)

Inductive engine : Type := gemini | tesseract | hybrid.

(** What one call of an engine does: return a dictionary or raise an
    [Exception] with the given text. *)
Inductive attempt_result : Type :=
| Returned (result : doc_data)
| Raised (e : str).

(** The observable actions of the dispatcher. *)
Inductive event : Type :=
| Call (fn : engine)
| Sleep (seconds : nat).

Definition MAX_RETRIES : nat := 2.
Definition RETRY_DELAY_SECONDS : nat := 1.

(** The run so far: engine calls made, and the actions in order. *)
Record run : Type := mk_run {
  calls : nat;
  trace : list event
}.

Definition start : run := mk_run 0 [].

Definition M (A : Type) : Type := run -> A * run.

Definition ret {A : Type} (x : A) : M A := fun w => (x, w).

Definition bind {A B : Type} (m : M A) (k : A -> M B) : M B :=
  fun w => let (x, w') := m w in k x w'.

Notation "x <- m ;; k" := (bind m (fun x => k))
  (at level 61, m at next level, right associativity).

Section Dispatch.

(** The environment: [OCR_PRIMARY_ENGINE], [OCR_FALLBACK_ENABLED]. *)
Variable OCR_ENGINE : string.
Variable OCR_FALLBACK_ENABLED : bool.

(** The engines are external: [engine_call fn n] is what the call of [fn]
    does when [n] calls were made before it in this run. *)
Variable engine_call : engine -> nat -> attempt_result.

Definition call (fn : engine) : M attempt_result :=
  fun w => (engine_call fn (calls w),
            mk_run (S (calls w)) (trace w ++ [Call fn])).

Definition sleep (seconds : nat) : M unit :=
  fun w => (tt, mk_run (calls w) (trace w ++ [Sleep seconds])).

(** [engines.get(OCR_ENGINE, _process_with_gemini)] *)
Definition primary_fn : engine :=
  if String.eqb OCR_ENGINE "gemini" then gemini
  else if String.eqb OCR_ENGINE "tesseract" then tesseract
  else if String.eqb OCR_ENGINE "hybrid" then hybrid
  else gemini.

(** The loop [for attempt in range(1, MAX_RETRIES + 2)]: the returned
    dictionary, or the last error when every attempt raised. *)
Fixpoint try_primary (attempts : list nat) (last_error : option str)
  : M (option doc_data * option str) :=
  match attempts with
  | [] => ret (None, last_error)
  | attempt :: more =>
      r <- call primary_fn ;;
      match r with
      | Returned result => ret (Some result, last_error)
      | Raised e =>
          _ <- (if attempt <=? MAX_RETRIES
                then sleep (RETRY_DELAY_SECONDS * attempt)
                else ret tt) ;;
          try_primary more (Some e)
      end
  end.

(** [str(last_error)] *)
Definition str_of_error (last_error : option str) : str :=
  match last_error with
  | Some e => e
  | None => lit "None"
  end.

Definition error_result (last_error : option str) : doc_data :=
  mk_doc [ ("document_type", Some (lit "UNKNOWN")); ("nama", None);
           ("no_identitas", None) ]
         true (Some (str_of_error last_error)).

Definition _process_single_image : M doc_data :=
  p <- try_primary (seq 1 (MAX_RETRIES + 1)) None ;;
  match p with
  | (Some result, _) => ret result
  | (None, last_error) =>
      if OCR_FALLBACK_ENABLED && negb (String.eqb OCR_ENGINE "gemini") then
        r <- call gemini ;;
        match r with
        | Returned result => ret result
        | Raised e => ret (error_result (Some e))
        end
      else ret (error_result last_error)
  end.

End Dispatch.

(** The actions of [k] attempts of [fn], numbered from [attempt], with the
    back-off sleep between consecutive attempts. *)
Fixpoint retry_trace (fn : engine) (attempt k : nat) : list event :=
  match k with
  | O => []
  | S k' =>
      Call fn ::
      match k' with
      | O => []
      | S _ => Sleep (RETRY_DELAY_SECONDS * attempt)
               :: retry_trace fn (S attempt) k'
      end
  end.

Definition raises (r : attempt_result) : Prop := exists e, r = Raised e.

(** *** _process_one *)

(** Why a file failed: the OCR error text, or an exception caught by the
    handler of [_process_one]. *)
Inductive failure : Type :=
| OcrFailed (text : str)
| PdfUnreadable
| ValidationError
| CacheKeyError.

(** [(filename, success, doc_type_or_error, items, was_cached)] *)
Record outcome : Type := mk_outcome {
  o_filename : str;
  o_success : bool;
  o_doc_type : str;
  o_error : option failure;
  o_items : list Item;
  o_cached : bool
}.

Definition failed (filename : str) (why : failure) : outcome :=
  mk_outcome filename false [] (Some why) [] false.

Section OneFile.

(** [OCRCache.compute_hash] (SHA-256 of the content). *)
Variable compute_hash : list Byte.byte -> str.

(** [ocr_engine.convert_pdf_to_images] followed by the PNG encoding of each
    page; [None] when it raises. *)
Variable convert_pdf_to_images : list Byte.byte -> option (list (list Byte.byte)).

(** [_rate_limited_ocr]: the dictionary [_process_single_image] returns for
    a unit. *)
Variable ocr : list Byte.byte -> str -> doc_data.

(** The loop over [page_results]: an item per useful page. *)
Fixpoint useful_items (page_results : list doc_data) : option (list Item) :=
  match page_results with
  | [] => Some []
  | d :: rest =>
      if _has_useful_data d then
        match doc_data_to_item d with
        | None => None
        | Some it =>
            match useful_items rest with
            | None => None
            | Some items => Some (it :: items)
            end
        end
      else useful_items rest
  end.

(** [f"{filename}_page{page_num}"] for pages numbered from [start]. *)
Fixpoint page_results (filename : str) (page_num : nat)
         (pdf_images : list (list Byte.byte)) : list doc_data :=
  match pdf_images with
  | [] => []
  | img :: rest =>
      ocr img (filename ++ lit "_page" ++ str_of_int (N.of_nat page_num))
      :: page_results filename (S page_num) rest
  end.

(** [_process_one]: the clock is read at the lookup ([now_get]) and at the
    store ([now_put]). *)
Definition _process_one (filename file_ext : str) (content : list Byte.byte)
           (now_get now_put : Z) (ocr_cache : Cache.OCRCache (list Item))
  : outcome * Cache.OCRCache (list Item) :=
  let file_hash := compute_hash content in
  let (cached_result, ocr_cache) := Cache.get file_hash now_get ocr_cache in
  let was_cached :=
    match cached_result with Some _ => true | None => false end in
  let hit := match cached_result with Some (_ :: _) => cached_result | _ => None end in
  if str_eqb file_ext (lit ".pdf") then
    match hit with
    | Some items => (mk_outcome filename true (lit "PDF") None items was_cached, ocr_cache)
    | None =>
        match convert_pdf_to_images content with
        | None => (failed filename PdfUnreadable, ocr_cache)
        | Some pdf_images =>
            match useful_items (page_results filename 1 pdf_images) with
            | None => (failed filename ValidationError, ocr_cache)
            | Some [] =>
                (mk_outcome filename true (lit "PDF") None [] was_cached, ocr_cache)
            | Some items =>
                match Cache.put file_hash items now_put ocr_cache with
                | None => (failed filename CacheKeyError, ocr_cache)
                | Some ocr_cache' =>
                    (mk_outcome filename true (lit "PDF") None items was_cached,
                     ocr_cache')
                end
            end
        end
    end
  else
    let done (items : list Item) (c : Cache.OCRCache (list Item)) :=
      let doc_type :=
        match items with
        | it :: _ => it jenis_identitas
        | [] => lit "UNKNOWN"
        end in
      (mk_outcome filename true doc_type None items was_cached, c) in
    match hit with
    | Some items => done items ocr_cache
    | None =>
        let d := ocr content filename in
        if _partial d then
          (failed filename
                  (OcrFailed (match _error d with
                              | Some e => e
                              | None => lit "OCR failed"
                              end)),
           ocr_cache)
        else
          match doc_data_to_item d with
          | None => (failed filename ValidationError, ocr_cache)
          | Some it =>
              match Cache.put file_hash [it] now_put ocr_cache with
              | None => (failed filename CacheKeyError, ocr_cache)
              | Some ocr_cache' => done [it] ocr_cache'
              end
          end
    end.

End OneFile.

(** *** run_pipeline: sanitize, then merge *)

(** Step 1 of [run_pipeline]: the items [clean_entry] keeps. *)
Definition sanitized_data (extracted_data : list Item) : list Item :=
  flat_map (fun item => match Cleaner.clean_entry item with
                        | Some cleaned_item => [cleaned_item]
                        | None => []
                        end)
           extracted_data.

End Processor.

(* ================================================================== *)
(** ** Scenarios: the concrete inputs the statements below are run on *)
(* ================================================================== *)

Module Scenarios.

Import Processor.

(** The two records of the spec's example, as objects 0 and 1. *)
Definition ahmad : heap :=
  fun r =>
    match r with
    | 0 => set_field (set_field blank_item nama (lit "AHMAD DAHLAN"))
                     no_identitas (lit "123")
    | _ => set_field (set_field blank_item nama (lit "AHMAD DAHLANN"))
                     alamat (lit "Jl. Sudirman")
    end.

(** An existing record with a passport number and a city, and a namesake
    that brings other values for both and a telephone number. *)
Definition siti : heap :=
  fun r =>
    match r with
    | 0 => set_field (set_field (set_field blank_item nama (lit "SITI AMINAH"))
                                no_paspor (lit "A1234567"))
                     kota_paspor (lit "JAKARTA")
    | _ => set_field (set_field (set_field (set_field blank_item
                                   nama (lit "SITI AMINAH"))
                                   no_paspor (lit "B7654321"))
                                kota_paspor (lit "BOGOR"))
                     no_telepon (lit "0812")
    end.

(** Three scanned documents: a passport page with an identity number read
    off another line, a visa page of the same traveller, and a page of
    unknown type that carries a passport number only. *)
Definition pilgrims : heap :=
  fun r =>
    match r with
    | 0 => set_field (set_field (set_field (set_field blank_item
                 nama (lit "BUDI SANTOSO"))
                 jenis_identitas (lit "passport"))
                 no_identitas (lit "3515082506920002"))
                 no_paspor (lit "A1234567")
    | 1 => set_field (set_field blank_item nama (lit "BUDI SANTOSO"))
                     no_visa (lit "6012345678")
    | _ => set_field (set_field (set_field blank_item
                 nama (lit "RINA WATI"))
                 jenis_identitas (lit "UNKNOWN"))
                 no_paspor (lit "B7654321")
    end.

(** A KTP row with a fifteen-digit identity number whose passport column
    holds the text "16 digit". *)
Definition echo_row : Item :=
  set_field (set_field (set_field (set_field blank_item
    jenis_identitas (lit "KTP"))
    no_identitas (lit "123456789012345"))
    no_paspor (lit "16 digit"))
    nama (lit "BUDI SANTOSO").

(** A row of type ktp whose identity number has fifteen digits, written in
    groups, and whose name is blank. *)
Definition short_nik_row : Item :=
  set_field (set_field (set_field blank_item
    jenis_identitas (lit "ktp"))
    no_identitas (lit "3515 0825 0692 000"))
    nama (lit "   ").

(** What an engine reads off a passport page. *)
Definition passport_page : doc_data :=
  mk_doc [ ("document_type", Some (lit "PASPOR"));
           ("nama", Some (lit "BUDI SANTOSO"));
           ("no_paspor", Some (lit "A1234567")) ] false None.

(** An engine that answers at once. *)
Definition always_answers (fn : engine) (n : nat) : attempt_result :=
  Returned passport_page.

(** Engines that are down, and a local engine that answers on its second
    attempt. *)
Definition always_down (fn : engine) (n : nat) : attempt_result :=
  Raised (lit "503 Service Unavailable").

Definition second_time_lucky (fn : engine) (n : nat) : attempt_result :=
  match n with
  | O => Raised (lit "Tesseract extracted no usable text")
  | _ => Returned passport_page
  end.

(** A page on which only the passport's date of issue was legible: no
    name, no identity, passport or visa number. *)
Definition date_only_page : doc_data :=
  mk_doc [ ("document_type", Some (lit "PASPOR"));
           ("nama", None);
           ("no_paspor", None);
           ("tanggal_paspor", Some (lit "12 JAN 2020")) ] false None.

(** The first bytes of a JPEG file, a stand-in for the hash function, a
    one-page document, and an engine that reads [date_only_page]. *)
Definition scan_bytes : list Byte.byte :=
  [Byte.xff; Byte.xd8; Byte.xff; Byte.xe0].

Definition one_hash (content : list Byte.byte) : str := lit "9f86d081884c".

Definition one_page (content : list Byte.byte) : option (list (list Byte.byte)) :=
  Some [content].

Definition reads_date_only (img : list Byte.byte) (filename : str) : doc_data :=
  date_only_page.

(** The cache as the module creates it: 100 entries, one hour. *)
Definition empty_cache : Cache.OCRCache (list Item) := Cache.new 100 3600.

(** The same scan submitted as an image and as a one-page PDF. *)

Definition as_image : outcome * Cache.OCRCache (list Item) :=
  _process_one one_hash one_page reads_date_only
               (lit "scan.jpg") (lit ".jpg") scan_bytes 0%Z 0%Z empty_cache.

Definition as_pdf : outcome * Cache.OCRCache (list Item) :=
  _process_one one_hash one_page reads_date_only
               (lit "scan.pdf") (lit ".pdf") scan_bytes 0%Z 0%Z empty_cache.

End Scenarios.

(* ================================================================== *)
(** ** Text helpers: runs of a character class *)
(* ================================================================== *)

Module Text.

(** The longest prefix of [s] inside the class. *)
Fixpoint take_while (p : ascii -> bool) (s : str) : str :=
  match s with
  | [] => []
  | c :: s' => if p c then c :: take_while p s' else []
  end.

(** A text in which every run of the class is replaced by [r]; [in_run]
    says that the character before belonged to the class. *)
Fixpoint squeeze (cls : ascii -> bool) (r : str) (in_run : bool) (s : str) : str :=
  match s with
  | [] => []
  | c :: s' =>
      if cls c then
        if in_run then squeeze cls r true s' else r ++ squeeze cls r true s'
      else c :: squeeze cls r false s'
  end.

(** No two neighbours of the text are both in the class. *)
Fixpoint no_run (cls : ascii -> bool) (s : str) : bool :=
  match s with
  | c :: ((c' :: _) as s') => negb (cls c && cls c') && no_run cls s'
  | _ => true
  end.

End Text.

(* ================================================================== *)
(** ** cache.py: the interface as a sequence of calls *)
(* ================================================================== *)

Module CacheOps.
Import Cache.

Section Ops.
Variable A : Type.

(** [clear()] *)
Definition clear (c : OCRCache A) : OCRCache A :=
  mk_cache A [] (_max_size c) (_ttl c) 0 0.

(** A call of the cache's interface, with the clock reading it sees. *)
Inductive op : Type :=
| Get (file_hash : str) (now : Z)
| Put (file_hash : str) (x : A) (now : Z)
| Clear.

Definition step (c : OCRCache A) (o : op) : option (OCRCache A) :=
  match o with
  | Get file_hash now => Some (snd (get file_hash now c))
  | Put file_hash x now => put file_hash x now c
  | Clear => Some (clear c)
  end.

(** A sequence of calls on one cache object; [None] when a call raises. *)
Fixpoint steps (c : OCRCache A) (ops : list op) : option (OCRCache A) :=
  match ops with
  | [] => Some c
  | o :: rest =>
      match step c o with
      | Some c' => steps c' rest
      | None => None
      end
  end.

(** The lookups made since the cache was last cleared. *)
Definition lookups (ops : list op) : nat :=
  fold_left (fun n o => match o with
                        | Get _ _ => S n
                        | Put _ _ _ => n
                        | Clear => 0
                        end) ops 0.

(** The invariant of a cache made by [OCRCache(m, ttl)] after [n]
    lookups: distinct keys, at most [m] of them, every lookup counted. *)
Definition well_formed (m ttl : Z) (n : nat) (c : OCRCache A) : Prop :=
  NoDup (keys c)
  /\ (Z.of_nat (List.length (keys c)) <= m)%Z
  /\ _hits c + _misses c = n
  /\ _max_size c = m /\ _ttl c = ttl.

End Ops.

Arguments clear {A} _.
Arguments Get {A} _ _.
Arguments Put {A} _ _ _.
Arguments Clear {A}.
Arguments step {A} _ _.
Arguments steps {A} _ _.
Arguments lookups {A} _.
Arguments well_formed {A} _ _ _ _.

End CacheOps.

(* ================================================================== *)
(** ** parsers: the digit repair tables *)
(* ================================================================== *)

Module Repairs.
Import Parser.

(** [fix_mrz_number] *)
Definition mrz_digit_fixes : list (string * string) :=
  [ ("O", "0"); ("Q", "0"); ("D", "0");
    ("I", "1"); ("L", "1"); ("l", "1"); ("|", "1");
    ("S", "5"); ("s", "5");
    ("B", "8");
    ("G", "6"); ("g", "9");
    ("Z", "2"); ("z", "2");
    ("T", "7");
    ("A", "4") ].

Definition fix_mrz_number (text : str) : str := replace_all mrz_digit_fixes text.

(** The characters a repair table rewrites. *)
Definition misread (table : list (string * string)) (c : ascii) : bool :=
  existsb (fun p : string * string => str_eqb (lit (fst p)) [c]) table.

(** What is left of the class of [extract_nik] once the letters are
    repaired: digits, and the three separators. *)
Definition digit_or_separator (c : ascii) : bool :=
  is_digit c || one_of "-)(" c.

(** Replacing one character by one character is a map. *)
Definition swap (a b c : ascii) : ascii := if Ascii.eqb a c then b else c.

(** A table of one-character entries, read as a function on characters:
    the entries apply in order, each to the outcome of the one before. *)
Definition fix_char (table : list (string * string)) (c : ascii) : ascii :=
  fold_left (fun c (p : string * string) =>
               match lit (fst p), lit (snd p) with
               | [a], [b] => swap a b c
               | _, _ => c
               end) table c.

Definition one_to_one (p : string * string) : Prop :=
  exists a b, lit (fst p) = [a] /\ lit (snd p) = [b].

End Repairs.

(* ================================================================== *)
(** ** cleaner.py: the characters of a clean name *)
(* ================================================================== *)

Module Names.
Import Cleaner.

(** What a cleaned name is made of: capital letters, the blank, the
    hyphen and the apostrophe. *)
Definition is_clean_name_char (c : ascii) : bool :=
  is_upper c || Ascii.eqb c " " || Ascii.eqb c "-" || Ascii.eqb c "'".

Definition first_char_ok (p : ascii -> bool) (s : str) : bool :=
  match s with c :: _ => p c | [] => true end.

End Names.

(* ================================================================== *)
(** ** cleaner.py: the dates of [standardize_date] *)
(* ================================================================== *)

Module Dates.
Import Cleaner.

(** The shape [dddd-dd-dd] with a month between 01 and 12. *)
Definition is_iso_date (r : str) : bool :=
  match r with
  | [y1; y2; y3; y4; dash1; m1; m2; dash2; d1; d2] =>
      forallb is_digit [y1; y2; y3; y4; m1; m2; d1; d2]
      && Ascii.eqb dash1 "-" && Ascii.eqb dash2 "-"
      && (1 <=? int_of [m1; m2])%N && (int_of [m1; m2] <=? 12)%N
  | _ => false
  end.

(** A date written year-month-day and day-month-year, with dashes and
    leading zeros. *)
Definition iso (y m d : N) : str :=
  zfill 4 (str_of_int y) ++ lit "-" ++ zfill 2 (str_of_int m)
  ++ lit "-" ++ zfill 2 (str_of_int d).

Definition day_first (y m d : N) : str :=
  zfill 2 (str_of_int d) ++ lit "-" ++ zfill 2 (str_of_int m)
  ++ lit "-" ++ zfill 4 (str_of_int y).

Definition is_digit_or_dash (c : ascii) : bool :=
  is_digit c || Ascii.eqb c "-".

Definition digits (s : str) : Prop := Forall (fun c => is_digit c = true) s.

End Dates.

(* ================================================================== *)
(** ** cleaner.py: the columns of [clean_entry] *)
(* ================================================================== *)

Module Entries.
Import Cleaner.

(** The columns that keep an entry whatever its name: visa number, first
    visa date, provider, passport number, passport date, identity
    number. *)
Definition has_document_data (entry : Item) : bool :=
  truthy (entry no_visa) || truthy (entry tanggal_visa)
  || truthy (entry provider_visa)
  || truthy (entry no_paspor) || truthy (entry tanggal_paspor)
  || truthy (entry no_identitas).

Definition date_columns : list field :=
  [ tanggal_lahir; tanggal_paspor; tanggal_visa; tanggal_visa_akhir ].

(** The columns [clean_entry] may write. *)
Definition cleaned_columns : list field :=
  nama :: tempat_lahir :: date_columns.

(** The conditional rewrite of one column that [clean_entry] applies to
    the dates and the place: [if entry.f: entry.f = g(entry.f)]. *)
Definition on (f : field) (g : str -> str) (e : Item) : Item :=
  if truthy (e f) then set_field e f (g (e f)) else e.

End Entries.

Module EntryScenarios.
Import Cleaner.

(** A visa page whose name line was read off the header of another
    document, with a birth date written day-month-year. *)
Definition garbled_visa_row : Item :=
  set_field (set_field (set_field (set_field blank_item
    nama (lit "PROVINSI JAWA"))
    no_visa (lit "6012345678"))
    tanggal_lahir (lit "05-03-1990"))
    tempat_lahir (lit " pati ").

(** What [clean_entry] leaves of a kept entry. *)
Definition cleaned (entry : Item) : Item :=
  match clean_entry entry with
  | Some e => e
  | None => entry
  end.

End EntryScenarios.

(* ================================================================== *)
(** ** cleaner.py: the order of the merged records *)
(* ================================================================== *)

Module Merging.

(** [l] is [big] with some elements left out. *)
Inductive subsequence {A : Type} : list A -> list A -> Prop :=
| subsequence_nil : subsequence [] []
| subsequence_skip (x : A) (l big : list A) :
    subsequence l big -> subsequence l (x :: big)
| subsequence_take (x : A) (l big : list A) :
    subsequence l big -> subsequence (x :: l) (x :: big).

(** The first non-empty string of a list, or the empty string. *)
Definition first_nonempty (values : list str) : str :=
  match find truthy values with
  | Some v => v
  | None => []
  end.

(** A passport page with a name, and two visa pages on which no name
    was read. *)
Definition visa_pages : heap :=
  fun r =>
    match r with
    | 0 => set_field (set_field blank_item nama (lit "SITI AMINAH"))
                     no_paspor (lit "A1234567")
    | 1 => set_field blank_item no_visa (lit "6012345678")
    | _ => set_field blank_item no_visa (lit "6087654321")
    end.

End Merging.

(* ================================================================== *)
(** ** validators.py: the columns of [validate_row] *)
(* ================================================================== *)

Module Rows.
Import Validators.

(** The columns [validate_row] checks, in the order of its checks. *)
Definition checked_columns : list field :=
  [ no_identitas; no_paspor; no_visa;
    tanggal_lahir; tanggal_paspor; tanggal_visa; tanggal_visa_akhir;
    tanggal_input_polis; tanggal_awal_polis; tanggal_akhir_polis;
    kewarganegaraan; nama ].

End Rows.

(* ================================================================== *)
(** ** document_processor.py: what a run of the dispatcher did *)
(* ================================================================== *)

Module Runs.
Import Processor.

(** The engines called in a run, in order, and the seconds slept. *)
Definition called (t : list event) : list engine :=
  flat_map (fun e => match e with Call fn => [fn] | Sleep _ => [] end) t.

Definition slept (t : list event) : nat :=
  fold_right (fun e acc => match e with Sleep s => s + acc | Call _ => acc end)
             0 t.

End Runs.

Module FileScenarios.
Import Cache Processor Scenarios.

(** The scan of [as_image] submitted again five ticks later, as a PDF
    under another name. *)
Definition resubmitted : outcome * OCRCache (list Item) :=
  _process_one one_hash one_page reads_date_only
               (lit "copy.pdf") (lit ".pdf") scan_bytes 5%Z 5%Z (snd as_image).

End FileScenarios.

(* ================================================================== *)
(** ** document_processor.py: the batches of [process_files] *)
(* ================================================================== *)

Module Batches.

Definition BATCH_SIZE : nat := 20.

(** [range(start, stop, step)] for a positive [step]. *)
Definition range_step (start stop step : nat) : list nat :=
  map (fun j => start + j * step) (seq 0 ((stop - start + step - 1) / step)).

(** [file_data[i:j]] *)
Definition slice {A : Type} (l : list A) (i j : nat) : list A :=
  firstn (j - i) (skipn i l).

(** [[file_data[i:i + BATCH_SIZE] for i in range(0, len(file_data),
    BATCH_SIZE)]] *)
Definition all_batches {A : Type} (file_data : list A) : list (list A) :=
  map (fun i => slice file_data i (i + BATCH_SIZE))
      (range_step 0 (List.length file_data) BATCH_SIZE).

(** The loop [for batch in all_batches: tasks.extend([... for ... in
    batch])], with [task] for the call of [_process_one]. *)
Definition tasks {A B : Type} (task : A -> B) (file_data : list A) : list B :=
  fold_left (fun tasks batch => tasks ++ map task batch)
            (all_batches file_data) [].

End Batches.

(* ================================================================== *)
(** ** passport_parser.py: [parse_mrz] *)
(* ================================================================== *)

Module Mrz.
Import Parser Repairs Batches.

Definition newline : str := ["010"%char].

(** [s.split(sep)] for a non-empty separator: left to right, occurrences
    do not overlap. [skip] counts the characters of a separator still to
    be dropped, [piece_rev] is the piece being read, last character
    first. *)
Fixpoint split_from (sep : str) (skip : nat) (piece_rev : str) (s : str)
  : list str :=
  match s with
  | [] => [rev piece_rev]
  | c :: s' =>
      match skip with
      | S k => split_from sep k piece_rev s'
      | O =>
          if starts_with sep s
          then rev piece_rev :: split_from sep (List.length sep - 1) [] s'
          else split_from sep 0 (c :: piece_rev) s'
      end
  end.

Definition split (sep s : str) : list str := split_from sep 0 [] s.

(** [s.count(c)] for a character. *)
Definition count (c : ascii) (s : str) : nat :=
  List.length (filter (Ascii.eqb c) s).

(** [s.isdigit()] and [c.isalnum()], on the 7-bit range. *)
Definition isdigit (s : str) : bool := truthy s && forallb is_digit s.
Definition isalnum (c : ascii) : bool := is_alpha c || is_digit c.

(** *** parse_mrz *)

Record mrz_data : Type := mk_mrz {
  passport_number : option str;
  surname : option str;
  given_names : option str;
  name : option str;
  date_of_birth : option str;
  date_of_expiry : option str;
  sex : option str;
  nationality : option str
}.

(** The dictionary [parse_mrz] starts from. *)
Definition no_mrz : mrz_data := mk_mrz None None None None None None None None.

Definition is_marked (cleaned : str) : bool :=
  starts_with (lit "P<") cleaned || starts_with (lit "V<") cleaned
  || contains (lit "P<IDN") cleaned || contains (lit "V<IDN") cleaned.

(** Strategy 1: the first marked line of thirty characters or more, and
    the line after it when that looks like the second line. *)
Fixpoint strategy1 (lines : list str) : option (str * option str) :=
  match lines with
  | [] => None
  | line :: rest =>
      let cleaned := clean_mrz_line line in
      if is_marked cleaned && (30 <=? List.length cleaned) then
        Some (cleaned,
              match rest with
              | next :: _ =>
                  let next_cleaned := clean_mrz_line next in
                  if (30 <=? List.length next_cleaned)
                     && match next_cleaned with
                        | c :: _ => isalnum c
                        | [] => false
                        end
                  then Some next_cleaned
                  else None
              | [] => None
              end)
      else strategy1 rest
  end.

(** Strategy 2: the first two lines of thirty characters or more with
    five chevrons or more. *)
Fixpoint strategy2 (lines : list str) (mrz_line1 : option str)
  : option str * option str :=
  match lines with
  | [] => (mrz_line1, None)
  | line :: rest =>
      let cleaned := clean_mrz_line line in
      if (5 <=? count "<" cleaned) && (30 <=? List.length cleaned) then
        match mrz_line1 with
        | None => strategy2 rest (Some cleaned)
        | Some _ => (mrz_line1, Some cleaned)
        end
      else strategy2 rest mrz_line1
  end.

Definition mrz_lines (text : str) : option str * option str :=
  let lines := split newline text in
  match strategy1 lines with
  | Some (mrz_line1, mrz_line2) => (Some mrz_line1, mrz_line2)
  | None => strategy2 lines None
  end.

Definition unchevron (s : str) : str := replace (lit "<") (lit " ") s.

(** The block "PARSE LINE 1": [(final_name, surname, given_name)]. *)
Definition mrz_names (mrz_line1 : str) : str * str * str :=
  let start_index := 5 in
  let raw_name_section := skipn start_index mrz_line1 in
  let clean_section :=
    replace (lit "<<<<") (lit "<<")
            (replace (lit "<<<") (lit "<<") raw_name_section) in
  let parts := split (lit "<<") clean_section in
  let surname := strip (unchevron (nth 0 parts [])) in
  match parts with
  | _ :: part1 :: _ =>
      let given_name := strip (unchevron part1) in
      (strip (given_name ++ lit " " ++ surname), surname, given_name)
  | _ =>
      let final_name := strip (unchevron clean_section) in
      let final_name :=
        Re.sub [Re.one is_space; Re.one is_upper; Re.Eol] (fun _ => [])
               final_name in
      (final_name, final_name, [])
  end.

(** [parse_mrz] *)
Definition parse_mrz (text : str) : mrz_data :=
  match mrz_lines text with
  | (None, _) => no_mrz
  | (Some mrz_line1, mrz_line2) =>
      let '(final_name, surname, given_name) := mrz_names mrz_line1 in
      let named :=
        mk_mrz None (Some surname) (Some given_name) (Some final_name)
               None None None None in
      match mrz_line2 with
      | None => named
      | Some mrz_line2 =>
          if 20 <=? List.length mrz_line2 then
            let passport_clean :=
              fix_mrz_number (replace (lit "<") [] (slice mrz_line2 0 9)) in
            let dob_fixed := fix_mrz_number (slice mrz_line2 13 19) in
            let exp_fixed := fix_mrz_number (slice mrz_line2 21 27) in
            mk_mrz
              (if truthy passport_clean then Some passport_clean else None)
              (Some surname) (Some given_name) (Some final_name)
              (if (19 <=? List.length mrz_line2)
                  && (List.length dob_fixed =? 6) && isdigit dob_fixed
               then
                 let yy := int_of (slice dob_fixed 0 2) in
                 let year := if (yy <=? 30)%N then (2000 + yy)%N
                             else (1900 + yy)%N in
                 Some (str_of_int year ++ lit "-" ++ slice dob_fixed 2 4
                         ++ lit "-" ++ slice dob_fixed 4 6)
               else None)
              (if (27 <=? List.length mrz_line2)
                  && (List.length exp_fixed =? 6) && isdigit exp_fixed
               then
                 let yy := int_of (slice exp_fixed 0 2) in
                 let year := (2000 + yy)%N in
                 Some (str_of_int year ++ lit "-" ++ slice exp_fixed 2 4
                         ++ lit "-" ++ slice exp_fixed 4 6)
               else None)
              (if 21 <=? List.length mrz_line2 then
                 let sex_char := nth 20 mrz_line2 " "%char in
                 if existsb (Ascii.eqb sex_char) (lit "MF")
                 then Some [sex_char] else None
               else None)
              (if 13 <=? List.length mrz_line2
               then Some (replace (lit "<") [] (slice mrz_line2 10 13))
               else None)
          else named
      end
  end.

(** [l] is the cleaned form of a line of [lines], thirty characters or
    more long. *)
Definition cleaned_long (lines : list str) (l : str) : Prop :=
  exists line, In line lines /\ l = clean_mrz_line line
               /\ 30 <= List.length l.

(** The characters of a name read off the zone. *)
Definition is_mrz_name_char (c : ascii) : bool :=
  is_upper c || is_digit c || Ascii.eqb c " ".

(** A digit, or a capital that [fix_mrz_number] does not rewrite. *)
Definition is_number_char (c : ascii) : bool :=
  (is_digit c || is_upper c) && negb (misread mrz_digit_fixes c).

(** [d] is [year-mm-dd] with the year between [lo] and [hi] and any two
    digits for the month and for the day. *)
Definition dated (lo hi : N) (d : str) : Prop :=
  exists (year : N) (mm dd : str),
    d = str_of_int year ++ lit "-" ++ mm ++ lit "-" ++ dd
    /\ (lo <= year <= hi)%N
    /\ List.length mm = 2 /\ List.length dd = 2
    /\ Forall (fun c => is_digit c = true) mm
    /\ Forall (fun c => is_digit c = true) dd.

(** The two lines at the foot of a passport. *)
Definition specimen : str :=
  lit "P<IDNSANTOSO<<BUDI<<<<<<<<<<<<<<<<<<<<<<<<<<" ++ newline
  ++ lit "X1234567<8IDN9001011M3001012<<<<<<<<<<<<<<00".

Definition specimen_b : str :=
  lit "REPUBLIK INDONESIA" ++ newline
  ++ lit "P<IDNMALIK<<CAHYA<<<<<<<<<<<<<<<<<<<<<<<<<<<" ++ newline
  ++ lit "B1234567<8IDN4512315F2512319<<<<<<<<<<<<<<00".

End Mrz.

(* ================================================================== *)
(** ** document_processor.py: [run_pipeline] on objects *)
(* ================================================================== *)

Module Pipeline.
Import Cleaner Validators Processor Entries.

(** An entry with a name or with document data. *)
Definition worth_keeping (e : Item) : bool :=
  truthy (e nama) || has_document_data e.

Section Steps.

Variable ratio_above : str -> str -> bool.
Variable strptime : str -> string -> bool.

(** Step 1 of [run_pipeline] on objects: [clean_entry] updates the entry
    in place and returns it, or returns [None] and leaves it as it is. *)
Fixpoint sanitize (h : heap) (extracted_data : list ref) : heap * list ref :=
  match extracted_data with
  | [] => (h, [])
  | item :: rest =>
      match clean_entry (h item) with
      | Some cleaned_item =>
          let (h', sanitized_data) := sanitize (store h item cleaned_item) rest in
          (h', item :: sanitized_data)
      | None => sanitize h rest
      end
  end.

(** [run_pipeline]: the objects afterwards, [final_data] and
    [all_warnings]; the progress updates are left out. *)
Definition run_pipeline (h : heap) (extracted_data : list ref)
  : heap * list ref * list (list warning) :=
  let (h1, sanitized_data) := sanitize h extracted_data in
  let (h2, final_data) := fuzzy_merge_data ratio_above h1 sanitized_data in
  (h2, final_data, map (fun item => validate_row strptime (h2 item)) final_data).

End Steps.

(** The columns the pipeline may rewrite: the cleaned ones, and the two
    the consistency pass sets. *)
Definition rewritten_columns : list field :=
  no_identitas :: jenis_identitas :: cleaned_columns.

(** The item the mapper makes of a passport page, as every object of a
    heap. *)
Definition passport_upload : heap :=
  fun _ => match doc_data_to_item Scenarios.passport_page with
           | Some it => it
           | None => blank_item
           end.

(** A heap whose objects all hold the garbled visa row. *)
Definition visa_upload : heap := fun _ => EntryScenarios.garbled_visa_row.

End Pipeline.

(* ================================================================== *)
(** * Properties *)
(* ================================================================== *)

(** ** Strings *)

Lemma str_eqb_refl (a : str) : str_eqb a a = true.
Proof.
  induction a as [|x a IH]; simpl; [reflexivity|].
  now rewrite Ascii.eqb_refl.
Qed.

Lemma str_eqb_eq (a b : str) : str_eqb a b = true <-> a = b.
Proof.
  split.
  - revert b; induction a as [|x a IH]; intros [|y b] H; simpl in H;
      try discriminate; [reflexivity|].
    apply andb_true_iff in H as [Hxy Hab].
    apply Ascii.eqb_eq in Hxy. apply IH in Hab. now subst.
  - intros ->. apply str_eqb_refl.
Qed.

Lemma str_eqb_neq (a b : str) : a <> b -> str_eqb a b = false.
Proof.
  intros Hne. destruct (str_eqb a b) eqn:E; [|reflexivity].
  apply str_eqb_eq in E. contradiction.
Qed.

Lemma truthy_nonempty (s : str) : truthy s = true <-> s <> [].
Proof. destruct s; simpl; split; congruence. Qed.

Lemma field_beq_refl (f : field) : field_beq f f = true.
Proof. now destruct f. Qed.

Lemma field_beq_eq (f g : field) : field_beq f g = true -> f = g.
Proof. apply internal_field_dec_bl. Qed.

Lemma field_beq_neq (f g : field) : f <> g -> field_beq f g = false.
Proof.
  intros Hne. destruct (field_beq f g) eqn:E; [|reflexivity].
  apply field_beq_eq in E. contradiction.
Qed.

(** ** The matcher *)

Module ReFacts.

Import Re.

Lemma run_spec (cls : ascii -> bool) (hi : option nat) (s : str) :
  Forall (fun c => cls c = true) (firstn (run cls hi s) s)
  /\ match hi with Some h => run cls hi s <= h | None => True end.
Proof.
  revert hi; induction s as [|c s IH]; intros hi; simpl.
  - split; [constructor|]. destruct hi; [lia|exact I].
  - destruct hi as [[|h]|].
    + simpl. split; [constructor|lia].
    + destruct (cls c) eqn:Hc; simpl.
      * destruct (IH (Some h)) as [Hall Hle]. split; [now constructor|lia].
      * split; [constructor|lia].
    + destruct (cls c) eqn:Hc; simpl.
      * destruct (IH None) as [Hall _]. split; [now constructor|exact I].
      * split; [constructor|exact I].
Qed.

Lemma Forall_firstn_le {A : Type} (P : A -> Prop) (j k : nat) (l : list A) :
  j <= k -> Forall P (firstn k l) -> Forall P (firstn j l).
Proof.
  revert j k; induction l as [|x l IH]; intros j k Hjk H.
  - now rewrite firstn_nil.
  - destruct j as [|j]; [constructor|].
    destruct k as [|k]; [lia|]. simpl in *.
    inversion H; subst. constructor; [assumption|].
    apply (IH j k); [lia|assumption].
Qed.

Lemma give_back_spec lo s cont k r :
  give_back lo s cont k = Some r ->
  exists j, j <= k /\ lo <= j /\ cont (firstn j s) (skipn j s) = Some r.
Proof.
  induction k as [|k IH]; cbn [give_back].
  - destruct (Nat.leb_spec lo 0) as [Hlo|Hlo]; [|discriminate].
    destruct (cont (firstn 0 s) (skipn 0 s)) eqn:Hc; [|discriminate].
    intros H. exists 0. rewrite Hc. auto.
  - destruct (Nat.leb_spec lo (S k)) as [Hlo|Hlo].
    + destruct (cont (firstn (S k) s) (skipn (S k) s)) eqn:Hc.
      * intros H. exists (S k). rewrite Hc. auto.
      * intros H. destruct (IH H) as (j & Hj & Hlj & Hcj). exists j. auto.
    + intros H. destruct (IH H) as (j & Hj & Hlj & Hcj). exists j. auto.
Qed.

(** A successful match splits the text, and every piece is one its atom
    accepts. *)
Lemma match_here_sound (re : pattern) :
  forall prev s pieces rest,
    match_here re prev s = Some (pieces, rest) ->
    List.concat pieces ++ rest = s /\ Forall2 atom_ok re pieces.
Proof.
  induction re as [|a re IH]; intros prev s pieces rest H; simpl in H.
  - injection H as <- <-. split; [reflexivity|constructor].
  - assert (Hcont : forall consumed tail,
               consumed ++ tail = s -> atom_ok a consumed ->
               match match_here re (prev_after prev consumed) tail with
               | Some (caps, out) => Some (consumed :: caps, out)
               | None => None
               end = Some (pieces, rest) ->
               List.concat pieces ++ rest = s /\ Forall2 atom_ok (a :: re) pieces).
    { intros consumed tail Hs Hok Hm.
      destruct (match_here re (prev_after prev consumed) tail)
        as [[caps out]|] eqn:E; [|discriminate].
      injection Hm as <- <-.
      destruct (IH _ _ _ _ E) as [Hcat Hall].
      split; [|now constructor].
      simpl. rewrite <- app_assoc, Hcat. exact Hs. }
    destruct a as [cls lo hi| | |].
    + apply give_back_spec in H as (j & Hj & Hlo & Hc).
      destruct (run_spec cls hi s) as [Hall Hhi].
      assert (Hjs : j <= List.length s \/ List.length s < j) by lia.
      apply (Hcont (firstn j s) (skipn j s)); [apply firstn_skipn| |exact Hc].
      simpl. split; [now apply (Forall_firstn_le _ j (run cls hi s))|].
      assert (Hrun : run cls hi s <= List.length s).
      { clear. revert hi; induction s as [|c s IHs]; intros hi; simpl; [lia|].
        destruct hi as [[|h]|]; [lia| |];
          destruct (cls c); simpl; try lia.
        - specialize (IHs (Some h)). lia.
        - specialize (IHs None). lia. }
      rewrite length_firstn. split; [lia|].
      destruct hi; [lia|exact I].
    + destruct (at_boundary prev s); [|discriminate].
      apply (Hcont [] s); [reflexivity|reflexivity|exact H].
    + destruct (at_begin prev); [|discriminate].
      apply (Hcont [] s); [reflexivity|reflexivity|exact H].
    + destruct (at_end s); [|discriminate].
      apply (Hcont [] s); [reflexivity|reflexivity|exact H].
Qed.

(** A found match splits the searched text. *)
Lemma search_from_sound (re : pattern) :
  forall s prev skipped m,
    search_from re prev skipped s = Some m ->
    before m ++ whole m ++ after m = rev skipped ++ s
    /\ Forall2 atom_ok re (groups m).
Proof.
  induction s as [|c s IH]; intros prev skipped m H; simpl in H.
  - destruct (match_here re prev []) as [[caps rest]|] eqn:E; [|discriminate].
    injection H as <-. unfold whole; simpl.
    destruct (match_here_sound _ _ _ _ _ E) as [Hcat Hall].
    split; [now rewrite Hcat|assumption].
  - destruct (match_here re prev (c :: s)) as [[caps rest]|] eqn:E.
    + injection H as <-. unfold whole; simpl.
      destruct (match_here_sound _ _ _ _ _ E) as [Hcat Hall].
      split; [now rewrite Hcat|assumption].
    + apply IH in H as [Hcat Hall]. split; [|assumption].
      rewrite Hcat. simpl. now rewrite <- app_assoc.
Qed.

Lemma search_sound (re : pattern) (s : str) (m : found) :
  search re s = Some m ->
  before m ++ whole m ++ after m = s /\ Forall2 atom_ok re (groups m).
Proof. intros H. now apply search_from_sound in H. Qed.

(** A substitution only adds what the replacement gives. *)
Lemma sub_from_Forall (P : ascii -> Prop) (re : pattern) (repl : found -> str) :
  (forall m, Forall P (repl m)) ->
  forall fuel prev s, Forall P s -> Forall P (sub_from fuel re repl prev s).
Proof.
  intros Hrepl. induction fuel as [|fuel IH]; intros prev s Hs; simpl;
    [assumption|].
  destruct (search_from re prev [] s) as [m|] eqn:E; [|assumption].
  apply search_from_sound in E as [Hcat _]. simpl in Hcat.
  rewrite <- Hcat in Hs.
  apply Forall_app in Hs as [Hb Hs]. apply Forall_app in Hs as [_ Ha].
  apply Forall_app; split; [assumption|].
  apply Forall_app; split; [apply Hrepl|now apply IH].
Qed.

Lemma sub_Forall (P : ascii -> Prop) (re : pattern) (repl : found -> str) (s : str) :
  (forall m, Forall P (repl m)) -> Forall P s -> Forall P (sub re repl s).
Proof. intros. now apply sub_from_Forall. Qed.

(** The fuel of [scan] and [sub] is never what ends them: a pattern that
    takes at least one character leaves a shorter text after each match. *)
Lemma whole_nonempty (re : pattern) (pieces : list str) :
  consumes re = true -> Forall2 atom_ok re pieces -> List.concat pieces <> [].
Proof.
  intros Hc Hall. induction Hall as [|a piece re pieces Hok _ IH];
    [discriminate|].
  cbn [consumes existsb] in Hc. cbn [List.concat].
  apply orb_true_iff in Hc as [Ha|Hre].
  - destruct a as [cls lo hi| | |]; try discriminate.
    apply Nat.leb_le in Ha. destruct Hok as (_ & Hlo & _).
    destruct piece; [simpl in Hlo; lia|discriminate].
  - intros E. apply app_eq_nil in E as [_ E]. now apply IH.
Qed.

Lemma after_is_shorter (re : pattern) (prev : option ascii) (s : str) (m : found) :
  consumes re = true -> search_from re prev [] s = Some m ->
  List.length (after m) < List.length s.
Proof.
  intros Hc H. apply search_from_sound in H as [Hcat Hall].
  apply (whole_nonempty _ _ Hc) in Hall. simpl in Hcat.
  rewrite <- Hcat, !length_app. unfold whole.
  destruct (List.concat (groups m)); [contradiction|]. simpl. lia.
Qed.

Lemma scan_fuel (re : pattern) :
  consumes re = true ->
  forall fuel fuel' prev s,
    List.length s < fuel -> List.length s < fuel' ->
    scan fuel re prev s = scan fuel' re prev s.
Proof.
  intros Hc. induction fuel as [|fuel IH]; intros fuel' prev s H H'; [lia|].
  destruct fuel' as [|fuel']; [lia|]. cbn [scan].
  destruct (search_from re prev [] s) as [m|] eqn:E; [|reflexivity].
  pose proof (after_is_shorter _ _ _ _ Hc E). f_equal. apply IH; lia.
Qed.

Lemma sub_from_fuel (re : pattern) (repl : found -> str) :
  consumes re = true ->
  forall fuel fuel' prev s,
    List.length s < fuel -> List.length s < fuel' ->
    sub_from fuel re repl prev s = sub_from fuel' re repl prev s.
Proof.
  intros Hc. induction fuel as [|fuel IH]; intros fuel' prev s H H'; [lia|].
  destruct fuel' as [|fuel']; [lia|]. cbn [sub_from].
  destruct (search_from re prev [] s) as [m|] eqn:E; [|reflexivity].
  pose proof (after_is_shorter _ _ _ _ Hc E). do 2 f_equal. apply IH; lia.
Qed.

(** Deleting a one-character class is a filter. *)
Lemma match_here_one (cls : ascii -> bool) (prev : option ascii) (s : str) :
  match_here [one cls] prev s =
  match s with
  | c :: s' => if cls c then Some ([[c]], s') else None
  | [] => None
  end.
Proof.
  destruct s as [|c s]; [reflexivity|].
  simpl. destruct (cls c); simpl; [|reflexivity].
  destruct s; reflexivity.
Qed.

Lemma search_one_none (cls : ascii -> bool) :
  forall s prev skipped,
    search_from [one cls] prev skipped s = None ->
    filter (neg cls) s = s.
Proof.
  induction s as [|c s IH]; intros prev skipped H; [reflexivity|].
  cbn [search_from] in H. rewrite match_here_one in H.
  unfold neg in *. simpl. destruct (cls c); [discriminate|]. simpl.
  f_equal. now apply (IH (Some c) (c :: skipped)).
Qed.

Lemma search_one_some (cls : ascii -> bool) :
  forall s prev skipped m,
    search_from [one cls] prev skipped s = Some m ->
    exists pre c,
      before m = rev skipped ++ pre /\ s = pre ++ c :: after m
      /\ filter (neg cls) pre = pre /\ cls c = true.
Proof.
  induction s as [|c s IH]; intros prev skipped m H.
  - cbn [search_from] in H. rewrite match_here_one in H. discriminate.
  - cbn [search_from] in H. rewrite match_here_one in H.
    destruct (cls c) eqn:Hc.
    + injection H as <-. exists [], c. simpl. now rewrite app_nil_r.
    + apply IH in H as (pre & c' & Hb & Hs & Hpre & Hc').
      exists (c :: pre), c'. simpl in Hb. rewrite <- app_assoc in Hb.
      repeat split; [assumption|now rewrite Hs| |assumption].
      simpl. unfold neg at 1. rewrite Hc. simpl. now f_equal.
Qed.

Lemma sub_from_delete (cls : ascii -> bool) :
  forall fuel prev s,
    List.length s < fuel ->
    sub_from fuel [one cls] (fun _ => []) prev s = filter (neg cls) s.
Proof.
  induction fuel as [|fuel IH]; intros prev s Hlen; [lia|].
  simpl. destruct (search_from [one cls] prev [] s) as [m|] eqn:E.
  - apply search_one_some in E as (pre & c & Hb & Hs & Hpre & Hc).
    simpl in Hb. rewrite Hb.
    assert (Hfuel : List.length (after m) < fuel).
    { rewrite Hs, length_app in Hlen. simpl in Hlen. lia. }
    rewrite (IH _ _ Hfuel). rewrite Hs at 1.
    rewrite filter_app, Hpre. f_equal. cbn [filter].
    assert (Hn : neg cls c = false) by (unfold neg; now rewrite Hc).
    now rewrite Hn.
  - symmetry. now apply search_one_none in E.
Qed.

Lemma sub_delete (cls : ascii -> bool) (s : str) :
  sub [one cls] (fun _ => []) s = filter (neg cls) s.
Proof. apply sub_from_delete. lia. Qed.

End ReFacts.

(** ** cleaner.py: dates *)

(** C1 (the code departs from the spec's examples): what [standardize_date]
    returns on the seven example inputs. The two numeric dates, the
    day/month swap and "17 AGU 1995" give the stated results; on the three
    "MEI" inputs the typo repair turns the month name into "ME1" before the
    month is looked up, so "16 MEI 1990" and "I6 MEI 1990" give 1990-01-16
    and "16 MEI l990" gives nothing, where 1990-05-16 is expected. *)
Theorem standardize_date_on_spec_examples :
  Cleaner.standardize_date (Some (lit "16 MEI 1990")) = Some (lit "1990-01-16")
  /\ Cleaner.standardize_date (Some (lit "17 AGU 1995")) = Some (lit "1995-08-17")
  /\ Cleaner.standardize_date (Some (lit "16-05-1990")) = Some (lit "1990-05-16")
  /\ Cleaner.standardize_date (Some (lit "1990-05-16")) = Some (lit "1990-05-16")
  /\ Cleaner.standardize_date (Some (lit "16 MEI l990")) = None
  /\ Cleaner.standardize_date (Some (lit "I6 MEI 1990")) = Some (lit "1990-01-16")
  /\ Cleaner.standardize_date (Some (lit "1990-13-12")) = Some (lit "1990-12-13").
Proof. vm_compute. repeat split. Qed.

(** The name-cleaning examples of the tests. *)
Theorem validate_and_clean_name_examples :
  Cleaner.validate_and_clean_name (Some (lit "JOHN DOE")) = Some (lit "JOHN DOE")
  /\ Cleaner.validate_and_clean_name (Some (lit "JOHN-DOE")) = Some (lit "JOHN-DOE")
  /\ Cleaner.validate_and_clean_name (Some (lit "JOHN. DOE")) = Some (lit "JOHN DOE")
  /\ Cleaner.validate_and_clean_name (Some (lit "PROVINSI JAWA")) = None
  /\ Cleaner.validate_and_clean_name (Some (lit "AB")) = None
  /\ Cleaner.validate_and_clean_name (Some (lit "12345")) = None.
Proof. vm_compute. repeat split. Qed.

(** The text the month pattern sees for "16 MEI 1990". *)
Lemma mei_is_rewritten_before_lookup :
  replace_all Cleaner.replacements (strip (upper (lit "16 MEI 1990")))
  = lit "16 ME1 1990".
Proof. reflexivity. Qed.

(** ** parsers: NIK, MRZ lines, document type *)

Module ParserFacts.

Import Re ReFacts Parser.

Lemma digits_of_filter (s : str) : digits_of s = filter is_digit s.
Proof.
  unfold digits_of. rewrite sub_delete.
  apply filter_ext. intros c. unfold neg. now rewrite negb_involutive.
Qed.

Lemma digits_of_digits (s : str) :
  Forall (fun c => is_digit c = true) (digits_of s).
Proof.
  rewrite digits_of_filter. apply Forall_forall. intros c Hc.
  now apply filter_In in Hc.
Qed.

Lemma repaired_nik_shape (seq nik : str) :
  repaired_nik seq = Some nik ->
  List.length nik = 16 /\ Forall (fun c => is_digit c = true) nik.
Proof.
  unfold repaired_nik. cbv zeta.
  destruct (Nat.leb_spec 16 (List.length (digits_of (fix_ocr_digits seq))))
    as [Hlen|Hlen]; [|discriminate].
  intros H.
  assert (Hn : firstn 16 (digits_of (fix_ocr_digits seq)) = nik) by congruence.
  clear H. rewrite <- Hn. split.
  - rewrite length_firstn. lia.
  - apply (Forall_firstn_le _ 16 (List.length (digits_of (fix_ocr_digits seq))));
      [assumption|].
    rewrite firstn_all. apply digits_of_digits.
Qed.

Lemma first_repaired_shape (sequences : list str) (nik : str) :
  first_repaired sequences = Some nik ->
  List.length nik = 16 /\ Forall (fun c => is_digit c = true) nik.
Proof.
  induction sequences as [|seq rest IH]; cbn [first_repaired]; [discriminate|].
  destruct (repaired_nik seq) as [n|] eqn:E.
  - intros [= <-]. now apply repaired_nik_shape in E.
  - exact IH.
Qed.

(** C10: whatever [extract_nik] returns is a string of exactly sixteen
    characters, each a decimal digit; longer digit runs are cut to sixteen
    after the digit repair. *)
Theorem extract_nik_is_sixteen_digits (text nik : str) :
  extract_nik text = Some nik ->
  List.length nik = 16 /\ Forall (fun c => is_digit c = true) nik.
Proof.
  unfold extract_nik.
  set (clean_text := sub [plus is_space] (fun _ => lit " ") text).
  destruct (search nik_direct_re clean_text) as [m|] eqn:Hdirect.
  - intros [= <-].
    apply search_sound in Hdirect as [_ Hall].
    unfold nik_direct_re in Hall. unfold group.
    destruct (groups m) as [|g0 [|g1 gs]].
    + inversion Hall.
    + inversion Hall as [|? ? ? ? _ Hrest]. inversion Hrest.
    + inversion Hall as [|? ? ? ? _ Hrest]. subst.
      inversion Hrest as [|? ? ? ? Hg1 _]. subst.
      cbn [nth]. destruct Hg1 as (Hdigits & Hlo & Hhi).
      split; [lia|assumption].
  - destruct (search nik_label_re clean_text) as [m|].
    + destruct (repaired_nik (group m 4)) as [n|] eqn:E.
      * intros [= <-]. now apply repaired_nik_shape in E.
      * apply first_repaired_shape.
    + apply first_repaired_shape.
Qed.

(** The NIK examples of the tests: a clean number, and one with letters
    read for digits; and the digit repairs the tests name. *)
Theorem extract_nik_examples :
  extract_nik (lit "NIK : 3515082506920002") = Some (lit "3515082506920002")
  /\ extract_nik (lit "NIK : 35I5O8250692OOO2") = Some (lit "3515082506920002")
  /\ fix_ocr_digits (lit "O123") = lit "0123"
  /\ fix_ocr_digits (lit "S678") = lit "5678"
  /\ fix_ocr_digits (lit "B000") = lit "8000".
Proof. vm_compute. repeat split. Qed.

(** The noisy example once more, through the general statement. *)
Lemma extract_nik_is_sixteen_digits_witness :
  extract_nik (lit "NIK : 35I5O8250692OOO2") = Some (lit "3515082506920002")
  /\ List.length (lit "3515082506920002") = 16
  /\ Forall (fun c => is_digit c = true) (lit "3515082506920002").
Proof.
  assert (H : extract_nik (lit "NIK : 35I5O8250692OOO2")
              = Some (lit "3515082506920002")) by (vm_compute; reflexivity).
  split; [exact H|].
  exact (extract_nik_is_sixteen_digits _ _ H).
Defined.

Lemma is_mrz_char_chevrons (n : nat) :
  Forall (fun c => is_mrz_char c = true) (repeat chevron n).
Proof. induction n; simpl; constructor; [reflexivity|assumption]. Qed.

(** C8: on the spec's example the look-alike letters between chevrons
    become chevrons and the length is kept; and on every line the result
    only holds capital letters, digits and chevrons. *)
Theorem clean_mrz_line_repairs_chevrons :
  clean_mrz_line (lit "P<IDN<K<C<E<<<") = lit "P<IDN<<<<<<<<<"
  /\ List.length (clean_mrz_line (lit "P<IDN<K<C<E<<<"))
     = List.length (lit "P<IDN<K<C<E<<<")
  /\ forall line : str,
       Forall (fun c => is_mrz_char c = true) (clean_mrz_line line).
Proof.
  split; [vm_compute; reflexivity|].
  split; [vm_compute; reflexivity|].
  intros line. unfold clean_mrz_line.
  destruct (negb (truthy line)); [constructor|].
  apply sub_Forall; [intros m; apply is_mrz_char_chevrons|].
  rewrite sub_delete. apply Forall_forall. intros c Hc.
  apply filter_In in Hc as [_ Hc]. unfold neg in Hc.
  now rewrite negb_involutive in Hc.
Qed.

(** The first test of the visa tier: "VISA" with "SAUDI", "NUMBER" or "NO". *)
Lemma visa_pair_true (t : str) :
  contains (lit "VISA") t = true ->
  contains (lit "SAUDI") t = true \/ contains (lit "NUMBER") t = true
  \/ contains (lit "NO") t = true ->
  contains (lit "VISA") t
  && (contains (lit "SAUDI") t || contains (lit "NUMBER") t
      || contains (lit "NO") t) = true.
Proof.
  intros -> [H|[H|H]]; rewrite H; simpl; rewrite ?orb_true_r; reflexivity.
Qed.

(** C7: a text in which "VISA" comes with "SAUDI", "NUMBER" or "NO" is a
    visa, whatever else it holds. The function is the decision list
    [tiers]: visa keywords, then KTP keywords, then passport keywords, then
    the MRZ prefixes and signature, then the digit patterns; the first
    test that holds decides, and no count of a later tier is compared with
    an earlier one. So, when the visa tier is silent, two KTP keywords give
    "KTP" however many passport keywords or MRZ signatures the text has,
    and when both are silent two passport keywords give "PASSPORT". *)
Theorem visa_keywords_win (text : str) :
  (contains (lit "VISA") (upper text) = true ->
   contains (lit "SAUDI") (upper text) = true
   \/ contains (lit "NUMBER") (upper text) = true
   \/ contains (lit "NO") (upper text) = true ->
   detect_document_type text = "VISA")
  /\ detect_document_type text = first_tier (tiers text)
  /\ (contains (lit "VISA") (upper text)
      && (contains (lit "SAUDI") (upper text)
          || contains (lit "NUMBER") (upper text)
          || contains (lit "NO") (upper text)) = false ->
      hits visa_keywords (upper text) < 2 ->
      (2 <= hits ktp_keywords (upper text) ->
       detect_document_type text = "KTP")
      /\ (hits ktp_keywords (upper text) < 2 ->
          2 <= hits passport_keywords (upper text) ->
          detect_document_type text = "PASSPORT")).
Proof.
  split; [|split].
  - unfold detect_document_type.
    intros Hvisa Hany. now rewrite (visa_pair_true _ Hvisa Hany).
  - unfold detect_document_type, first_tier, tiers. cbv zeta.
    cbn [find fst snd].
    repeat match goal with
           | |- context [if ?b then _ else _] =>
               destruct b; cbn [find fst snd andb orb]; try reflexivity
           end.
  - unfold detect_document_type.
    intros -> Hv. apply Nat.leb_gt in Hv. rewrite Hv. split.
    + intros Hk. apply Nat.leb_le in Hk. now rewrite Hk.
    + intros Hk Hp. apply Nat.leb_gt in Hk. apply Nat.leb_le in Hp.
      now rewrite Hk, Hp.
Qed.

(** A visa text that also carries five KTP keywords and a passport MRZ
    prefix; a text with two KTP keywords against four passport keywords
    and an MRZ prefix; a passport text with an MRZ line and a digit run. *)
Lemma visa_keywords_win_witness :
  detect_document_type
    (lit "Visa No 77 PROVINSI KABUPATEN KECAMATAN KELURAHAN NIK P<IDN") = "VISA"
  /\ detect_document_type
       (lit "NIK provinsi PASSPORT PASPOR IMIGRASI DATE OF ISSUE P<IDN") = "KTP"
  /\ detect_document_type
       (lit "paspor imigrasi V<IDN 1234567890123456") = "PASSPORT".
Proof.
  split; [|split].
  - apply (proj1 (visa_keywords_win _)); [reflexivity|].
    right; right; reflexivity.
  - apply (proj2 (proj2 (visa_keywords_win _))); [reflexivity| |].
    + vm_compute; lia.
    + vm_compute; lia.
  - apply (proj2 (proj2 (visa_keywords_win _))); [reflexivity| | |].
    + vm_compute; lia.
    + vm_compute; lia.
    + vm_compute; lia.
Defined.

End ParserFacts.

(** ** cache.py: eviction order *)

Module CacheFacts.

Import Cache.

Section Order.

Variable A : Type.
Variables a b c d : str.
Variables va vb vc vd : A.
Variables ttl t1 t2 t3 t4 tg : Z.

Hypothesis distinct : NoDup [a; b; c; d].

Lemma distinct_keys :
  str_eqb a b = false /\ str_eqb a c = false /\ str_eqb a d = false
  /\ str_eqb b a = false /\ str_eqb b c = false /\ str_eqb b d = false
  /\ str_eqb c a = false /\ str_eqb c b = false /\ str_eqb c d = false
  /\ str_eqb d a = false /\ str_eqb d b = false /\ str_eqb d c = false.
Proof.
  inversion distinct as [|? ? Ha Hbcd]; subst.
  inversion Hbcd as [|? ? Hb Hcd]; subst.
  inversion Hcd as [|? ? Hc _]; subst.
  simpl in Ha, Hb, Hc.
  repeat split; apply str_eqb_neq; intros ->; tauto.
Qed.

(** Runs the cache operations of the goal, deciding key comparisons from
    the hypotheses and the freshness test from [Hfresh]. *)
Ltac run_cache Hfresh :=
  repeat first
    [ progress (unfold get, put, mem, keys, move_to_end)
    | progress cbn
    | rewrite Hfresh
    | match goal with
      | H : str_eqb ?x ?y = _ |- context [str_eqb ?x ?y] => rewrite H
      end ].

(** C5: a cache of capacity 3 that stored [a], [b], [c] and then [d]
    (four different keys) has lost [a] and holds [b], [c], [d]. When
    instead [a] is looked up before [d] is stored and the lookup is a hit
    (it is one whenever the entry of [a] is younger than the lifetime),
    the hit moves [a] behind [c], so storing [d] drops [b], the least
    recently used entry, and [a] stays. *)
Theorem lru_evicts_least_recently_used :
  exists c1 c2 c3,
    put a va t1 (new 3 ttl) = Some c1
    /\ put b vb t2 c1 = Some c2
    /\ put c vc t3 c2 = Some c3
    /\ (exists c4,
          put d vd t4 c3 = Some c4
          /\ mem a c4 = false /\ mem b c4 = true
          /\ mem c c4 = true /\ mem d c4 = true
          /\ keys c4 = [b; c; d])
    /\ ((tg - t1 < ttl)%Z -> fst (get a tg c3) = Some va)
    /\ (fst (get a tg c3) = Some va ->
        keys (snd (get a tg c3)) = [b; c; a]
        /\ exists c4,
             put d vd t4 (snd (get a tg c3)) = Some c4
             /\ mem b c4 = false /\ mem a c4 = true
             /\ mem c c4 = true /\ mem d c4 = true
             /\ keys c4 = [c; a; d]).
Proof.
  destruct distinct_keys
    as (Hab & Hac & Had & Hba & Hbc & Hbd & Hca & Hcb & Hcd & Hda & Hdb & Hdc).
  assert (Haa := str_eqb_refl a). assert (Hbb := str_eqb_refl b).
  assert (Hcc := str_eqb_refl c). assert (Hdd := str_eqb_refl d).
  eexists; eexists; eexists.
  split; [reflexivity|].
  split; [run_cache Haa; reflexivity|].
  split; [run_cache Haa; reflexivity|].
  split; [|split].
  - eexists. split; [run_cache Haa; reflexivity|].
    run_cache Haa. repeat split.
  - intros Hfresh. apply Z.ltb_lt in Hfresh. run_cache Hfresh. reflexivity.
  - destruct (tg - t1 <? ttl)%Z eqn:Hfresh.
    + intros _. run_cache Hfresh. split; [reflexivity|].
      eexists. split; [run_cache Hfresh; reflexivity|].
      run_cache Hfresh. repeat split.
    + run_cache Hfresh. discriminate.
Qed.

End Order.

(** An entry looked up [ttl] ticks or more after it was stored is a miss
    and is removed by the lookup; before that it is a hit and stays. *)
Theorem expired_entry_is_a_miss
        (A : Type) (k : str) (x : A) (max_size ttl t t' : Z) :
  (1 <= max_size)%Z ->
  exists c,
    put k x t (new max_size ttl) = Some c
    /\ mem k c = true
    /\ ((ttl <= t' - t)%Z ->
        fst (get k t' c) = None
        /\ mem k (snd (get k t' c)) = false
        /\ _misses (snd (get k t' c)) = 1)
    /\ ((t' - t < ttl)%Z ->
        fst (get k t' c) = Some x
        /\ mem k (snd (get k t' c)) = true
        /\ _hits (snd (get k t' c)) = 1).
Proof.
  intros Hsize. unfold put, new. cbn [_cache _max_size evict List.length].
  assert (Hno : (max_size <=? Z.of_nat 0)%Z = false) by (apply Z.leb_gt; lia).
  rewrite Hno. eexists. split; [reflexivity|].
  unfold mem, get; cbn. rewrite ?str_eqb_refl; cbn.
  split; [reflexivity|]. split.
  - intros Hold. apply Z.ltb_ge in Hold. rewrite Hold; cbn.
    rewrite ?str_eqb_refl. repeat split.
  - intros Hfresh. apply Z.ltb_lt in Hfresh. rewrite Hfresh; cbn.
    unfold move_to_end; cbn. rewrite ?str_eqb_refl; cbn.
    rewrite ?str_eqb_refl. repeat split.
Qed.

Lemma expired_entry_is_a_miss_witness :
  exists c,
    put (lit "key") (lit "data") 0%Z (new 3 2) = Some c
    /\ mem (lit "key") c = true
    /\ ((2 <= 3 - 0)%Z ->
        fst (get (lit "key") 3%Z c) = None
        /\ mem (lit "key") (snd (get (lit "key") 3%Z c)) = false
        /\ _misses (snd (get (lit "key") 3%Z c)) = 1)
    /\ ((3 - 0 < 2)%Z ->
        fst (get (lit "key") 3%Z c) = Some (lit "data")
        /\ mem (lit "key") (snd (get (lit "key") 3%Z c)) = true
        /\ _hits (snd (get (lit "key") 3%Z c)) = 1).
Proof.
  apply (expired_entry_is_a_miss str (lit "key") (lit "data") 3%Z 2%Z 0%Z 3%Z).
  lia.
Defined.

(** The scenario of the cache tests: keys a, b, c, d, a lifetime of two
    ticks and a lookup in the same tick. *)
Lemma lru_evicts_least_recently_used_witness :
  exists c1 c2 c3,
    put (lit "a") 1 0%Z (new 3 2) = Some c1
    /\ put (lit "b") 2 0%Z c1 = Some c2
    /\ put (lit "c") 3 0%Z c2 = Some c3
    /\ (exists c4,
          put (lit "d") 4 0%Z c3 = Some c4
          /\ mem (lit "a") c4 = false /\ mem (lit "b") c4 = true
          /\ mem (lit "c") c4 = true /\ mem (lit "d") c4 = true
          /\ keys c4 = [lit "b"; lit "c"; lit "d"])
    /\ fst (get (lit "a") 0%Z c3) = Some 1
    /\ keys (snd (get (lit "a") 0%Z c3)) = [lit "b"; lit "c"; lit "a"]
    /\ exists c4,
         put (lit "d") 4 0%Z (snd (get (lit "a") 0%Z c3)) = Some c4
         /\ mem (lit "b") c4 = false /\ mem (lit "a") c4 = true
         /\ mem (lit "c") c4 = true /\ mem (lit "d") c4 = true
         /\ keys c4 = [lit "c"; lit "a"; lit "d"].
Proof.
  destruct (lru_evicts_least_recently_used nat (lit "a") (lit "b") (lit "c")
              (lit "d") 1 2 3 4 2%Z 0%Z 0%Z 0%Z 0%Z 0%Z)
    as (c1 & c2 & c3 & H1 & H2 & H3 & Hd & Hhit & Hmove).
  - repeat constructor; simpl; intuition discriminate.
  - exists c1, c2, c3.
    assert (Hfound : fst (get (lit "a") 0%Z c3) = Some 1)
      by (apply Hhit; reflexivity).
    repeat (split; [assumption|]). exact (Hmove Hfound).
Defined.

End CacheFacts.

(** ** cleaner.py: merging *)

Module MergeFacts.

Import Cleaner Scenarios.

Lemma store_same (h : heap) (r : ref) (it : Item) : store h r it r = it.
Proof. unfold store. now rewrite Nat.eqb_refl. Qed.

Lemma store_other (h : heap) (r r' : ref) (it : Item) :
  r' <> r -> store h r it r' = h r'.
Proof. intros Hne. unfold store. apply Nat.eqb_neq in Hne. now rewrite Hne. Qed.

Lemma set_field_same (it : Item) (f : field) (v : str) : set_field it f v f = v.
Proof. unfold set_field. now rewrite field_beq_refl. Qed.

Lemma set_field_other (it : Item) (f g : field) (v : str) :
  g <> f -> set_field it f v g = it g.
Proof. intros Hne. unfold set_field. now rewrite (field_beq_neq g f Hne). Qed.

(** Writing a column of one object leaves every other column of every
    object alone. *)
Lemma set_attr_frame (h : heap) (r r' : ref) (f g : field) (v : str) :
  r' <> r \/ g <> f -> set_attr h r f v r' g = h r' g.
Proof.
  intros Hne. unfold set_attr.
  destruct (Nat.eq_dec r' r) as [->|Hr].
  - rewrite store_same. destruct Hne as [Hne|Hne]; [contradiction|].
    now apply set_field_other.
  - now rewrite store_other.
Qed.

Lemma merge_name_frame (h : heap) (existing new_item r : ref) (f : field) :
  f <> nama -> merge_name h existing new_item r f = h r f.
Proof.
  intros Hf. unfold merge_name.
  repeat match goal with
         | |- context [if ?b then _ else _] => destruct b
         end; try reflexivity; apply set_attr_frame; now right.
Qed.

(** One step of the filling loop keeps a column that is already set. *)
Lemma fill_step_frame (new_dict : Item) (existing : ref) (g : field)
      (h : heap) (r : ref) (f : field) :
  truthy (h r f) = true ->
  (if negb (truthy (h existing g)) && truthy (new_dict g)
   then set_attr h existing g (new_dict g) else h) r f = h r f.
Proof.
  intros Hset.
  destruct (negb (truthy (h existing g)) && truthy (new_dict g)) eqn:Hcond;
    [|reflexivity].
  apply set_attr_frame.
  destruct (Nat.eq_dec r existing) as [->|Hr]; [|now left].
  right. intros ->. rewrite Hset in Hcond. discriminate.
Qed.

Lemma fill_fold_frame (new_dict : Item) (existing : ref) (r : ref) (f : field) :
  forall (fs : list field) (h : heap),
    truthy (h r f) = true ->
    fold_left
      (fun h g =>
         if negb (truthy (h existing g)) && truthy (new_dict g)
         then set_attr h existing g (new_dict g) else h) fs h r f
    = h r f.
Proof.
  induction fs as [|g fs IH]; intros h Hset; [reflexivity|].
  cbn [fold_left].
  rewrite IH; [now apply fill_step_frame|].
  now rewrite fill_step_frame.
Qed.

Lemma all_fields_NoDup : NoDup all_fields.
Proof.
  unfold all_fields.
  repeat (constructor; [simpl; intuition discriminate|]). constructor.
Qed.

Lemma all_fields_complete (f : field) : In f all_fields.
Proof. destruct f; simpl; tauto. Qed.

Lemma fill_step_other (new_dict : Item) (existing : ref) (g f : field)
      (h : heap) :
  g <> f ->
  (if negb (truthy (h existing g)) && truthy (new_dict g)
   then set_attr h existing g (new_dict g) else h) existing f = h existing f.
Proof.
  intros Hne.
  destruct (negb (truthy (h existing g)) && truthy (new_dict g));
    [|reflexivity].
  apply set_attr_frame. right. congruence.
Qed.

Lemma fill_fold_other (new_dict : Item) (existing : ref) (f : field) :
  forall (fs : list field) (h : heap),
    ~ In f fs ->
    fold_left
      (fun h g =>
         if negb (truthy (h existing g)) && truthy (new_dict g)
         then set_attr h existing g (new_dict g) else h) fs h existing f
    = h existing f.
Proof.
  induction fs as [|g fs IH]; intros h Hout; [reflexivity|].
  cbn [fold_left]. rewrite IH; [|intros Hin; apply Hout; now right].
  apply fill_step_other. intros ->. apply Hout. now left.
Qed.

(** The filling loop decides each column once: a column of the existing
    record that is set stays, an empty one takes the new item's value. *)
Lemma fill_fold_at (new_dict : Item) (existing : ref) (f : field) :
  forall (fs : list field) (h : heap),
    NoDup fs -> In f fs ->
    fold_left
      (fun h g =>
         if negb (truthy (h existing g)) && truthy (new_dict g)
         then set_attr h existing g (new_dict g) else h) fs h existing f
    = if truthy (h existing f) then h existing f else new_dict f.
Proof.
  induction fs as [|g fs IH]; intros h Hnodup Hin; [contradiction|].
  inversion Hnodup as [|? ? Hnotin Hrest]; subst.
  cbn [fold_left].
  destruct (field_eq_dec g f) as [->|Hne].
  - rewrite (fill_fold_other _ _ _ _ _ Hnotin).
    destruct (truthy (h existing f)) eqn:Hset; cbn [negb andb];
      [reflexivity|].
    destruct (truthy (new_dict f)) eqn:Hnew.
    + unfold set_attr. now rewrite store_same, set_field_same.
    + destruct (h existing f), (new_dict f); try discriminate. reflexivity.
  - destruct Hin as [Heq|Hin]; [contradiction|].
    rewrite (IH _ Hrest Hin). now rewrite (fill_step_other _ _ _ _ _ Hne).
Qed.

(** First non-empty wins, column by column. *)
Lemma merge_into_column (h : heap) (existing new_item : ref) (f : field) :
  f <> nama ->
  merge_into h existing new_item existing f
  = if truthy (h existing f) then h existing f else h new_item f.
Proof.
  intros Hf. unfold merge_into, fill_missing.
  rewrite fill_fold_at;
    [|apply all_fields_NoDup|apply all_fields_complete].
  now rewrite !merge_name_frame.
Qed.

Lemma merge_into_frame (h : heap) (existing new_item r : ref) (f : field) :
  f <> nama -> truthy (h r f) = true ->
  merge_into h existing new_item r f = h r f.
Proof.
  intros Hf Hset. unfold merge_into, fill_missing.
  rewrite fill_fold_frame; [now apply merge_name_frame|].
  now rewrite merge_name_frame.
Qed.

Section Loop.

Variable ratio_above : str -> str -> bool.

Lemma merge_loop_frame (r : ref) (f : field) :
  f <> nama ->
  forall (data_list consolidated : list ref) (h : heap),
    truthy (h r f) = true ->
    fst (merge_loop ratio_above h consolidated data_list) r f = h r f.
Proof.
  intros Hf. induction data_list as [|new_item rest IH];
    intros consolidated h Hset; [reflexivity|].
  cbn [merge_loop].
  destruct (find _ consolidated) as [existing|].
  - rewrite IH; [now apply merge_into_frame|].
    now rewrite merge_into_frame.
  - now apply IH.
Qed.

(** C6: merging a new item into a matched record changes no column other
    than the name that the record already has: each such column keeps its
    value when it is set and takes the new item's value when it is empty.
    Set columns are kept by one merge and by the whole loop, on every
    object of the heap. The two records of the spec's example merge into
    one record with the longer name, the identity number of the first and
    the address of the second. *)
Theorem merge_fills_only_empty_fields :
  (forall (h : heap) (existing new_item r : ref) (f : field),
      f <> nama -> h r f <> [] ->
      merge_into h existing new_item r f = h r f)
  /\ (forall (h : heap) (existing new_item : ref) (f : field),
        f <> nama ->
        merge_into h existing new_item existing f
        = if truthy (h existing f) then h existing f else h new_item f)
  /\ (forall (h : heap) (consolidated data_list : list ref) (r : ref) (f : field),
        f <> nama -> h r f <> [] ->
        fst (merge_loop ratio_above h consolidated data_list) r f = h r f)
  /\ (let out := fuzzy_merge_data ratio_above ahmad [0; 1] in
      snd out = [0]
      /\ fst out 0 nama = lit "AHMAD DAHLANN"
      /\ fst out 0 no_identitas = lit "123"
      /\ fst out 0 alamat = lit "Jl. Sudirman").
Proof.
  split; [|split; [|split]].
  - intros h existing new_item r f Hf Hset.
    apply merge_into_frame; [assumption|now apply truthy_nonempty].
  - intros h existing new_item f Hf. now apply merge_into_column.
  - intros h consolidated data_list r f Hf Hset.
    apply merge_loop_frame; [assumption|now apply truthy_nonempty].
  - vm_compute. repeat split.
Qed.

End Loop.

Lemma merge_fills_only_empty_fields_witness :
  merge_into siti 0 1 0 no_paspor = lit "A1234567"
  /\ fst (merge_loop (fun _ _ => false) siti [] [0; 1]) 0 kota_paspor
     = lit "JAKARTA"
  /\ fst (merge_loop (fun _ _ => false) siti [] [0; 1]) 0 no_telepon
     = lit "0812".
Proof.
  split; [|split].
  - apply (proj1 (merge_fills_only_empty_fields (fun _ _ => false)));
      [discriminate|vm_compute; discriminate].
  - apply (proj1 (proj2 (proj2
             (merge_fills_only_empty_fields (fun _ _ => false)))));
      [discriminate|vm_compute; discriminate].
  - vm_compute. reflexivity.
Defined.

End MergeFacts.

(** ** cleaner.py: the consistency pass *)

Module ConsolidateFacts.

Import Cleaner Scenarios MergeFacts.

(** The three ways the body of the pass can go. *)
Lemma consolidate_cases (it : Item) :
  (is_passport_type it = true /\ truthy (it no_paspor) = true
   /\ consolidate it = set_field it no_identitas (it no_paspor))
  \/ (is_passport_type it = false /\ truthy (it no_paspor) = true
      /\ truthy (it no_identitas) = false
      /\ consolidate it
         = set_field (set_field it no_identitas (it no_paspor))
                     jenis_identitas (lit "Paspor"))
  \/ (consolidate it = it
      /\ (is_passport_type it = true -> truthy (it no_paspor) = false)
      /\ (is_passport_type it = false -> truthy (it no_paspor) = true ->
          truthy (it no_identitas) = true)).
Proof.
  unfold consolidate.
  destruct (is_passport_type it) eqn:Htype.
  - destruct (truthy (it no_paspor)) eqn:Hp.
    + left. auto.
    + right; right. repeat split; congruence.
  - destruct (truthy (it no_paspor)) eqn:Hp;
      destruct (truthy (it no_identitas)) eqn:Hi; simpl.
    + right; right. repeat split; congruence.
    + right; left. auto.
    + right; right. repeat split; congruence.
    + right; right. repeat split; congruence.
Qed.

(** After the body of the pass an item of passport type with a passport
    number has that number as identity number. *)
Lemma consolidate_consistent (it : Item) :
  is_passport_type (consolidate it) = true ->
  truthy (consolidate it no_paspor) = true ->
  consolidate it no_identitas = consolidate it no_paspor.
Proof.
  destruct (consolidate_cases it)
    as [(Ht & Hp & ->)|[(Ht & Hp & Hi & ->)|(-> & Hpass & _)]].
  - intros _ _. reflexivity.
  - intros _ _. reflexivity.
  - intros Ht Hp. rewrite (Hpass Ht) in Hp. discriminate.
Qed.

(** Running the body twice is running it once. *)
Lemma consolidate_idempotent (it : Item) (f : field) :
  consolidate (consolidate it) f = consolidate it f.
Proof.
  destruct (consolidate_cases it)
    as [(Ht & Hp & E)|[(Ht & Hp & Hi & E)|(E & _)]].
  - rewrite E. unfold consolidate.
    change (is_passport_type (set_field it no_identitas (it no_paspor)))
      with (is_passport_type it).
    rewrite Ht.
    change (set_field it no_identitas (it no_paspor) no_paspor)
      with (it no_paspor).
    rewrite Hp. destruct f; reflexivity.
  - rewrite E. unfold consolidate.
    change (is_passport_type
              (set_field (set_field it no_identitas (it no_paspor))
                         jenis_identitas (lit "Paspor")))
      with true.
    change (set_field (set_field it no_identitas (it no_paspor))
                      jenis_identitas (lit "Paspor") no_paspor)
      with (it no_paspor).
    rewrite Hp. destruct f; reflexivity.
  - now rewrite !E.
Qed.

Lemma post_merge_outside (r : ref) :
  forall (consolidated : list ref) (h : heap),
    ~ In r consolidated -> post_merge h consolidated r = h r.
Proof.
  induction consolidated as [|r0 rest IH]; intros h Hout; [reflexivity|].
  unfold post_merge in *. cbn [fold_left].
  rewrite IH; [|intros Hin; apply Hout; now right].
  apply store_other. intros ->. apply Hout. now left.
Qed.

(** The pass leaves on every listed object what its body computes from
    the object's state before the pass, also when an object is listed more
    than once. *)
Lemma post_merge_inside (r : ref) (f : field) :
  forall (consolidated : list ref) (h : heap),
    In r consolidated -> post_merge h consolidated r f = consolidate (h r) f.
Proof.
  induction consolidated as [|r0 rest IH]; intros h Hin; [contradiction|].
  change (post_merge h (r0 :: rest))
    with (post_merge (store h r0 (consolidate (h r0))) rest).
  destruct (in_dec Nat.eq_dec r rest) as [Hrest|Hrest].
  - rewrite (IH _ Hrest).
    destruct (Nat.eq_dec r r0) as [->|Hne].
    + rewrite store_same. apply consolidate_idempotent.
    + now rewrite store_other.
  - rewrite (post_merge_outside r rest _ Hrest).
    destruct Hin as [<-|Hin]; [|contradiction].
    now rewrite store_same.
Qed.

Lemma consolidate_pass_ext (it it' : Item) :
  (forall f, it' f = it f) ->
  is_passport_type it' = is_passport_type it.
Proof. intros E. unfold is_passport_type. now rewrite E. Qed.

Section Output.

Variable ratio_above : str -> str -> bool.

(** C3: in the output of [fuzzy_merge_data], a record whose identity type
    is Paspor, Passport or Visa (in any case) and whose passport number is
    set has the passport number as identity number; and a record that
    left the merge loop with a passport number, no identity number and any
    other identity type has the passport number as identity number and the
    identity type "Paspor". *)
Theorem fuzzy_merge_consolidates (h : heap) (data_list : list ref) (r : ref) :
  let merged := fst (merge_loop ratio_above h [] data_list) in
  let out := fst (fuzzy_merge_data ratio_above h data_list) in
  In r (snd (fuzzy_merge_data ratio_above h data_list)) ->
  (is_passport_type (out r) = true -> out r no_paspor <> [] ->
   out r no_identitas = out r no_paspor)
  /\ (is_passport_type (merged r) = false -> merged r no_paspor <> [] ->
      merged r no_identitas = [] ->
      out r no_identitas = merged r no_paspor
      /\ out r jenis_identitas = lit "Paspor").
Proof.
  intros merged out Hin. unfold fuzzy_merge_data in *. cbn [fst snd] in *.
  subst out. fold merged.
  assert (Hout : forall f, post_merge merged
                             (snd (merge_loop ratio_above h [] data_list)) r f
                           = consolidate (merged r) f)
    by (intros f; now apply post_merge_inside).
  split.
  - intros Htype Hp. rewrite !Hout.
    rewrite (consolidate_pass_ext _ _ Hout) in Htype.
    rewrite Hout in Hp. apply truthy_nonempty in Hp.
    now apply consolidate_consistent.
  - intros Htype Hp Hi. rewrite !Hout.
    apply truthy_nonempty in Hp.
    destruct (consolidate_cases (merged r))
      as [(Ht & _)|[(_ & _ & _ & ->)|(_ & _ & Hkeep)]].
    + congruence.
    + split; reflexivity.
    + specialize (Hkeep Htype Hp). rewrite Hi in Hkeep. discriminate.
Qed.

End Output.

Lemma fuzzy_merge_consolidates_witness :
  let out := Cleaner.fuzzy_merge_data (fun _ _ => false) pilgrims [0; 1; 2] in
  snd out = [0; 2]
  /\ fst out 0 no_identitas = fst out 0 no_paspor
  /\ fst out 2 no_identitas
     = fst (Cleaner.merge_loop (fun _ _ => false) pilgrims [] [0; 1; 2])
           2 no_paspor
  /\ fst out 2 jenis_identitas = lit "Paspor".
Proof.
  cbv zeta. split; [vm_compute; reflexivity|].
  assert (In0 : In 0 (snd (Cleaner.fuzzy_merge_data (fun _ _ => false)
                             pilgrims [0; 1; 2])))
    by (vm_compute; left; reflexivity).
  assert (In2 : In 2 (snd (Cleaner.fuzzy_merge_data (fun _ _ => false)
                             pilgrims [0; 1; 2])))
    by (vm_compute; right; left; reflexivity).
  pose proof (fuzzy_merge_consolidates _ _ _ _ In0) as H0.
  pose proof (fuzzy_merge_consolidates _ _ _ _ In2) as H2.
  cbv zeta in H0, H2. destruct H0 as [H0 _]. destruct H2 as [_ H2].
  split.
  - apply H0.
    + vm_compute; reflexivity.
    + vm_compute; discriminate.
  - apply H2.
    + vm_compute; reflexivity.
    + vm_compute; discriminate.
    + vm_compute; reflexivity.
Defined.

End ConsolidateFacts.

(** ** validators.py *)

Module ValidatorFacts.

Import Re ReFacts Validators Scenarios.

(** *** Substrings *)

Lemma starts_with_length (n s : str) :
  starts_with n s = true -> List.length n <= List.length s.
Proof.
  revert s; induction n as [|x n IH]; intros [|y s] H; simpl in *;
    try lia; try discriminate.
  apply andb_true_iff in H as [_ H]. apply IH in H. lia.
Qed.

Lemma contains_length (n s : str) :
  contains n s = true -> List.length n <= List.length s.
Proof.
  induction s as [|y s IH]; simpl; intros H.
  - rewrite orb_false_r in H. now apply starts_with_length in H.
  - apply orb_true_iff in H as [H|H].
    + now apply starts_with_length in H.
    + apply IH in H. lia.
Qed.

(** A needle that does not end in [c] is not found by adding [c] at the
    end. *)
Lemma starts_with_snoc (n s : str) (c : ascii) :
  n <> [] -> last n c <> c ->
  starts_with n (s ++ [c]) = starts_with n s.
Proof.
  revert s; induction n as [|x n IH]; intros s Hn Hlast; [contradiction|].
  destruct s as [|y s]; simpl.
  - destruct n as [|x' n].
    + simpl in Hlast. destruct (Ascii.eqb_spec x c); [contradiction|reflexivity].
    + apply andb_false_r.
  - destruct n as [|x' n]; [reflexivity|].
    f_equal. apply IH; [discriminate|exact Hlast].
Qed.

Lemma contains_snoc (n s : str) (c : ascii) :
  n <> [] -> last n c <> c ->
  contains n (s ++ [c]) = contains n s.
Proof.
  intros Hn Hlast. induction s as [|y s IH].
  - pose proof (starts_with_snoc n [] c Hn Hlast) as E.
    cbn [app] in *. cbn [contains]. rewrite E.
    now destruct (starts_with n []).
  - pose proof (starts_with_snoc n (y :: s) c Hn Hlast) as E.
    cbn [app] in *. cbn [contains]. now rewrite IH, E.
Qed.

(** A needle that does not begin with [c] is not found at a leading [c]. *)
Lemma contains_cons (x : ascii) (n s : str) (c : ascii) :
  x <> c -> contains (x :: n) (c :: s) = contains (x :: n) s.
Proof.
  intros Hne. cbn [contains starts_with].
  destruct (Ascii.eqb_spec x c); [contradiction|reflexivity].
Qed.

Lemma contains_lstrip (x : ascii) (n s : str) :
  is_space x = false ->
  contains (x :: n) (lstrip s) = contains (x :: n) s.
Proof.
  intros Hx. unfold lstrip. induction s as [|c s IH]; [reflexivity|].
  cbn [drop_while]. destruct (is_space c) eqn:Hc; [|reflexivity].
  rewrite IH. symmetry. apply contains_cons. intros ->. congruence.
Qed.

Lemma rstrip_snoc (s : str) (c : ascii) :
  rstrip (s ++ [c]) = if is_space c then rstrip s else s ++ [c].
Proof.
  unfold rstrip. rewrite rev_app_distr. cbn [rev app drop_while].
  destruct (is_space c); [reflexivity|].
  cbn [rev]. now rewrite rev_involutive.
Qed.

Lemma contains_rstrip (n s : str) :
  n <> [] -> (forall c, is_space c = true -> last n c <> c) ->
  contains n (rstrip s) = contains n s.
Proof.
  intros Hn Hlast. induction s as [|c s IH] using rev_ind; [reflexivity|].
  rewrite rstrip_snoc. destruct (is_space c) eqn:Hc; [|reflexivity].
  rewrite IH. symmetry. apply contains_snoc; [assumption|now apply Hlast].
Qed.

(** Stripping a text keeps every occurrence of a needle that neither
    begins nor ends with white space. *)
Lemma contains_strip (x : ascii) (n s : str) :
  is_space x = false ->
  (forall c, is_space c = true -> last (x :: n) c <> c) ->
  contains (x :: n) (strip s) = contains (x :: n) s.
Proof.
  intros Hx Hlast. unfold strip.
  rewrite contains_rstrip; [now apply contains_lstrip|discriminate|assumption].
Qed.

(** *** The rows *)

Lemma sixteen_digit_last (c : ascii) :
  is_space c = true -> last sixteen_digit c <> c.
Proof.
  intros Hc Heq. unfold sixteen_digit in Heq. cbn in Heq. subst c.
  discriminate Hc.
Qed.

(** A visa number short enough to be warned about cannot hold the text,
    so its quotation in the warning does not either. *)
Lemma visa_warning_silent (visa msg : str) :
  validate_visa_number visa = Some msg -> contains sixteen_digit msg = false.
Proof.
  unfold validate_visa_number.
  destruct (negb (truthy visa)); [discriminate|].
  destruct (Nat.ltb_spec (List.length (strip visa)) 8) as [Hshort|_];
    [|discriminate].
  intros H.
  assert (E : msg = lit "No Visa terlalu pendek: " ++ quote ++ visa ++ quote)
    by congruence.
  rewrite E. clear H E.
  change (contains sixteen_digit
            (lit "No Visa terlalu pendek: " ++ quote ++ visa ++ quote))
    with (contains sixteen_digit (visa ++ quote)).
  unfold quote. rewrite contains_snoc; [|discriminate|discriminate].
  destruct (contains sixteen_digit visa) eqn:E; [|reflexivity].
  rewrite <- (contains_strip "1" (lit "6 digit")) in E;
    [|reflexivity|apply sixteen_digit_last].
  apply contains_length in E. simpl in E. lia.
Qed.

Lemma passport_warning_echo (passport msg : str) :
  validate_passport_number passport = Some msg ->
  contains sixteen_digit msg = contains sixteen_digit passport.
Proof.
  unfold validate_passport_number.
  destruct (negb (truthy passport)); [discriminate|].
  destruct (match_start passport_re (upper (strip passport))); [discriminate|].
  intros H.
  assert (E : msg = lit "No Paspor format tidak valid: " ++ quote
                    ++ passport ++ quote) by congruence.
  rewrite E. clear H E.
  change (contains sixteen_digit
            (lit "No Paspor format tidak valid: " ++ quote ++ passport ++ quote))
    with (contains sixteen_digit (passport ++ quote)).
  unfold quote. apply contains_snoc; discriminate.
Qed.

Lemma validate_nik_digits (nik : str) (n : nat) :
  List.length (filter is_digit nik) = n -> n <> 0 -> n <> 16 ->
  validate_nik nik
  = Some (lit "NIK harus 16 digit (ditemukan "
            ++ str_of_int (N.of_nat n) ++ lit " digit)").
Proof.
  intros Hlen Hpos Hn. unfold validate_nik.
  destruct nik as [|c nik]; [simpl in Hlen; congruence|].
  cbn [truthy negb]. rewrite sub_delete.
  replace (filter (neg (neg is_digit)) (c :: nik))
    with (filter is_digit (c :: nik))
    by (apply filter_ext; intros a; unfold neg; now rewrite negb_involutive).
  rewrite Hlen. apply Nat.eqb_neq in Hn. now rewrite Hn.
Qed.

Lemma filter_none {A : Type} (p : A -> bool) (l : list A) :
  Forall (fun x => p x = false) l -> filter p l = [].
Proof.
  induction 1 as [|x l Hx _ IH]; [reflexivity|].
  cbn [filter]. now rewrite Hx.
Qed.

Section Rows.

Variable strptime : str -> string -> bool.
Variable row : Item.

Lemma date_warnings_quiet (fl : field * string) :
  In fl date_fields ->
  Forall (fun w => names_identity w = false /\ says_sixteen_digit w = false)
         (warn (fst fl) (validate_date strptime (row (fst fl)) (snd fl))).
Proof.
  intros Hin. unfold validate_date.
  destruct (negb (truthy (row (fst fl)))); [constructor|].
  destruct (existsb _ date_formats); [constructor|].
  cbn in Hin.
  repeat (destruct Hin as [<-|Hin];
          [repeat constructor|]); contradiction.
Qed.

Lemma later_warnings_name_other_columns :
  Forall (fun w => names_identity w = false) (later_warnings strptime row).
Proof.
  unfold later_warnings.
  apply Forall_app; split; [|apply Forall_app; split;
                              [|apply Forall_app; split;
                                 [|apply Forall_app; split]]].
  - destruct (validate_passport_number (row no_paspor)) as [m|]; cbn;
      [destruct (truthy m)|]; repeat constructor.
  - destruct (validate_visa_number (row no_visa)) as [m|]; cbn;
      [destruct (truthy m)|]; repeat constructor.
  - apply Forall_flat_map. apply Forall_forall. intros fl Hin.
    eapply Forall_impl; [|now apply date_warnings_quiet]. now intros w [H _].
  - destruct (validate_kewarganegaraan (row kewarganegaraan)) as [m|]; cbn;
      [destruct (truthy m)|]; repeat constructor.
  - destruct (negb (truthy (strip (row nama)))); repeat constructor.
Qed.

Lemma later_warnings_without_text :
  contains sixteen_digit (row no_paspor) = false ->
  Forall (fun w => says_sixteen_digit w = false) (later_warnings strptime row).
Proof.
  intros Hpass. unfold later_warnings.
  apply Forall_app; split; [|apply Forall_app; split;
                              [|apply Forall_app; split;
                                 [|apply Forall_app; split]]].
  - destruct (validate_passport_number (row no_paspor)) as [m|] eqn:E;
      [|constructor].
    unfold warn. destruct (truthy m); [|constructor].
    constructor; [|constructor].
    unfold says_sixteen_digit. cbn [message].
    now rewrite (passport_warning_echo _ _ E).
  - destruct (validate_visa_number (row no_visa)) as [m|] eqn:E;
      [|constructor].
    unfold warn. destruct (truthy m); [|constructor].
    constructor; [|constructor].
    unfold says_sixteen_digit. cbn [message].
    now apply (visa_warning_silent _ _ E).
  - apply Forall_flat_map. apply Forall_forall. intros fl Hin.
    eapply Forall_impl; [|now apply date_warnings_quiet]. now intros w [_ H].
  - unfold validate_kewarganegaraan.
    destruct (negb (truthy (row kewarganegaraan))); [constructor|].
    destruct (negb (existsb _ _)); repeat constructor.
  - destruct (negb (truthy (strip (row nama)))); repeat constructor.
Qed.

Lemma validate_row_short_nik :
  upper (row jenis_identitas) = lit "KTP" ->
  List.length (filter is_digit (row no_identitas)) = 15 ->
  validate_row strptime row = nik_warning :: later_warnings strptime row.
Proof.
  intros Hktp Hdigits. unfold validate_row. rewrite Hktp.
  rewrite (validate_nik_digits _ 15 Hdigits); [reflexivity|lia|lia].
Qed.

End Rows.

(** C9, as stated, fails: the passport-format warning quotes the passport
    number, so on [echo_row] two warnings hold the text "16 digit". *)
Lemma two_warnings_say_sixteen_digit :
  filter says_sixteen_digit (validate_row (fun _ _ => true) echo_row)
  = [ nik_warning;
      mk_warning (key no_paspor)
                 (lit "No Paspor format tidak valid: '16 digit'") ].
Proof. vm_compute. reflexivity. Qed.

(** C9, amended: on a row of identity type KTP whose identity number has
    exactly fifteen digits, [validate_row] gives exactly one warning for
    the identity-number column, the first of the list, and it says
    "NIK harus 16 digit (ditemukan 15 digit)"; it is the only warning that
    holds "16 digit" when the passport number does not hold that text
    itself. On every row whose name is empty or blank the list ends with
    the warning for the name column. The validator is a total function to
    a list of warnings. *)
Theorem validate_row_warns (strptime : str -> string -> bool) (row : Item) :
  (upper (row jenis_identitas) = lit "KTP" ->
   List.length (filter is_digit (row no_identitas)) = 15 ->
   filter names_identity (validate_row strptime row) = [nik_warning]
   /\ says_sixteen_digit nik_warning = true
   /\ hd_error (validate_row strptime row) = Some nik_warning
   /\ (contains sixteen_digit (row no_paspor) = false ->
       filter says_sixteen_digit (validate_row strptime row) = [nik_warning]))
  /\ (strip (row nama) = [] ->
      In nama_warning (validate_row strptime row)
      /\ last (validate_row strptime row) nik_warning = nama_warning).
Proof.
  split.
  - intros Hktp Hdigits.
    rewrite (validate_row_short_nik _ _ Hktp Hdigits).
    split; [|split; [reflexivity|split; [reflexivity|]]].
    + cbn [filter]. change (names_identity nik_warning) with true. cbn iota.
      f_equal. apply filter_none. apply later_warnings_name_other_columns.
    + intros Hpass. cbn [filter].
      change (says_sixteen_digit nik_warning) with true. cbn iota.
      f_equal. apply filter_none. now apply later_warnings_without_text.
  - intros Hblank. unfold validate_row. rewrite Hblank. cbn [truthy negb].
    split.
    + repeat (apply in_or_app; right). now left.
    + rewrite !app_assoc. apply last_last.
Qed.

Lemma validate_row_warns_witness :
  filter names_identity (validate_row (fun _ _ => false) short_nik_row)
  = [nik_warning]
  /\ filter says_sixteen_digit (validate_row (fun _ _ => false) short_nik_row)
     = [nik_warning]
  /\ In nama_warning (validate_row (fun _ _ => false) short_nik_row).
Proof.
  pose proof (validate_row_warns (fun _ _ => false) short_nik_row) as [Hnik Hname].
  destruct Hnik as (Hone & _ & _ & Htext); [reflexivity|reflexivity|].
  destruct Hname as [Hin _]; [reflexivity|].
  split; [exact Hone|]. split; [|exact Hin].
  apply Htext. reflexivity.
Defined.

End ValidatorFacts.

(** ** document_processor.py: the dispatcher *)

Module DispatchFacts.

Import Processor Scenarios.

(** C4, as stated, fails: an engine that answers on the first attempt is
    called once, not [MAX_RETRIES + 1] = 3 times. *)
Lemma first_answer_ends_the_attempts :
  trace (snd (_process_single_image "gemini" true always_answers start))
  = [Call gemini]
  /\ calls (snd (_process_single_image "gemini" true always_answers start)) = 1
  /\ MAX_RETRIES + 1 = 3.
Proof. vm_compute. repeat split. Qed.

(** C4, amended: the primary strategy is attempted until it answers, at
    most [MAX_RETRIES + 1] = 3 times, sleeping [RETRY_DELAY_SECONDS * attempt]
    between consecutive attempts; an answer is returned as it is. When all
    [MAX_RETRIES + 1] attempts raise, the vision model is called exactly
    once if the fallback is enabled and [OCR_ENGINE] is not "gemini", and
    its answer is returned (a primary strategy other than the vision model
    implies such an [OCR_ENGINE]); when that call raises too, or there is
    no fallback, the result is the error dictionary, which carries the
    text of the last error and the partial marker. The function returns a
    dictionary in every case. *)
Theorem dispatcher_retries_then_falls_back
        (OCR_ENGINE : string) (OCR_FALLBACK_ENABLED : bool)
        (engine_call : engine -> nat -> attempt_result) :
  let fn := primary_fn OCR_ENGINE in
  let out :=
    _process_single_image OCR_ENGINE OCR_FALLBACK_ENABLED engine_call start in
  (forall (k : nat) (result : doc_data),
      k <= MAX_RETRIES ->
      (forall n, n < k -> raises (engine_call fn n)) ->
      engine_call fn k = Returned result ->
      fst out = result /\ trace (snd out) = retry_trace fn 1 (S k))
  /\ ((forall n, n <= MAX_RETRIES -> raises (engine_call fn n)) ->
      if OCR_FALLBACK_ENABLED && negb (String.eqb OCR_ENGINE "gemini") then
        trace (snd out) = retry_trace fn 1 (MAX_RETRIES + 1) ++ [Call gemini]
        /\ match engine_call gemini (MAX_RETRIES + 1) with
           | Returned result => fst out = result
           | Raised e => fst out = error_result (Some e)
           end
      else
        trace (snd out) = retry_trace fn 1 (MAX_RETRIES + 1)
        /\ exists e, engine_call fn MAX_RETRIES = Raised e
                     /\ fst out = error_result (Some e))
  /\ (forall last_error,
        _partial (error_result last_error) = true
        /\ _error (error_result last_error) = Some (str_of_error last_error))
  /\ (fn <> gemini -> String.eqb OCR_ENGINE "gemini" = false).
Proof.
  intros fn out. unfold MAX_RETRIES. split; [|split; [|split]].
  - intros k result Hk Hfail Hok.
    assert (Hcases : k = 0 \/ k = 1 \/ k = 2) by lia.
    destruct Hcases as [ -> | [ -> | -> ] ].
    + subst out. unfold _process_single_image, bind, call, ret; cbn.
      fold fn. rewrite Hok. split; reflexivity.
    + destruct (Hfail 0) as [e0 H0]; [lia|].
      subst out. unfold _process_single_image, bind, call, ret, sleep; cbn.
      fold fn. rewrite H0; cbn. rewrite Hok. split; reflexivity.
    + destruct (Hfail 0) as [e0 H0]; [lia|].
      destruct (Hfail 1) as [e1 H1]; [lia|].
      subst out. unfold _process_single_image, bind, call, ret, sleep; cbn.
      fold fn. rewrite H0; cbn. rewrite H1; cbn. rewrite Hok.
      split; reflexivity.
  - intros Hfail.
    destruct (Hfail 0) as [e0 H0]; [lia|].
    destruct (Hfail 1) as [e1 H1]; [lia|].
    destruct (Hfail 2) as [e2 H2]; [lia|].
    subst out. unfold _process_single_image, bind, call, ret, sleep; cbn.
    fold fn. rewrite H0; cbn. rewrite H1; cbn. rewrite H2; cbn.
    destruct (OCR_FALLBACK_ENABLED && negb (String.eqb OCR_ENGINE "gemini")).
    + cbn. destruct (engine_call gemini 3); split; reflexivity.
    + cbn. split; [reflexivity|]. exists e2. split; reflexivity.
  - intros last_error. split; reflexivity.
  - subst fn. unfold primary_fn.
    destruct (String.eqb OCR_ENGINE "gemini"); congruence.
Qed.

Lemma dispatcher_retries_then_falls_back_witness :
  (fst (_process_single_image "tesseract" true second_time_lucky start)
   = passport_page
   /\ trace (snd (_process_single_image "tesseract" true second_time_lucky start))
      = [Call tesseract; Sleep 1; Call tesseract])
  /\ (trace (snd (_process_single_image "tesseract" true always_down start))
      = [Call tesseract; Sleep 1; Call tesseract; Sleep 2; Call tesseract;
         Call gemini]
      /\ fst (_process_single_image "tesseract" true always_down start)
         = error_result (Some (lit "503 Service Unavailable"))).
Proof.
  split.
  - apply (proj1 (dispatcher_retries_then_falls_back
                    "tesseract" true second_time_lucky) 1 passport_page).
    + unfold MAX_RETRIES; lia.
    + intros n Hn. assert (n = 0) as -> by lia. now exists (lit "Tesseract extracted no usable text").
    + reflexivity.
  - apply (proj1 (proj2 (dispatcher_retries_then_falls_back
                           "tesseract" true always_down))).
    intros n _. now exists (lit "503 Service Unavailable").
Defined.

End DispatchFacts.

(** ** document_processor.py: what is cached and what is merged *)

Module PipelineFacts.

Import Processor Scenarios.


(** The image branch, on a cache miss, turns every result that is not
    marked partial into an item, stores it and returns it; the useful-data
    test is not consulted. *)
Lemma image_branch_stores_every_result
      (compute_hash : list Byte.byte -> str)
      (convert_pdf_to_images : list Byte.byte -> option (list (list Byte.byte)))
      (ocr : list Byte.byte -> str -> doc_data)
      (filename file_ext : str) (content : list Byte.byte) (now_get now_put : Z)
      (it : Item) :
  str_eqb file_ext (lit ".pdf") = false ->
  _partial (ocr content filename) = false ->
  doc_data_to_item (ocr content filename) = Some it ->
  let done :=
    _process_one compute_hash convert_pdf_to_images ocr filename file_ext
                 content now_get now_put empty_cache in
  o_success (fst done) = true
  /\ o_items (fst done) = [it]
  /\ Cache.keys (snd done) = [compute_hash content].
Proof.
  intros Hext Hpartial Hitem. unfold _process_one, empty_cache.
  cbn [Cache.get Cache.new Cache._cache Cache.lookup].
  rewrite Hext, Hpartial, Hitem. cbn. repeat split.
Qed.

(** C2 (the image branch departs from the claim): [date_only_page] fails
    the useful-data test. Read from a PDF page it is dropped: no item, and
    nothing is stored. Read from a single image it becomes an item, the
    item is stored in the cache under the file's hash, and [clean_entry]
    keeps it, so that it is in the list handed to [fuzzy_merge_data]. *)
Theorem image_result_without_useful_data_is_kept :
  _has_useful_data date_only_page = false
  /\ (o_success (fst as_pdf) = true
      /\ o_items (fst as_pdf) = []
      /\ Cache.mem (one_hash scan_bytes) (snd as_pdf) = false)
  /\ (o_success (fst as_image) = true
      /\ List.length (o_items (fst as_image)) = 1
      /\ Cache.mem (one_hash scan_bytes) (snd as_image) = true
      /\ fst (Cache.get (one_hash scan_bytes) 1%Z (snd as_image))
         = Some (o_items (fst as_image))
      /\ List.length (sanitized_data (o_items (fst as_image))) = 1
      /\ map (fun it : Item => it tanggal_paspor)
             (sanitized_data (o_items (fst as_image)))
         = [lit "2020-01-12"]).
Proof. vm_compute. repeat split. Qed.

End PipelineFacts.

(* ================================================================== *)
(** * Further properties *)
(* ================================================================== *)

Module TextFacts.
Import Re ReFacts Text.

Lemma implb_holds (a b : bool) : implb a b = true -> a = true -> b = true.
Proof. destruct a, b; auto; discriminate. Qed.

Lemma some_eq {A : Type} (a b : A) : Some a = Some b -> a = b.
Proof. intros H. now injection H. Qed.

(** A property of characters that holds of all 256 of them. *)
Lemma every_ascii (p : ascii -> bool) :
  forallb p (map ascii_of_nat (seq 0 256)) = true -> forall c, p c = true.
Proof.
  intros H c. rewrite forallb_forall in H. apply H.
  rewrite <- (ascii_nat_embedding c). apply in_map, in_seq.
  pose proof (nat_ascii_bounded c). lia.
Qed.

Lemma take_drop (p : ascii -> bool) (s : str) :
  take_while p s ++ drop_while p s = s.
Proof.
  induction s as [|c s IH]; [reflexivity|].
  cbn [take_while drop_while]. destruct (p c); [|reflexivity].
  cbn [app]. now rewrite IH.
Qed.

Lemma take_while_all (p : ascii -> bool) (s : str) :
  Forall (fun c => p c = true) (take_while p s).
Proof.
  induction s as [|c s IH]; cbn [take_while]; [constructor|].
  destruct (p c) eqn:E; [now constructor|constructor].
Qed.

Lemma drop_while_head (p : ascii -> bool) (s : str) (c : ascii) (s' : str) :
  drop_while p s = c :: s' -> p c = false.
Proof.
  induction s as [|x s IH]; cbn [drop_while]; [discriminate|].
  destruct (p x) eqn:E; [assumption|]. now intros [= <- <-].
Qed.

Lemma length_drop_while (p : ascii -> bool) (s : str) :
  List.length (drop_while p s) <= List.length s.
Proof.
  induction s as [|c s IH]; cbn [drop_while List.length]; [lia|].
  destruct (p c); cbn [List.length]; lia.
Qed.

Lemma run_take (cls : ascii -> bool) (s : str) :
  firstn (run cls None s) s = take_while cls s
  /\ skipn (run cls None s) s = drop_while cls s.
Proof.
  induction s as [|c s [IH1 IH2]]; [split; reflexivity|].
  cbn [run take_while drop_while]. destruct (cls c).
  - cbn [firstn skipn]. now rewrite IH1, IH2.
  - split; reflexivity.
Qed.

Lemma run_zero (cls : ascii -> bool) (s : str) :
  run cls None s = 0 <-> take_while cls s = [].
Proof.
  destruct s as [|c s]; [split; reflexivity|].
  cbn [run take_while]. destruct (cls c); split; try discriminate; reflexivity.
Qed.

(** One greedy run of a class: all of it or no match. *)
Lemma match_here_plus (cls : ascii -> bool) (prev : option ascii) (s : str) :
  match_here [plus cls] prev s =
  match take_while cls s with
  | [] => None
  | _ :: _ => Some ([take_while cls s], drop_while cls s)
  end.
Proof.
  cbn [match_here plus].
  destruct (run_take cls s) as [Hf Hs].
  destruct (run cls None s) as [|k] eqn:Hrun.
  - apply run_zero in Hrun. rewrite Hrun. reflexivity.
  - cbn [give_back Nat.leb]. rewrite Hf, Hs.
    destruct (take_while cls s) eqn:E; [|reflexivity].
    apply run_zero in E. lia.
Qed.

Lemma take_while_neg_nil (cls : ascii -> bool) (s : str) :
  drop_while (neg cls) s = [] -> take_while cls s = [] \/ s = [].
Proof.
  destruct s as [|c s]; [now right|].
  cbn [drop_while take_while]. unfold neg.
  destruct (cls c); cbn [negb]; [discriminate|now left].
Qed.

Lemma search_plus (cls : ascii -> bool) :
  forall s prev skipped,
    search_from [plus cls] prev skipped s =
    match drop_while (neg cls) s with
    | [] => None
    | _ :: _ =>
        Some (mk_found (rev skipped ++ take_while (neg cls) s)
                       [take_while cls (drop_while (neg cls) s)]
                       (drop_while cls (drop_while (neg cls) s)))
    end.
Proof.
  induction s as [|c s IH]; intros prev skipped.
  - cbn [search_from]. rewrite match_here_plus. reflexivity.
  - cbn [search_from]. rewrite match_here_plus.
    assert (Hn : neg cls c = negb (cls c)) by reflexivity.
    cbn [take_while drop_while]. rewrite Hn.
    destruct (cls c) eqn:Hc; cbn [negb].
    + cbn [take_while drop_while]. rewrite Hc. now rewrite app_nil_r.
    + rewrite IH. destruct (drop_while (neg cls) s); [reflexivity|].
      cbn [rev]. now rewrite <- app_assoc.
Qed.

Lemma squeeze_true (cls : ascii -> bool) (r s : str) :
  squeeze cls r true s = squeeze cls r false (drop_while cls s).
Proof.
  induction s as [|c s IH]; [reflexivity|].
  cbn [squeeze drop_while]. destruct (cls c) eqn:Hc; [assumption|].
  cbn [squeeze]. now rewrite Hc.
Qed.

Lemma squeeze_skip (cls : ascii -> bool) (r s : str) :
  squeeze cls r false s
  = take_while (neg cls) s ++ squeeze cls r false (drop_while (neg cls) s).
Proof.
  induction s as [|c s IH]; [reflexivity|].
  assert (Hn : neg cls c = negb (cls c)) by reflexivity.
  cbn [squeeze take_while drop_while]. rewrite Hn.
  destruct (cls c) eqn:Hc; cbn [negb app].
  - cbn [squeeze]. now rewrite Hc.
  - now rewrite IH.
Qed.

Lemma squeeze_none (cls : ascii -> bool) (r s : str) :
  drop_while (neg cls) s = [] -> squeeze cls r false s = s.
Proof.
  intros H. rewrite squeeze_skip, H. cbn [squeeze].
  rewrite <- (take_drop (neg cls) s) at 2. now rewrite H.
Qed.

Lemma sub_from_plus (cls : ascii -> bool) (r : str) :
  forall fuel prev s,
    List.length s < fuel ->
    sub_from fuel [plus cls] (fun _ => r) prev s = squeeze cls r false s.
Proof.
  induction fuel as [|fuel IH]; intros prev s Hlen; [lia|].
  cbn [sub_from]. rewrite search_plus.
  destruct (drop_while (neg cls) s) as [|c s1] eqn:Hd.
  - symmetry. now apply squeeze_none.
  - cbn [before after rev app].
    rewrite (squeeze_skip cls r s), Hd.
    f_equal. pose proof (drop_while_head _ _ _ _ Hd) as Hc.
    unfold neg in Hc. apply negb_false_iff in Hc.
    cbn [squeeze]. rewrite Hc. f_equal.
    rewrite squeeze_true, IH; [cbn [drop_while]; now rewrite Hc|].
    cbn [drop_while]. rewrite Hc.
    pose proof (length_drop_while cls s1).
    pose proof (length_drop_while (neg cls) s) as Hs. rewrite Hd in Hs.
    cbn [List.length] in Hs. lia.
Qed.

(** [re.sub(r'[cls]+', r, s)] replaces every run of the class by [r]. *)
Lemma sub_plus (cls : ascii -> bool) (r s : str) :
  sub [plus cls] (fun _ => r) s = squeeze cls r false s.
Proof. apply sub_from_plus. lia. Qed.

Lemma no_run_cons (cls : ascii -> bool) (c c' : ascii) (s : str) :
  no_run cls (c :: c' :: s) = negb (cls c && cls c') && no_run cls (c' :: s).
Proof. reflexivity. Qed.

(** After the replacement by one character of the class, that character
    is the only one of the class left and it never comes twice in a row. *)
Lemma squeeze_shape (cls : ascii -> bool) (b : ascii) :
  cls b = true ->
  forall s in_run,
    Forall (fun c => cls c = true -> c = b) (squeeze cls [b] in_run s)
    /\ no_run cls (squeeze cls [b] in_run s) = true
    /\ (in_run = true ->
        match squeeze cls [b] in_run s with
        | c :: _ => cls c = false
        | [] => True
        end).
Proof.
  intros Hb. induction s as [|c s IH]; intros in_run.
  - cbn. split; [constructor|]. split; [reflexivity|auto].
  - cbn [squeeze]. destruct (cls c) eqn:Hc.
    + destruct in_run.
      * apply IH.
      * destruct (IH true) as (Hall & Hrun & Hhead). cbn [app].
        split; [constructor; [reflexivity|assumption]|].
        split; [|discriminate].
        specialize (Hhead eq_refl).
        destruct (squeeze cls [b] true s) as [|c' s'] eqn:E; [reflexivity|].
        rewrite no_run_cons, Hhead, andb_false_r. exact Hrun.
    + destruct (IH false) as (Hall & Hrun & _).
      split; [constructor; [congruence|assumption]|].
      split; [|intros _; exact Hc].
      destruct (squeeze cls [b] false s) as [|c' s'] eqn:E; [reflexivity|].
      rewrite no_run_cons, Hc. exact Hrun.
Qed.

(** A text of that shape is left as it is. *)
Lemma squeeze_fixed (cls : ascii -> bool) (b : ascii) :
  forall s,
    Forall (fun c => cls c = true -> c = b) s -> no_run cls s = true ->
    squeeze cls [b] false s = s.
Proof.
  induction s as [|c s IH]; intros Hall Hrun; [reflexivity|].
  inversion Hall as [|? ? Hc Hrest]; subst.
  cbn [squeeze]. destruct (cls c) eqn:Ec.
  - rewrite (Hc eq_refl). cbn [app]. f_equal.
    destruct s as [|c' s']; [reflexivity|].
    rewrite no_run_cons, Ec in Hrun. cbn [andb] in Hrun.
    apply andb_true_iff in Hrun as [Hc' Hrun]. apply negb_true_iff in Hc'.
    cbn [squeeze]. rewrite Hc'.
    assert (E := IH Hrest Hrun). cbn [squeeze] in E. now rewrite Hc' in E.
  - f_equal. apply IH; [assumption|].
    destruct s as [|c' s']; [reflexivity|].
    rewrite no_run_cons in Hrun. now apply andb_true_iff in Hrun as [_ Hrun].
Qed.

(** Every match [scan] lists is one the pattern accepts. *)
Lemma scan_sound (re : pattern) :
  forall fuel prev s,
    Forall (fun m => Forall2 atom_ok re (groups m)) (scan fuel re prev s).
Proof.
  induction fuel as [|fuel IH]; intros prev s; cbn [scan]; [constructor|].
  destruct (search_from re prev [] s) as [m|] eqn:E; [|constructor].
  constructor; [|apply IH]. now apply search_from_sound in E.
Qed.

(** *** strip *)

Lemma drop_while_Forall (P : ascii -> Prop) (p : ascii -> bool) (s : str) :
  Forall P s -> Forall P (drop_while p s).
Proof.
  induction 1 as [|c s Hc Hs IH]; cbn [drop_while]; [constructor|].
  destruct (p c); [assumption|now constructor].
Qed.

Lemma strip_Forall (P : ascii -> Prop) (s : str) :
  Forall P s -> Forall P (strip s).
Proof.
  intros H. unfold strip, rstrip, lstrip.
  apply Forall_rev, drop_while_Forall, Forall_rev, drop_while_Forall, H.
Qed.

Lemma drop_while_fixed (p : ascii -> bool) (s : str) :
  match s with c :: _ => p c = false | [] => True end ->
  drop_while p s = s.
Proof. destruct s as [|c s]; [reflexivity|]. cbn. now intros ->. Qed.

Lemma lstrip_head (s : str) :
  match lstrip s with c :: _ => is_space c = false | [] => True end.
Proof.
  unfold lstrip. destruct (drop_while is_space s) as [|c s'] eqn:E; [exact I|].
  now apply drop_while_head in E.
Qed.

(** The first and the last character of a stripped text are no white
    space. *)
Lemma strip_ends (s : str) :
  match strip s with c :: _ => is_space c = false | [] => True end
  /\ match rev (strip s) with c :: _ => is_space c = false | [] => True end.
Proof.
  unfold strip, rstrip. rewrite rev_involutive.
  pose proof (lstrip_head s) as Hl.
  split.
  - destruct (rev (drop_while is_space (rev (lstrip s)))) as [|c t] eqn:E;
      [exact I|].
    assert (Hin : exists t', lstrip s = c :: t').
    { pose proof (take_drop is_space (rev (lstrip s))) as Htd.
      apply (f_equal (@rev ascii)) in Htd.
      rewrite rev_app_distr, rev_involutive, E in Htd.
      cbn [app] in Htd. eauto. }
    destruct Hin as (t' & Ht'). now rewrite Ht' in Hl.
  - destruct (drop_while is_space (rev (lstrip s))) as [|c t] eqn:E; [exact I|].
    now apply drop_while_head in E.
Qed.

Lemma strip_fixed (s : str) :
  match s with c :: _ => is_space c = false | [] => True end ->
  match rev s with c :: _ => is_space c = false | [] => True end ->
  strip s = s.
Proof.
  intros Hh Hl. unfold strip, rstrip, lstrip.
  rewrite (drop_while_fixed _ s Hh), (drop_while_fixed _ (rev s) Hl).
  apply rev_involutive.
Qed.

Lemma length_strip (s : str) : List.length (strip s) <= List.length s.
Proof.
  unfold strip, rstrip, lstrip. rewrite length_rev.
  pose proof (length_drop_while is_space (rev (drop_while is_space s))).
  pose proof (length_drop_while is_space s). rewrite length_rev in *. lia.
Qed.

End TextFacts.

Module CacheOpsFacts.
Import Cache CacheOps.

Section Dict.
Variable A : Type.
Implicit Types (d : list (str * entry A)) (k : str) (e : entry A).

Lemma lookup_assign_same k e d : lookup A k (assign A k e d) = Some e.
Proof.
  induction d as [|[k' e'] d IH]; cbn [assign lookup].
  - now rewrite str_eqb_refl.
  - destruct (str_eqb k k') eqn:E; cbn [lookup]; rewrite ?str_eqb_refl; [reflexivity|].
    now rewrite E.
Qed.

Lemma lookup_in k d :
  lookup A k d <> None <-> In k (map fst d).
Proof.
  induction d as [|[k' e'] d IH]; cbn [lookup map fst In].
  - split; [congruence|tauto].
  - destruct (str_eqb k k') eqn:E.
    + apply str_eqb_eq in E. subst. split; [now left|discriminate].
    + rewrite IH. split; [now right|].
      intros [<-|H]; [|assumption]. rewrite str_eqb_refl in E. discriminate.
Qed.

Lemma keys_assign k e d :
  map fst (assign A k e d)
  = if existsb (str_eqb k) (map fst d) then map fst d else map fst d ++ [k].
Proof.
  induction d as [|[k' e'] d IH]; cbn [assign map fst existsb app]; [reflexivity|].
  destruct (str_eqb k k') eqn:E; cbn [map fst orb].
  - apply str_eqb_eq in E. now subst.
  - rewrite IH. now destruct (existsb (str_eqb k) (map fst d)).
Qed.

Lemma existsb_str_in k (l : list str) :
  existsb (str_eqb k) l = true <-> In k l.
Proof.
  rewrite existsb_exists. split.
  - intros (x & Hin & E). apply str_eqb_eq in E. now subst.
  - intros Hin. exists k. split; [assumption|apply str_eqb_refl].
Qed.

Lemma keys_remove_incl k d x : In x (map fst (remove A k d)) -> In x (map fst d).
Proof.
  induction d as [|[k' e'] d IH]; cbn [remove map fst]; [tauto|].
  destruct (str_eqb k k'); cbn [map fst In]; [tauto|].
  intros [H|H]; [now left|right; now apply IH].
Qed.

Lemma NoDup_remove_keys k d :
  NoDup (map fst d) -> NoDup (map fst (remove A k d)) /\ ~ In k (map fst (remove A k d)).
Proof.
  induction d as [|[k' e'] d IH]; cbn [remove map fst]; intros Hnd.
  - split; [constructor|tauto].
  - inversion Hnd as [|? ? Hout Hrest]; subst.
    destruct (str_eqb k k') eqn:E.
    + apply str_eqb_eq in E. subst. now split.
    + destruct (IH Hrest) as [Hnd' Hk]. cbn [map fst]. split.
      * constructor; [|assumption]. intros Hin. apply Hout.
        now apply keys_remove_incl in Hin.
      * intros [<-|Hin]; [|contradiction].
        rewrite str_eqb_refl in E. discriminate.
Qed.

Lemma length_remove k d : List.length (remove A k d) <= List.length d.
Proof.
  induction d as [|[k' e'] d IH]; cbn [remove List.length]; [lia|].
  destruct (str_eqb k k'); cbn [List.length]; lia.
Qed.

Lemma length_remove_in k d :
  In k (map fst d) -> S (List.length (remove A k d)) = List.length d.
Proof.
  induction d as [|[k' e'] d IH]; cbn [remove map fst In List.length]; [tauto|].
  destruct (str_eqb k k') eqn:E; [reflexivity|].
  intros [<-|Hin]; [rewrite str_eqb_refl in E; discriminate|].
  cbn [List.length]. now rewrite IH.
Qed.

(** What the eviction loop leaves: nothing to do below the capacity, the
    oldest entry dropped at the capacity, a [KeyError] without capacity. *)
Lemma evict_below (m : Z) d :
  (Z.of_nat (List.length d) < m)%Z -> evict A m d = Some d.
Proof.
  intros H. destruct d; cbn [evict]; apply Z.leb_gt in H; now rewrite H.
Qed.

Lemma evict_none (m : Z) d : (m <= 0)%Z -> evict A m d = None.
Proof.
  intros Hm. induction d as [|x d IH]; cbn [evict].
  - assert (E : (m <=? Z.of_nat (@List.length (str * entry A) []))%Z = true)
      by (apply Z.leb_le; simpl; lia).
    now rewrite E.
  - assert (E : (m <=? Z.of_nat (List.length (x :: d)))%Z = true)
      by (apply Z.leb_le; lia).
    now rewrite E.
Qed.

Lemma evict_some (m : Z) d :
  (1 <= m)%Z ->
  exists d', evict A m d = Some d'
             /\ (Z.of_nat (List.length d') < m)%Z
             /\ exists gone, d = gone ++ d'.
Proof.
  intros Hm. induction d as [|x d IH].
  - exists []. split; [apply evict_below; simpl; lia|].
    split; [simpl; lia|now exists []].
  - destruct (Z.leb_spec m (Z.of_nat (List.length (x :: d)))) as [Hfull|Hroom].
    + destruct IH as (d' & He & Hlen & gone & Hd).
      exists d'. cbn [evict].
      apply Z.leb_le in Hfull. rewrite Hfull.
      split; [assumption|]. split; [assumption|].
      exists (x :: gone). now rewrite Hd.
    + exists (x :: d). split; [now apply evict_below|].
      split; [assumption|now exists []].
Qed.

Lemma evict_at_capacity (m : Z) x d :
  (Z.of_nat (List.length (x :: d)) = m)%Z -> evict A m (x :: d) = Some d.
Proof.
  intros H. cbn [evict].
  assert (E : (m <=? Z.of_nat (List.length (x :: d)))%Z = true)
    by (apply Z.leb_le; lia).
  rewrite E. apply evict_below. cbn [List.length] in H. lia.
Qed.

End Dict.

Arguments lookup_assign_same {A}.
Arguments keys_assign {A}.
Arguments NoDup_remove_keys {A}.
Arguments evict_some {A}.
Arguments evict_none {A}.
Arguments evict_at_capacity {A}.
Arguments length_remove {A}.
Arguments length_remove_in {A}.
Arguments lookup_in {A}.

(** What was stored is what a lookup within the lifetime returns, whatever
    the cache held before; the hit leaves the key the most recently used. *)
Theorem put_then_get (A : Type) (k : str) (x : A) (t t' : Z) (c : OCRCache A) :
  (1 <= _max_size c)%Z -> (t' - t < _ttl c)%Z ->
  exists c',
    put k x t c = Some c'
    /\ fst (get k t' c') = Some x
    /\ last (keys (snd (get k t' c'))) [] = k
    /\ _hits (snd (get k t' c')) = S (_hits c).
Proof.
  intros Hsize Hfresh. unfold put.
  destruct (evict_some (_max_size c) (_cache c) Hsize) as (d' & He & _ & _).
  rewrite He. eexists. split; [reflexivity|].
  unfold get. cbn [_cache _ttl _max_size _hits _misses].
  rewrite lookup_assign_same. cbn [timestamp data].
  apply Z.ltb_lt in Hfresh. rewrite Hfresh. cbn [fst snd].
  split; [reflexivity|]. split; [|reflexivity].
  unfold keys, move_to_end. cbn [_cache]. rewrite lookup_assign_same.
  rewrite map_app. cbn [map fst]. apply last_last.
Qed.

(** A cache without capacity cannot store: [put] raises on every key. *)
Theorem put_without_capacity_raises
        (A : Type) (k : str) (x : A) (t : Z) (c : OCRCache A) :
  (_max_size c <= 0)%Z -> put k x t c = None.
Proof. intros H. unfold put. now rewrite evict_none. Qed.

(** Storing under a key the full cache already holds still evicts the
    oldest entry; the key keeps its place in the order. *)
Theorem put_again_evicts
        (A : Type) (k oldest : str) (rest : list str) (x : A) (t : Z)
        (c : OCRCache A) :
  Z.of_nat (List.length (_cache c)) = _max_size c ->
  keys c = oldest :: rest -> In k rest ->
  exists c',
    put k x t c = Some c'
    /\ keys c' = rest
    /\ mem oldest c' = existsb (str_eqb oldest) rest
    /\ lookup A k (_cache c') = Some (mk_entry A x t).
Proof.
  intros Hfull Hkeys Hin. unfold put, keys in *.
  destruct (_cache c) as [|[k0 e0] d] eqn:Hd; [discriminate|].
  cbn [map fst] in Hkeys. injection Hkeys as -> <-.
  rewrite (evict_at_capacity (_max_size c) (oldest, e0) d Hfull).
  eexists. split; [reflexivity|]. cbn [_cache].
  rewrite keys_assign.
  assert (E : existsb (str_eqb k) (map fst d) = true)
    by now apply existsb_str_in.
  rewrite E. split; [reflexivity|]. split; [|apply lookup_assign_same].
  unfold mem. cbn [_cache].
  destruct (existsb (str_eqb oldest) (map fst d)) eqn:Eo.
  - apply existsb_str_in in Eo.
    assert (Hk : In oldest (map fst (assign A k (mk_entry A x t) d)))
      by now rewrite keys_assign, E.
    apply lookup_in in Hk.
    now destruct (lookup A oldest (assign A k (mk_entry A x t) d)).
  - destruct (lookup A oldest (assign A k (mk_entry A x t) d)) eqn:El;
      [|reflexivity].
    assert (Hk : In oldest (map fst (assign A k (mk_entry A x t) d))).
    { apply lookup_in. congruence. }
    rewrite keys_assign, E in Hk. apply existsb_str_in in Hk. congruence.
Qed.

Section Reachable.
Variable A : Type.

Lemma lookups_snoc (ops : list (op A)) (o : op A) :
  lookups (ops ++ [o])
  = match o with
    | Get _ _ => S (lookups ops)
    | Put _ _ _ => lookups ops
    | Clear => 0
    end.
Proof. unfold lookups. now rewrite fold_left_app. Qed.

Lemma steps_snoc (c : OCRCache A) (ops : list (op A)) (o : op A) :
  steps c (ops ++ [o])
  = match steps c ops with
    | Some c' => step c' o
    | None => None
    end.
Proof.
  revert c; induction ops as [|o' ops IH]; intros c; cbn [app steps].
  - now destruct (step c o).
  - destruct (step c o'); [apply IH|reflexivity].
Qed.

Lemma get_well_formed (m ttl : Z) (n : nat) (k : str) (now : Z) (c : OCRCache A) :
  well_formed m ttl n c -> well_formed m ttl (S n) (snd (get k now c)).
Proof.
  intros (Hnd & Hlen & Hcnt & Hm & Httl). unfold get, keys in *.
  destruct (lookup A k (_cache c)) as [e|] eqn:El.
  - assert (Hin : In k (map fst (_cache c))) by (apply lookup_in; congruence).
    destruct (now - timestamp e <? _ttl c)%Z; cbn [snd].
    + unfold well_formed, keys, move_to_end.
      cbn [_cache _hits _misses _max_size _ttl]. rewrite El.
      destruct (NoDup_remove_keys k (_cache c) Hnd) as [Hnd' Hout].
      rewrite map_app. cbn [map fst].
      split; [|split; [|split; [lia|now split]]].
      * apply NoDup_app; [assumption|repeat constructor; simpl; tauto|].
        intros x Hx [<-|[]]. contradiction.
      * rewrite length_app, !length_map. cbn [List.length].
        rewrite length_map in Hlen.
        pose proof (length_remove_in k (_cache c) Hin). lia.
    + unfold well_formed, keys. cbn [_cache _hits _misses _max_size _ttl].
      destruct (NoDup_remove_keys k (_cache c) Hnd) as [Hnd' Hout].
      split; [assumption|]. split; [|split; [lia|now split]].
      rewrite length_map in *. pose proof (length_remove k (_cache c)). lia.
  - cbn [snd]. unfold well_formed, keys.
    cbn [_cache _hits _misses _max_size _ttl].
    split; [assumption|]. split; [assumption|]. split; [lia|now split].
Qed.

Lemma put_well_formed (m ttl : Z) (n : nat) (k : str) (x : A) (now : Z)
      (c : OCRCache A) :
  (1 <= m)%Z -> well_formed m ttl n c ->
  exists c', put k x now c = Some c' /\ well_formed m ttl n c'.
Proof.
  intros Hsize (Hnd & Hlen & Hcnt & Hm & Httl). unfold put, keys in *.
  rewrite Hm.
  destruct (evict_some m (_cache c) Hsize) as (d' & He & Hroom & gone & Hd).
  rewrite He. eexists. split; [reflexivity|].
  unfold well_formed, keys. cbn [_cache _hits _misses _max_size _ttl].
  rewrite keys_assign.
  assert (Hnd' : NoDup (map fst d')).
  { rewrite Hd, map_app in Hnd. now apply NoDup_app_remove_l in Hnd. }
  split; [|split; [|split; [assumption|now split]]].
  - destruct (existsb (str_eqb k) (map fst d')) eqn:E; [assumption|].
    apply NoDup_app; [assumption|repeat constructor; simpl; tauto|].
    intros y Hy [<-|[]].
    apply existsb_str_in in Hy. congruence.
  - destruct (existsb (str_eqb k) (map fst d')).
    + rewrite length_map. lia.
    + rewrite length_app, length_map. cbn [List.length]. lia.
Qed.

(** Whatever is called on a cache of capacity one or more, in whatever
    order: no call raises, no key is held twice, the size stays within
    the capacity, and the two counters add up to the lookups made since the
    last [clear]. *)
Theorem cache_stays_well_formed (max_size ttl : Z) (ops : list (op A)) :
  (1 <= max_size)%Z ->
  exists c,
    steps (new max_size ttl) ops = Some c
    /\ NoDup (keys c)
    /\ (Z.of_nat (List.length (keys c)) <= max_size)%Z
    /\ _hits c + _misses c = lookups ops
    /\ _max_size c = max_size /\ _ttl c = ttl.
Proof.
  intros Hsize.
  change (exists c, steps (new max_size ttl) ops = Some c
                    /\ well_formed max_size ttl (lookups ops) c).
  induction ops as [|o ops IH] using rev_ind.
  - exists (new max_size ttl). split; [reflexivity|].
    unfold well_formed, new, keys; cbn. repeat split; try constructor; lia.
  - destruct IH as (c & Hc & Hwf).
    rewrite steps_snoc, Hc, lookups_snoc.
    destruct o as [k now|k x now|]; cbn [step].
    + eexists. split; [reflexivity|]. now apply get_well_formed.
    + now apply put_well_formed.
    + eexists. split; [reflexivity|].
      destruct Hwf as (_ & _ & _ & Hm & Httl).
      unfold well_formed, clear, keys; cbn.
      repeat split; try constructor; try assumption; lia.
Qed.

End Reachable.

Lemma put_then_get_witness :
  exists c',
    put (lit "9f86d081") [1; 2] 10%Z (new 2 3600) = Some c'
    /\ fst (get (lit "9f86d081") 3609%Z c') = Some [1; 2]
    /\ last (keys (snd (get (lit "9f86d081") 3609%Z c'))) [] = lit "9f86d081"
    /\ _hits (snd (get (lit "9f86d081") 3609%Z c')) = 1.
Proof.
  apply (put_then_get (list nat) (lit "9f86d081") [1; 2] 10%Z 3609%Z
                      (new 2 3600)); cbn; lia.
Defined.

Lemma put_without_capacity_raises_witness :
  put (lit "9f86d081") 7 0%Z (new 0 3600) = None.
Proof.
  apply (put_without_capacity_raises nat (lit "9f86d081") 7 0%Z (new 0 3600)).
  cbn; lia.
Defined.

(** A full cache of two files; the younger one is stored again. *)
Lemma put_again_evicts_witness :
  exists c',
    put (lit "bb") 3 9%Z
        (mk_cache nat [(lit "aa", mk_entry nat 1 0%Z); (lit "bb", mk_entry nat 2 5%Z)]
                  2 3600 0 0) = Some c'
    /\ keys c' = [lit "bb"]
    /\ mem (lit "aa") c' = existsb (str_eqb (lit "aa")) [lit "bb"]
    /\ lookup nat (lit "bb") (_cache c') = Some (mk_entry nat 3 9%Z).
Proof.
  apply (put_again_evicts nat (lit "bb") (lit "aa") [lit "bb"] 3 9%Z
           (mk_cache nat [(lit "aa", mk_entry nat 1 0%Z);
                          (lit "bb", mk_entry nat 2 5%Z)] 2 3600 0 0)).
  - reflexivity.
  - reflexivity.
  - simpl. now left.
Defined.

(** Two lookups around a store, on a cache of capacity one. *)
Lemma cache_stays_well_formed_witness :
  exists c,
    steps (new 1 60) [Get (lit "aa") 0%Z; Put (lit "aa") 5 1%Z;
                      Put (lit "bb") 6 2%Z; Get (lit "aa") 3%Z] = Some c
    /\ NoDup (keys c)
    /\ (Z.of_nat (List.length (keys c)) <= 1)%Z
    /\ _hits c + _misses c = 2
    /\ _max_size c = 1%Z /\ _ttl c = 60%Z.
Proof.
  apply (cache_stays_well_formed nat 1 60
           [Get (lit "aa") 0%Z; Put (lit "aa") 5 1%Z;
            Put (lit "bb") 6 2%Z; Get (lit "aa") 3%Z]).
  lia.
Defined.

End CacheOpsFacts.

Module RepairFacts.
Import Parser Repairs.

Lemma replace_char (a b : ascii) (s : str) :
  replace [a] [b] s = map (swap a b) s.
Proof.
  unfold replace. induction s as [|c s IH]; [reflexivity|].
  cbn [replace_from starts_with List.length Nat.sub map app].
  unfold swap at 1. rewrite andb_true_r.
  destruct (Ascii.eqb a c); cbn [app]; now rewrite IH.
Qed.

Lemma replace_all_map (table : list (string * string)) :
  Forall one_to_one table ->
  forall s, replace_all table s = map (fix_char table) s.
Proof.
  induction 1 as [|p table (a & b & Ha & Hb) _ IH]; intros s.
  - unfold replace_all, fix_char. cbn [fold_left]. now rewrite map_id.
  - unfold replace_all in *. cbn [fold_left]. rewrite IH.
    rewrite Ha, Hb, replace_char, map_map.
    apply map_ext. intros c. unfold fix_char. cbn [fold_left].
    now rewrite Ha, Hb.
Qed.

Lemma digit_fixes_one_to_one : Forall one_to_one digit_fixes.
Proof. repeat constructor; eexists; eexists; split; reflexivity. Qed.

Lemma mrz_digit_fixes_one_to_one : Forall one_to_one mrz_digit_fixes.
Proof. repeat constructor; eexists; eexists; split; reflexivity. Qed.

Lemma fix_ocr_digits_map (s : str) :
  fix_ocr_digits s = map (fix_char digit_fixes) s.
Proof. apply replace_all_map, digit_fixes_one_to_one. Qed.

Lemma fix_mrz_number_map (s : str) :
  fix_mrz_number s = map (fix_char mrz_digit_fixes) s.
Proof. apply replace_all_map, mrz_digit_fixes_one_to_one. Qed.

Ltac every_char c :=
  destruct c as [[] [] [] [] [] [] [] []]; vm_compute; try reflexivity;
  try discriminate; auto.

Lemma fix_char_ocr (c : ascii) :
  fix_char digit_fixes (fix_char digit_fixes c) = fix_char digit_fixes c
  /\ misread digit_fixes (fix_char digit_fixes c) = false
  /\ (misread digit_fixes c = false -> fix_char digit_fixes c = c)
  /\ (misread digit_fixes c = true -> is_digit (fix_char digit_fixes c) = true)
  /\ (is_digit c = true -> fix_char digit_fixes c = c)
  /\ (nik_like c = true -> digit_or_separator (fix_char digit_fixes c) = true).
Proof. every_char c; repeat split; intros; try reflexivity; discriminate. Qed.

Lemma fix_char_mrz (c : ascii) :
  fix_char mrz_digit_fixes (fix_char mrz_digit_fixes c) = fix_char mrz_digit_fixes c
  /\ misread mrz_digit_fixes (fix_char mrz_digit_fixes c) = false
  /\ (misread mrz_digit_fixes c = false -> fix_char mrz_digit_fixes c = c)
  /\ (misread mrz_digit_fixes c = true -> is_digit (fix_char mrz_digit_fixes c) = true)
  /\ (is_digit c = true -> fix_char mrz_digit_fixes c = c).
Proof. every_char c; repeat split; intros; try reflexivity; discriminate. Qed.

(** [fix_ocr_digits] works character by character: it keeps the length
    and commutes with concatenation; every character of its table comes
    out as a digit and every other character as it is, so the output
    holds no character of the table and a second pass changes nothing; a
    run of the class [extract_nik] looks for comes out as digits and
    separators only. *)
Theorem fix_ocr_digits_repairs (s t : str) :
  List.length (fix_ocr_digits s) = List.length s
  /\ fix_ocr_digits (s ++ t) = fix_ocr_digits s ++ fix_ocr_digits t
  /\ fix_ocr_digits (fix_ocr_digits s) = fix_ocr_digits s
  /\ Forall (fun c => misread digit_fixes c = false) (fix_ocr_digits s)
  /\ Forall2 (fun c c' => if misread digit_fixes c then is_digit c' = true
                          else c' = c) s (fix_ocr_digits s)
  /\ (Forall (fun c => nik_like c = true) s ->
      Forall (fun c => digit_or_separator c = true) (fix_ocr_digits s)).
Proof.
  rewrite !fix_ocr_digits_map.
  split; [apply length_map|]. split; [apply map_app|].
  split; [|split; [|split]].
  - rewrite map_map. apply map_ext. intros c.
    exact (proj1 (fix_char_ocr c)).
  - apply Forall_map, Forall_forall. intros c _.
    exact (proj1 (proj2 (fix_char_ocr c))).
  - induction s as [|c s IH]; cbn [map]; constructor; [|exact IH].
    destruct (fix_char_ocr c) as (_ & _ & Hsame & Hdigit & _).
    destruct (misread digit_fixes c); [now apply Hdigit|now apply Hsame].
  - intros H. apply Forall_map. eapply Forall_impl; [|exact H].
    intros c. exact (proj2 (proj2 (proj2 (proj2 (proj2 (fix_char_ocr c)))))).
Qed.

Lemma fix_ocr_digits_repairs_witness :
  Forall (fun c => digit_or_separator c = true)
         (fix_ocr_digits (lit "35I5-O825-O692-OOO2"))
  /\ fix_ocr_digits (lit "35I5-O825-O692-OOO2") = lit "3515-0825-0692-0002".
Proof.
  split; [|reflexivity].
  apply (proj2 (proj2 (proj2 (proj2 (proj2
           (fix_ocr_digits_repairs (lit "35I5-O825-O692-OOO2") [])))))).
  repeat constructor.
Defined.

End RepairFacts.

Module NameFacts.
Import Re ReFacts Text TextFacts Cleaner Names.

Lemma squeeze_Forall (P : ascii -> Prop) (cls : ascii -> bool) (r : str) :
  Forall P r ->
  forall s in_run, Forall P s -> Forall P (squeeze cls r in_run s).
Proof.
  intros Hr. induction s as [|c s IH]; intros in_run Hs; [constructor|].
  inversion Hs; subst. cbn [squeeze].
  destruct (cls c); [destruct in_run|].
  - now apply IH.
  - apply Forall_app; split; [assumption|now apply IH].
  - constructor; [assumption|now apply IH].
Qed.

Lemma no_run_app (cls : ascii -> bool) (a b : str) :
  no_run cls (a ++ b) = true -> no_run cls a = true /\ no_run cls b = true.
Proof.
  induction a as [|c a IH]; [now split|].
  destruct a as [|c' a].
  - cbn [app]. destruct b as [|c' b]; [now split|].
    rewrite no_run_cons. intros H. apply andb_true_iff in H as [_ H].
    now split.
  - cbn [app] in *. rewrite !no_run_cons. intros H.
    apply andb_true_iff in H as [H1 H2]. destruct (IH H2) as [Ha Hb].
    split; [now rewrite H1|assumption].
Qed.

Lemma strip_infix (s : str) :
  exists pre post, s = pre ++ strip s ++ post.
Proof.
  unfold strip, rstrip, lstrip.
  exists (take_while is_space s),
         (rev (take_while is_space (rev (drop_while is_space s)))).
  rewrite <- rev_app_distr, take_drop, rev_involutive.
  symmetry. apply take_drop.
Qed.

Lemma strip_no_run (cls : ascii -> bool) (s : str) :
  no_run cls s = true -> no_run cls (strip s) = true.
Proof.
  intros H. destruct (strip_infix s) as (pre & post & E).
  rewrite E in H. apply no_run_app in H as [_ H].
  now apply no_run_app in H as [H _].
Qed.

Lemma clean_name_char (c : ascii) :
  (is_name_char c = true -> (is_space c = true -> c = " "%char) ->
   is_clean_name_char c = true)
  /\ (is_clean_name_char c = true ->
      char_upper c = c /\ is_name_char c = true
      /\ (is_space c = true -> c = " "%char)).
Proof.
  pose proof (every_ascii
    (fun c => implb (is_name_char c && implb (is_space c) (Ascii.eqb c " "))
                    (is_clean_name_char c)
              && implb (is_clean_name_char c)
                       (Ascii.eqb (char_upper c) c && is_name_char c
                        && implb (is_space c) (Ascii.eqb c " ")))
    eq_refl c) as H.
  cbv beta in H. apply andb_true_iff in H as [H1 H2]. split.
  - intros Hn Hs. destruct (is_name_char c); [|discriminate].
    destruct (is_space c).
    + rewrite (Hs eq_refl) in *. reflexivity.
    + exact H1.
  - intros Hc. rewrite Hc in H2. cbn [implb] in H2.
    apply andb_true_iff in H2 as [H2 H3]. apply andb_true_iff in H2 as [H2 H4].
    apply Ascii.eqb_eq in H2. repeat split; [assumption|assumption|].
    intros Hs. rewrite Hs in H3. now apply Ascii.eqb_eq in H3.
Qed.

Lemma filter_all {A : Type} (p : A -> bool) (l : list A) :
  Forall (fun x => p x = true) l -> filter p l = l.
Proof.
  induction 1 as [|x l Hx _ IH]; [reflexivity|].
  cbn [filter]. now rewrite Hx, IH.
Qed.

Lemma validate_and_clean_name_unfold (c : ascii) (raw : str) :
  validate_and_clean_name (Some (c :: raw))
  = let cleaned :=
      strip (squeeze is_space [" "%char] false
                     (filter is_name_char (upper (c :: raw)))) in
    if List.length cleaned <? 3 then None
    else if existsb (fun w : string => contains w cleaned) name_blacklist
         then None else Some cleaned.
Proof.
  unfold validate_and_clean_name. cbv zeta.
  rewrite sub_delete.
  replace (filter (neg (neg is_name_char)) (upper (c :: raw)))
    with (filter is_name_char (upper (c :: raw)))
    by (apply filter_ext; intros a; unfold neg; now rewrite negb_involutive).
  change (lit " ") with [" "%char]. now rewrite sub_plus.
Qed.

(** A name that [validate_and_clean_name] returns has three characters
    or more, each a capital letter, a blank, a hyphen or an apostrophe;
    it neither begins nor ends with a blank nor holds two blanks in a row;
    it holds none of the header words; and cleaning it again returns
    it. *)
Theorem validate_and_clean_name_result (raw_name : option str) (name : str) :
  validate_and_clean_name raw_name = Some name ->
  3 <= List.length name
  /\ Forall (fun c => is_clean_name_char c = true) name
  /\ no_run is_space name = true
  /\ first_char_ok (fun c => negb (is_space c)) name = true
  /\ first_char_ok (fun c => negb (is_space c)) (rev name) = true
  /\ Forall (fun w : string => contains w name = false) name_blacklist
  /\ validate_and_clean_name (Some name) = Some name.
Proof.
  destruct raw_name as [[|c raw]|]; try discriminate.
  rewrite validate_and_clean_name_unfold. cbv zeta.
  set (kept := filter is_name_char (upper (c :: raw))).
  set (squeezed := squeeze is_space [" "%char] false kept).
  destruct (Nat.ltb_spec (List.length (strip squeezed)) 3) as [|Hlen];
    [discriminate|].
  destruct (existsb _ name_blacklist) eqn:Hblack; [discriminate|].
  intros H. assert (E : strip squeezed = name) by congruence. clear H.
  assert (Hkept : Forall (fun c => is_name_char c = true) kept).
  { apply Forall_forall. intros x Hx. apply filter_In in Hx. exact (proj2 Hx). }
  destruct (squeeze_shape is_space " "%char eq_refl kept false)
    as (Hblank & Hrun & _). fold squeezed in Hblank, Hrun.
  assert (Hsq : Forall (fun c => is_name_char c = true) squeezed)
    by (apply squeeze_Forall; [repeat constructor|assumption]).
  assert (Hchars : Forall (fun c => is_clean_name_char c = true) name).
  { rewrite <- E. apply strip_Forall.
    apply Forall_forall. intros x Hx.
    apply (proj1 (clean_name_char x)).
    - now apply (proj1 (Forall_forall _ _) Hsq).
    - now apply (proj1 (Forall_forall _ _) Hblank). }
  assert (Hnorun : no_run is_space name = true)
    by (rewrite <- E; now apply strip_no_run).
  destruct (strip_ends squeezed) as [Hfirst Hlast]. rewrite E in Hfirst, Hlast.
  assert (Hbl : existsb (fun w : string => contains w name) name_blacklist
                = false) by now rewrite <- E.
  split; [now rewrite <- E|]. split; [assumption|]. split; [assumption|].
  split; [destruct name; [reflexivity|cbn; now rewrite Hfirst]|].
  split; [destruct (rev name); [reflexivity|cbn; now rewrite Hlast]|].
  split.
  - apply Forall_forall. intros w Hw.
    destruct (contains w name) eqn:Ew; [|reflexivity].
    assert (existsb (fun w : string => contains w name) name_blacklist = true)
      by (apply existsb_exists; eauto).
    congruence.
  - destruct name as [|n0 name']; [rewrite E in Hlen; simpl in Hlen; lia|].
    rewrite validate_and_clean_name_unfold. cbv zeta.
    assert (Hup : upper (n0 :: name') = n0 :: name').
    { unfold upper. rewrite <- (map_id (n0 :: name')) at 2.
      apply map_ext_in. intros x Hx.
      apply (proj1 (Forall_forall _ _) Hchars) in Hx.
      exact (proj1 (proj2 (clean_name_char x) Hx)). }
    rewrite Hup, filter_all.
    2:{ eapply Forall_impl; [|exact Hchars]. intros x Hx.
        exact (proj1 (proj2 (proj2 (clean_name_char x) Hx))). }
    rewrite squeeze_fixed; [|
      eapply Forall_impl; [|exact Hchars]; intros x Hx;
      exact (proj2 (proj2 (proj2 (clean_name_char x) Hx))) | exact Hnorun].
    rewrite strip_fixed; [|assumption|assumption].
    rewrite Hbl.
    destruct (Nat.ltb_spec (List.length (n0 :: name')) 3) as [Hshort|_];
      [|reflexivity].
    rewrite <- E in Hshort. lia.
Qed.

Lemma validate_and_clean_name_result_witness :
  validate_and_clean_name (Some (lit " Siti. Nur  'Aini-2 ")) = Some (lit "SITI NUR 'AINI-")
  /\ 3 <= List.length (lit "SITI NUR 'AINI-")
  /\ validate_and_clean_name (Some (lit "SITI NUR 'AINI-")) = Some (lit "SITI NUR 'AINI-").
Proof.
  assert (H : validate_and_clean_name (Some (lit " Siti. Nur  'Aini-2 "))
              = Some (lit "SITI NUR 'AINI-")) by (vm_compute; reflexivity).
  split; [exact H|].
  destruct (validate_and_clean_name_result _ _ H) as (Hlen & _ & _ & _ & _ & _ & Hagain).
  split; [exact Hlen|exact Hagain].
Defined.

End NameFacts.

Module DateFacts.
Import Re ReFacts Text TextFacts Cleaner Dates Repairs RepairFacts.

(** *** Numbers and their two-digit spelling *)

Lemma N_range (lo n : nat) (p : N -> bool) :
  forallb p (map N.of_nat (seq lo n)) = true ->
  forall x : N, (N.of_nat lo <= x < N.of_nat (lo + n))%N -> p x = true.
Proof.
  intros H x Hx. rewrite forallb_forall in H. apply H.
  rewrite <- (N2Nat.id x). apply in_map, in_seq. lia.
Qed.


Lemma two_digits (n : N) :
  (n <= 99)%N ->
  let s := zfill 2 (str_of_int n) in
  List.length s = 2 /\ digits s /\ int_of s = n.
Proof.
  intros Hn.
  pose proof (N_range 0 100
    (fun n => let s := zfill 2 (str_of_int n) in
              (List.length s =? 2) && forallb is_digit s && (int_of s =? n)%N)
    eq_refl n) as H.
  cbv zeta beta in *.
  assert (Hr : (N.of_nat 0 <= n < N.of_nat (0 + 100))%N) by lia.
  apply H in Hr. apply andb_true_iff in Hr as [Hr H3].
  apply andb_true_iff in Hr as [H1 H2].
  apply Nat.eqb_eq in H1. apply N.eqb_eq in H3.
  split; [assumption|]. split; [|assumption].
  apply Forall_forall. now apply forallb_forall.
Qed.

Lemma year_digits (y : N) :
  (1900 <= y <= 2040)%N ->
  let s := zfill 4 (str_of_int y) in
  List.length s = 4 /\ digits s /\ int_of s = y.
Proof.
  intros Hy.
  pose proof (N_range 1900 141
    (fun n => let s := zfill 4 (str_of_int n) in
              (List.length s =? 4) && forallb is_digit s && (int_of s =? n)%N)
    eq_refl y) as H.
  cbv zeta beta in *.
  assert (Hr : (N.of_nat 1900 <= y < N.of_nat (1900 + 141))%N) by lia.
  apply H in Hr. apply andb_true_iff in Hr as [Hr H3].
  apply andb_true_iff in Hr as [H1 H2].
  apply Nat.eqb_eq in H1. apply N.eqb_eq in H3.
  split; [assumption|]. split; [|assumption].
  apply Forall_forall. now apply forallb_forall.
Qed.

(** *** Texts made of digits and dashes *)

Lemma digit_or_dash_char (c : ascii) :
  is_digit_or_dash c = true ->
  char_upper c = c /\ is_space c = false /\ is_upper c = false
  /\ fix_char replacements c = c.
Proof.
  pose proof (every_ascii
    (fun c => implb (is_digit_or_dash c)
                    (Ascii.eqb (char_upper c) c && negb (is_space c)
                     && negb (is_upper c)
                     && Ascii.eqb (fix_char replacements c) c))
    eq_refl c) as H.
  cbv beta in H. intros Hc. rewrite Hc in H. cbn [implb] in H.
  apply andb_true_iff in H as [H H4]. apply andb_true_iff in H as [H H3].
  apply andb_true_iff in H as [H1 H2].
  apply Ascii.eqb_eq in H1, H4. apply negb_true_iff in H2, H3. auto.
Qed.

Lemma replacements_one_to_one : Forall one_to_one replacements.
Proof. repeat constructor; eexists; eexists; split; reflexivity. Qed.

Lemma map_fixed {A : Type} (f : A -> A) (l : list A) :
  Forall (fun x => f x = x) l -> map f l = l.
Proof.
  induction 1 as [|x l Hx _ IH]; [reflexivity|]. cbn [map]. now rewrite Hx, IH.
Qed.

(** The typo repair of [standardize_date] leaves a text of digits and
    dashes as it is. *)
Lemma cleanup_fixed (c : ascii) (s : str) :
  Forall (fun c => is_digit_or_dash c = true) (c :: s) ->
  is_digit (last (c :: s) c) = true -> is_digit c = true ->
  replace_all replacements (strip (upper (c :: s))) = c :: s.
Proof.
  intros Hall Hlast Hfirst.
  assert (Hup : upper (c :: s) = c :: s).
  { apply map_fixed. eapply Forall_impl; [|exact Hall].
    intros x Hx. exact (proj1 (digit_or_dash_char x Hx)). }
  rewrite Hup.
  assert (Hd : forall x, is_digit x = true -> is_space x = false).
  { intros x Hx. apply (digit_or_dash_char x).
    unfold is_digit_or_dash. now rewrite Hx. }
  rewrite strip_fixed.
  - rewrite (replace_all_map _ replacements_one_to_one).
    apply map_fixed. eapply Forall_impl; [|exact Hall].
    intros x Hx. exact (proj2 (proj2 (proj2 (digit_or_dash_char x Hx)))).
  - now apply Hd.
  - destruct (rev (c :: s)) as [|z t] eqn:E; [exact I|].
    apply Hd.
    assert (Hz : last (c :: s) c = z).
    { rewrite <- (rev_involutive (c :: s)), E. cbn [rev]. apply last_last. }
    now rewrite <- Hz.
Qed.

Lemma Forall2_cons_inv {A B : Type} (P : A -> B -> Prop) (a : A) (l : list A)
      (gs : list B) :
  Forall2 P (a :: l) gs ->
  exists g gs', gs = g :: gs' /\ P a g /\ Forall2 P l gs'.
Proof. intros H. inversion H; subst. eauto. Qed.

(** The month-name pattern needs a capital letter. *)
Lemma text_month_needs_letters (text : str) :
  Forall (fun c => is_upper c = false) text -> text_month_date text = None.
Proof.
  intros Hno. unfold text_month_date.
  destruct (search text_month_re text) as [m|] eqn:E; [|reflexivity].
  exfalso. apply search_sound in E as [Hcat Hall].
  unfold text_month_re in Hall.
  apply Forall2_cons_inv in Hall as (g0 & r0 & Hg0 & _ & Hall).
  apply Forall2_cons_inv in Hall as (g1 & r1 & Hg1 & _ & Hall).
  apply Forall2_cons_inv in Hall as (g2 & r2 & Hg2 & Hok & _).
  destruct Hok as (Hup & Hlen & _).
  destruct g2 as [|u g2]; [simpl in Hlen; lia|].
  assert (Hu : is_upper u = true) by (inversion Hup; assumption).
  assert (Hin : In u text).
  { rewrite <- Hcat. unfold whole. rewrite Hg0, Hg1, Hg2. cbn [List.concat].
    apply in_or_app; right. apply in_or_app; left.
    apply in_or_app; right. apply in_or_app; right.
    apply in_or_app; left. now left. }
  apply (proj1 (Forall_forall _ _) Hno) in Hin. congruence.
Qed.

(** *** The numbers of a text *)

Lemma take_while_app (p : ascii -> bool) (a : str) (sep : ascii) (rest : str) :
  Forall (fun c => p c = true) a -> p sep = false ->
  take_while p (a ++ sep :: rest) = a
  /\ drop_while p (a ++ sep :: rest) = sep :: rest.
Proof.
  intros Ha Hsep. induction Ha as [|c a Hc _ [IH1 IH2]].
  - cbn [app take_while drop_while]. now rewrite Hsep.
  - cbn [app take_while drop_while]. rewrite Hc. now rewrite IH1, IH2.
Qed.

Lemma take_while_end (p : ascii -> bool) (a : str) :
  Forall (fun c => p c = true) a ->
  take_while p a = a /\ drop_while p a = [].
Proof.
  intros Ha. induction Ha as [|c a Hc _ [IH1 IH2]]; [now split|].
  cbn [take_while drop_while]. rewrite Hc. now rewrite IH1, IH2.
Qed.

(** The first number of a text that begins with one, and of a text that
    begins with a character which is no digit. *)
Lemma scan_number (fuel : nat) (prev : option ascii) (a : str) (rest : str) :
  a <> [] -> digits a ->
  match rest with c :: _ => is_digit c = false | [] => True end ->
  map whole (scan (S fuel) number_re prev (a ++ rest))
  = a :: map whole (scan fuel number_re
                         (prev_after prev a) rest).
Proof.
  intros Hne Ha Hrest. cbn [scan]. unfold number_re. rewrite search_plus.
  destruct a as [|c a]; [contradiction|].
  inversion Ha as [|? ? Hc Ha']; subst.
  assert (Hn : neg is_digit c = false) by (unfold neg; now rewrite Hc).
  cbn [app drop_while take_while]. rewrite Hn.
  assert (Htd : take_while is_digit ((c :: a) ++ rest) = c :: a
                /\ drop_while is_digit ((c :: a) ++ rest) = rest).
  { destruct rest as [|sep rest].
    - rewrite app_nil_r. now apply take_while_end.
    - now apply take_while_app. }
  cbn [app] in Htd. destruct Htd as [Ht Hd]. rewrite Ht, Hd.
  cbn [map whole groups List.concat before after app rev].
  rewrite app_nil_r. reflexivity.
Qed.

Lemma scan_separator (fuel : nat) (prev : option ascii) (sep : ascii)
      (a rest : str) :
  is_digit sep = false -> a <> [] -> digits a ->
  match rest with c :: _ => is_digit c = false | [] => True end ->
  map whole (scan (S fuel) number_re prev (sep :: a ++ rest))
  = a :: map whole (scan fuel number_re
                         (prev_after prev (sep :: a)) rest).
Proof.
  intros Hsep Hne Ha Hrest. cbn [scan]. unfold number_re. rewrite search_plus.
  assert (Hn : neg is_digit sep = true) by (unfold neg; now rewrite Hsep).
  destruct a as [|c a]; [contradiction|].
  inversion Ha as [|? ? Hc Ha']; subst.
  assert (Hnc : neg is_digit c = false) by (unfold neg; now rewrite Hc).
  cbn [app drop_while take_while]. rewrite Hn.
  cbn [app drop_while take_while]. rewrite Hnc.
  assert (Htd : take_while is_digit ((c :: a) ++ rest) = c :: a
                /\ drop_while is_digit ((c :: a) ++ rest) = rest).
  { destruct rest as [|s' rest].
    - rewrite app_nil_r. now apply take_while_end.
    - now apply take_while_app. }
  cbn [app] in Htd. destruct Htd as [Ht Hd]. rewrite Ht, Hd.
  cbn [map whole groups List.concat before after app rev].
  rewrite app_nil_r. reflexivity.
Qed.

Lemma scan_nothing (fuel : nat) (prev : option ascii) :
  map whole (scan fuel number_re prev []) = [].
Proof. destruct fuel; reflexivity. Qed.

(** The numbers of [a-b-c]. *)
Lemma findall_three (a b c : str) :
  a <> [] -> b <> [] -> c <> [] -> digits a -> digits b -> digits c ->
  findall number_re (a ++ lit "-" ++ b ++ lit "-" ++ c) = [a; b; c].
Proof.
  intros Ha Hb Hc Da Db Dc. unfold findall.
  assert (Hfuel : exists k,
             S (List.length (a ++ lit "-" ++ b ++ lit "-" ++ c)) = S (S (S (S k)))).
  { destruct a; [contradiction|]. destruct b; [contradiction|].
    destruct c; [contradiction|].
    rewrite !length_app. cbn [List.length lit list_ascii_of_string].
    eexists. rewrite !Nat.add_succ_r. reflexivity. }
  destruct Hfuel as (k & ->).
  change (lit "-" ++ b ++ lit "-" ++ c) with ("-"%char :: b ++ "-"%char :: c).
  rewrite scan_number; [|assumption|assumption|reflexivity].
  rewrite scan_separator; [|reflexivity|assumption|assumption|reflexivity].
  rewrite <- (app_nil_r c) at 1.
  rewrite scan_separator; [|reflexivity|assumption|assumption|exact I].
  now rewrite scan_nothing.
Qed.

(** *** Strategy B on three numbers *)

Lemma str_eqb_length (a b : str) :
  List.length a <> List.length b -> str_eqb a b = false.
Proof. intros H. apply str_eqb_neq. intros ->. contradiction. Qed.

Lemma numeric_year_first (Y M D : str) :
  List.length Y = 4 -> List.length M = 2 -> List.length D = 2 ->
  digits Y -> digits M -> digits D ->
  (1900 <= int_of Y <= 2040)%N -> (1 <= int_of M <= 12)%N ->
  (1 <= int_of D <= 31)%N ->
  numeric_date (Y ++ lit "-" ++ M ++ lit "-" ++ D)
  = Some (Y ++ lit "-"
            ++ zfill 2 (str_of_int (if (int_of D <=? 12)%N then int_of D
                                    else int_of M))
            ++ lit "-"
            ++ zfill 2 (str_of_int (if (int_of D <=? 12)%N then int_of M
                                    else int_of D))).
Proof.
  intros LY LM LD DY DM DD Hy Hm Hd. unfold numeric_date.
  rewrite findall_three; try assumption;
    try (intros ->; discriminate).
  cbv zeta. cbn [List.length Nat.leb find].
  rewrite LY. cbn [Nat.eqb filter].
  rewrite str_eqb_refl, (str_eqb_length M Y), (str_eqb_length D Y) by lia.
  cbn [negb].
  assert (Hrange : negb ((1900 <=? int_of Y) && (int_of Y <=? 2040))%N = false).
  { apply negb_false_iff, andb_true_iff. split; apply N.leb_le; lia. }
  rewrite Hrange.
  assert (HM : (int_of M <=? 12)%N = true) by (apply N.leb_le; lia).
  assert (HM1 : (1 <=? int_of M)%N = true) by (apply N.leb_le; lia).
  assert (HD1 : (1 <=? int_of D)%N = true) by (apply N.leb_le; lia).
  assert (HD31 : (int_of D <=? 31)%N = true) by (apply N.leb_le; lia).
  assert (HM31 : (int_of M <=? 31)%N = true) by (apply N.leb_le; lia).
  rewrite HM.
  destruct (N.leb_spec (int_of D) 12) as [Hsmall|Hbig].
  - assert (E1 : (12 <? int_of D)%N = false) by (apply N.ltb_ge; lia).
    assert (E2 : (12 <? int_of M)%N = false) by (apply N.ltb_ge; lia).
    assert (E3 : (int_of D <=? 12)%N = true) by (apply N.leb_le; lia).
    rewrite E1, E2. cbn [andb]. rewrite HD1, E3, HM1, HM31. reflexivity.
  - assert (E1 : (12 <? int_of D)%N = true) by (apply N.ltb_lt; lia).
    rewrite E1. cbn [andb]. rewrite HM1, HM, HD1, HD31. reflexivity.
Qed.

Lemma numeric_day_first (Y M D : str) :
  List.length Y = 4 -> List.length M = 2 -> List.length D = 2 ->
  digits Y -> digits M -> digits D ->
  (1900 <= int_of Y <= 2040)%N -> (1 <= int_of M <= 12)%N ->
  (1 <= int_of D <= 31)%N ->
  numeric_date (D ++ lit "-" ++ M ++ lit "-" ++ Y)
  = Some (Y ++ lit "-" ++ zfill 2 (str_of_int (int_of M))
            ++ lit "-" ++ zfill 2 (str_of_int (int_of D))).
Proof.
  intros LY LM LD DY DM DD Hy Hm Hd. unfold numeric_date.
  rewrite findall_three; try assumption;
    try (intros ->; discriminate).
  cbv zeta. cbn [List.length Nat.leb find].
  rewrite LD, LM, LY. cbn [Nat.eqb filter].
  rewrite str_eqb_refl, (str_eqb_length M Y), (str_eqb_length D Y) by lia.
  cbn [negb].
  assert (Hrange : negb ((1900 <=? int_of Y) && (int_of Y <=? 2040))%N = false).
  { apply negb_false_iff, andb_true_iff. split; apply N.leb_le; lia. }
  rewrite Hrange.
  assert (HM : (int_of M <=? 12)%N = true) by (apply N.leb_le; lia).
  assert (HM1 : (1 <=? int_of M)%N = true) by (apply N.leb_le; lia).
  assert (HD1 : (1 <=? int_of D)%N = true) by (apply N.leb_le; lia).
  assert (HD31 : (int_of D <=? 31)%N = true) by (apply N.leb_le; lia).
  assert (E2 : (12 <? int_of M)%N = false) by (apply N.ltb_ge; lia).
  rewrite E2. cbn [andb].
  destruct (12 <? int_of D)%N; rewrite ?HM; cbn [andb];
    rewrite HM1, HM, HD1, HD31; reflexivity.
Qed.

Lemma digit_or_dash_app (a b : str) :
  Forall (fun c => is_digit_or_dash c = true) a ->
  Forall (fun c => is_digit_or_dash c = true) b ->
  Forall (fun c => is_digit_or_dash c = true) (a ++ lit "-" ++ b).
Proof.
  intros Ha Hb. apply Forall_app. split; [assumption|].
  constructor; [reflexivity|assumption].
Qed.

Lemma digits_or_dash (a : str) :
  digits a -> Forall (fun c => is_digit_or_dash c = true) a.
Proof.
  apply Forall_impl. intros c Hc. unfold is_digit_or_dash. now rewrite Hc.
Qed.

Lemma dashed_date (a b c : str) :
  a <> [] -> c <> [] -> digits a -> digits b -> digits c ->
  standardize_date (Some (a ++ lit "-" ++ b ++ lit "-" ++ c))
  = numeric_date (a ++ lit "-" ++ b ++ lit "-" ++ c).
Proof.
  intros Ha Hc Da Db Dc.
  set (text := a ++ lit "-" ++ b ++ lit "-" ++ c).
  assert (Hall : Forall (fun c => is_digit_or_dash c = true) text).
  { apply digit_or_dash_app; [now apply digits_or_dash|].
    apply digit_or_dash_app; now apply digits_or_dash. }
  destruct a as [|a0 a]; [contradiction|].
  assert (Hlast : is_digit (last text a0) = true).
  { unfold text. rewrite !app_assoc.
    destruct c as [|c0 c] using rev_ind; [contradiction|].
    rewrite app_assoc, last_last.
    apply (proj1 (Forall_forall _ _) Dc). apply in_or_app. right. now left. }
  assert (Hfirst : is_digit a0 = true) by now inversion Da.
  unfold standardize_date.
  change text with (a0 :: (a ++ lit "-" ++ b ++ lit "-" ++ c)) in *.
  rewrite (cleanup_fixed _ _ Hall Hlast Hfirst).
  rewrite text_month_needs_letters; [reflexivity|].
  eapply Forall_impl; [|exact Hall].
  intros x Hx. exact (proj1 (proj2 (proj2 (digit_or_dash_char x Hx)))).
Qed.

Lemma dashed_dates (y m d : N) :
  (1900 <= y <= 2040)%N -> (1 <= m <= 12)%N -> (1 <= d <= 31)%N ->
  standardize_date (Some (day_first y m d)) = Some (iso y m d)
  /\ standardize_date (Some (iso y m d))
     = Some (if (d <=? 12)%N then iso y d m else iso y m d).
Proof.
  intros Hy Hm Hd.
  destruct (year_digits y Hy) as (LY & DY & IY).
  destruct (two_digits m) as (LM & DM & IM); [lia|].
  destruct (two_digits d) as (LD & DD & ID); [lia|].
  cbv zeta in *. unfold day_first, iso.
  set (Y := zfill 4 (str_of_int y)) in *.
  set (M := zfill 2 (str_of_int m)) in *.
  set (D := zfill 2 (str_of_int d)) in *.
  assert (NY : Y <> []) by (intros E; rewrite E in LY; discriminate).
  assert (NM : M <> []) by (intros E; rewrite E in LM; discriminate).
  assert (ND : D <> []) by (intros E; rewrite E in LD; discriminate).
  split.
  - rewrite dashed_date by assumption.
    rewrite numeric_day_first; try assumption; rewrite ?IY, ?IM, ?ID;
      try lia.
    reflexivity.
  - rewrite dashed_date by assumption.
    rewrite numeric_year_first; try assumption; rewrite ?IY, ?IM, ?ID;
      try lia.
    destruct (d <=? 12)%N; reflexivity.
Qed.

(** A numeric date is read day first, wherever the year stands: a date
    written day-month-year comes out as year-month-day, and a date that
    is already written year-month-day comes out unchanged only when its
    day is above 12; with a day of 12 or less the month and the day change
    places. *)
Theorem standardize_date_reads_day_first (y m d : N) :
  (1900 <= y <= 2040)%N -> (1 <= m <= 12)%N -> (1 <= d <= 31)%N ->
  standardize_date (Some (day_first y m d)) = Some (iso y m d)
  /\ standardize_date (Some (iso y m d))
     = Some (if (d <=? 12)%N then iso y d m else iso y m d).
Proof. exact (dashed_dates y m d). Qed.

Lemma standardize_date_reads_day_first_witness :
  standardize_date (Some (lit "05-03-1990")) = Some (lit "1990-03-05")
  /\ standardize_date (Some (lit "1990-03-05")) = Some (lit "1990-05-03").
Proof.
  apply (standardize_date_reads_day_first 1990 3 5); lia.
Defined.

(** *** The shape of every result *)

Lemma is_iso_date_intro (y m d : str) :
  List.length y = 4 -> List.length m = 2 -> List.length d = 2 ->
  digits y -> digits m -> digits d -> (1 <= int_of m <= 12)%N ->
  is_iso_date (y ++ lit "-" ++ m ++ lit "-" ++ d) = true.
Proof.
  intros LY LM LD DY DM DD Hm.
  destruct y as [|y1 [|y2 [|y3 [|y4 [|? ?]]]]]; try discriminate.
  destruct m as [|m1 [|m2 [|? ?]]]; try discriminate.
  destruct d as [|d1 [|d2 [|? ?]]]; try discriminate.
  inversion DY as [|? ? Hy1 DY1]; inversion DY1 as [|? ? Hy2 DY2];
    inversion DY2 as [|? ? Hy3 DY3]; inversion DY3 as [|? ? Hy4 _].
  inversion DM as [|? ? Hm1 DM1]; inversion DM1 as [|? ? Hm2 _].
  inversion DD as [|? ? Hd1 DD1]; inversion DD1 as [|? ? Hd2 _].
  cbn [app lit list_ascii_of_string is_iso_date forallb].
  rewrite Hy1, Hy2, Hy3, Hy4, Hm1, Hm2, Hd1, Hd2. cbn [andb Ascii.eqb Bool.eqb].
  apply andb_true_iff. split; apply N.leb_le; lia.
Qed.

Lemma zfill_day (d : str) :
  digits d -> 1 <= List.length d <= 2 ->
  List.length (zfill 2 d) = 2 /\ digits (zfill 2 d).
Proof.
  intros Dd Hlen. destruct d as [|d1 [|d2 [|? ?]]]; cbn [List.length] in Hlen;
    try lia; cbn; (split; [reflexivity|]).
  - constructor; [reflexivity|assumption].
  - assumption.
Qed.

Lemma month_map_months (kv : string * string) :
  In kv month_map ->
  List.length (lit (snd kv)) = 2 /\ digits (lit (snd kv))
  /\ (1 <= int_of (lit (snd kv)) <= 12)%N.
Proof.
  intros Hin.
  assert (H : forallb (fun kv : string * string =>
                         (List.length (lit (snd kv)) =? 2)
                         && forallb is_digit (lit (snd kv))
                         && (1 <=? int_of (lit (snd kv)))%N
                         && (int_of (lit (snd kv)) <=? 12)%N) month_map = true)
    by reflexivity.
  rewrite forallb_forall in H. apply H in Hin.
  apply andb_true_iff in Hin as [Hin H4]. apply andb_true_iff in Hin as [Hin H3].
  apply andb_true_iff in Hin as [H1 H2].
  apply Nat.eqb_eq in H1. apply N.leb_le in H3, H4.
  split; [assumption|]. split; [|lia].
  apply Forall_forall. now apply forallb_forall.
Qed.

Lemma text_month_shape (text r : str) :
  text_month_date text = Some r -> is_iso_date r = true.
Proof.
  unfold text_month_date.
  destruct (search text_month_re text) as [m|] eqn:E; [|discriminate].
  apply search_sound in E as [_ Hall]. unfold text_month_re in Hall.
  apply Forall2_cons_inv in Hall as (g0 & r0 & Hg0 & Hok0 & Hall).
  apply Forall2_cons_inv in Hall as (g1 & r1 & Hg1 & _ & Hall).
  apply Forall2_cons_inv in Hall as (g2 & r2 & Hg2 & _ & Hall).
  apply Forall2_cons_inv in Hall as (g3 & r3 & Hg3 & _ & Hall).
  apply Forall2_cons_inv in Hall as (g4 & r4 & Hg4 & Hok4 & _).
  unfold group. rewrite Hg0, Hg1, Hg2, Hg3, Hg4. cbn [nth].
  destruct (find _ month_map) as [kv|] eqn:Hf; [|discriminate].
  apply find_some in Hf as [Hin _].
  destruct (month_map_months kv Hin) as (LM & DM & HM).
  destruct Hok0 as (D0 & Hlo0 & Hhi0). destruct Hok4 as (D4 & Hlo4 & Hhi4).
  destruct (zfill_day g0 D0) as [LD DD]; [lia|].
  intros H. assert (Er : r = g4 ++ lit "-" ++ lit (snd kv) ++ lit "-" ++ zfill 2 g0)
    by congruence.
  rewrite Er. apply is_iso_date_intro; try assumption. lia.
Qed.

(** Every number [findall] reads off a text is a run of digits. *)
Lemma findall_digits (text : str) :
  Forall digits (findall number_re text).
Proof.
  unfold findall. apply Forall_map.
  eapply Forall_impl; [|apply scan_sound].
  intros m Hall. unfold number_re in Hall.
  apply Forall2_cons_inv in Hall as (g & r & Hg & Hok & Hnil).
  inversion Hnil; subst. unfold whole. rewrite Hg. cbn [List.concat].
  rewrite app_nil_r. exact (proj1 Hok).
Qed.

Lemma numeric_shape (text r : str) :
  numeric_date text = Some r -> is_iso_date r = true.
Proof.
  unfold numeric_date. cbv zeta.
  pose proof (findall_digits text) as Hnums.
  destruct (3 <=? List.length (findall number_re text)); [|discriminate].
  match goal with
  | |- context [find ?f ?l] => destruct (find f l) as [year|] eqn:Hf
  end; [|discriminate].
  apply find_some in Hf as [Hin Hlen]. apply Nat.eqb_eq in Hlen.
  assert (DY : digits year) by exact (proj1 (Forall_forall _ _) Hnums _ Hin).
  match goal with
  | |- context [filter ?f ?l] => destruct (filter f l) as [|o1 [|o2 others]]
  end; try discriminate.
  match goal with
  | |- context [negb ?b] => destruct (negb b)
  end; [discriminate|].
  set (n1 := int_of o1). set (n2 := int_of o2).
  destruct (if ((12 <? n2) && (n1 <=? 12))%N then (n1, n2)
            else if ((12 <? n1) && (n2 <=? 12))%N then (n2, n1) else (n2, n1))
    as [month day].
  destruct ((1 <=? month) && (month <=? 12) && (1 <=? day) && (day <=? 31))%N
    eqn:Hok; [|discriminate].
  apply andb_true_iff in Hok as [Hok H4]. apply andb_true_iff in Hok as [Hok H3].
  apply andb_true_iff in Hok as [H1 H2].
  apply N.leb_le in H1, H2, H3, H4.
  destruct (two_digits month) as (LM & DM & IM); [lia|].
  destruct (two_digits day) as (LD & DD & _); [lia|].
  cbv zeta in *.
  intros H.
  assert (Er : r = year ++ lit "-" ++ zfill 2 (str_of_int month)
                      ++ lit "-" ++ zfill 2 (str_of_int day)) by congruence.
  rewrite Er. apply is_iso_date_intro; try assumption. rewrite IM. lia.
Qed.

Lemma standardize_date_shape (raw_text : option str) (r : str) :
  standardize_date raw_text = Some r -> is_iso_date r = true.
Proof.
  unfold standardize_date. destruct raw_text as [[|c raw]|]; try discriminate.
  cbv zeta.
  destruct (text_month_date _) as [r0|] eqn:E.
  - intros H. assert (Er : r0 = r) by congruence. rewrite <- Er.
    exact (text_month_shape _ _ E).
  - apply numeric_shape.
Qed.

(** Whatever [standardize_date] returns has the shape dddd-dd-dd, with a
    month between 01 and 12. The month-name strategy checks neither the
    day nor the year: "00 JAN 0000" gives "0000-01-00". *)
Theorem standardize_date_gives_iso_shape (raw_text : option str) (r : str) :
  (standardize_date raw_text = Some r -> is_iso_date r = true)
  /\ standardize_date (Some (lit "00 JAN 0000")) = Some (lit "0000-01-00")
  /\ standardize_date (Some (lit "99 DES 2020")) = Some (lit "2020-12-99").
Proof.
  split; [apply standardize_date_shape|split; reflexivity].
Qed.

Lemma standardize_date_gives_iso_shape_witness :
  standardize_date (Some (lit "Lahir: 7 - Agustus - 1995")) = Some (lit "1995-08-07")
  /\ is_iso_date (lit "1995-08-07") = true.
Proof.
  assert (H : standardize_date (Some (lit "Lahir: 7 - Agustus - 1995"))
              = Some (lit "1995-08-07")) by (vm_compute; reflexivity).
  split; [exact H|].
  exact (proj1 (standardize_date_gives_iso_shape _ _) H).
Defined.

End DateFacts.

Module EntryFacts.
Import Re ReFacts Text TextFacts Cleaner Dates DateFacts Entries EntryScenarios.

(** Decides that a column is none of the listed ones. *)
Ltac not_listed :=
  cbv [cleaned_columns date_columns In];
  let E := fresh "E" in
  intros E; repeat (destruct E as [E|E]; [discriminate E|]); exact E.

Lemma set_field_at (it : Item) (f g : field) (v : str) :
  set_field it f v g = if field_beq g f then v else it g.
Proof. reflexivity. Qed.

Lemma on_at (g : str -> str) (f f' : field) (e : Item) :
  g [] = [] ->
  on f g e f' = if field_beq f' f then g (e f) else e f'.
Proof.
  intros Hg. unfold on. destruct (e f) as [|c s] eqn:E; cbn [truthy].
  - destruct (field_beq f' f) eqn:Ef; [|reflexivity].
    apply field_beq_eq in Ef. subst. now rewrite Hg.
  - reflexivity.
Qed.

Lemma standardized_or_same_nil : standardized_or_same [] = [].
Proof. reflexivity. Qed.

Lemma standardized_or_same_cases (x : str) :
  (standardized_or_same x = [] <-> x = [])
  /\ (standardized_or_same x = x \/ is_iso_date (standardized_or_same x) = true).
Proof.
  unfold standardized_or_same.
  destruct (standardize_date (Some x)) as [r|] eqn:E.
  - destruct r as [|c r]; cbn [truthy].
    + split; [tauto|now left].
    + split.
      * split; [discriminate|]. intros ->. discriminate.
      * right. exact (standardize_date_shape _ _ E).
  - split; [tauto|now left].
Qed.

(** The part of [clean_entry] after the name: four dates and the place. *)
Lemma polish_at (e : Item) (f : field) :
  on tempat_lahir (fun s => strip (upper s))
     (on tanggal_visa_akhir standardized_or_same
         (on tanggal_visa standardized_or_same
             (on tanggal_paspor standardized_or_same
                 (on tanggal_lahir standardized_or_same e)))) f
  = match f with
    | tanggal_lahir | tanggal_paspor | tanggal_visa | tanggal_visa_akhir =>
        standardized_or_same (e f)
    | tempat_lahir => strip (upper (e f))
    | _ => e f
    end.
Proof.
  rewrite !on_at by reflexivity.
  destruct f; reflexivity.
Qed.

Lemma no_other_data (a b c d e f : bool) :
  negb (a || b || c) && negb (d || e) && negb f
  = negb (a || b || c || d || e || f).
Proof. destruct a, b, c, d, e, f; reflexivity. Qed.

(** [clean_entry], by what decides: whether the entry has document data,
    whether it has a name, and whether the cleaned name is too short or
    holds a header word. *)
Lemma clean_entry_cases (entry : Item) :
  clean_entry entry =
  let has_name := truthy (entry nama) && truthy (strip (entry nama)) in
  let name := clean_name (entry nama) in
  let bad := (List.length name <? 3)
             || existsb (fun w : string => contains w name) entry_blacklist in
  let polish (e : Item) :=
    on tempat_lahir (fun s => strip (upper s))
       (on tanggal_visa_akhir standardized_or_same
           (on tanggal_visa standardized_or_same
               (on tanggal_paspor standardized_or_same
                   (on tanggal_lahir standardized_or_same e)))) in
  if has_document_data entry then
    Some (polish (if has_name
                  then set_field entry nama (if bad then [] else name)
                  else entry))
  else if has_name && negb bad then Some (polish (set_field entry nama name))
  else None.
Proof.
  unfold clean_entry. cbv zeta.
  rewrite no_other_data. fold (has_document_data entry).
  destruct (has_document_data entry).
  - cbn [negb]. rewrite !andb_false_r.
    destruct (truthy (entry nama) && truthy (strip (entry nama)));
      [|reflexivity].
    destruct (List.length (clean_name (entry nama)) <? 3); cbn [orb];
      [reflexivity|].
    destruct (existsb _ entry_blacklist); reflexivity.
  - cbn [negb]. rewrite !andb_true_r.
    destruct (truthy (entry nama) && truthy (strip (entry nama)));
      cbn [negb andb]; [|reflexivity].
    destruct (List.length (clean_name (entry nama)) <? 3); cbn [orb negb];
      [reflexivity|].
    destruct (existsb _ entry_blacklist); reflexivity.
Qed.

Lemma has_name_blank (entry : Item) :
  truthy (entry nama) && truthy (strip (entry nama)) = false ->
  strip (entry nama) = [].
Proof.
  destruct (entry nama) as [|c s] eqn:E; [reflexivity|]. cbn [truthy andb].
  destruct (strip (c :: s)); [reflexivity|discriminate].
Qed.

Lemma not_bad (name : str) :
  (List.length name <? 3)
  || existsb (fun w : string => contains w name) entry_blacklist = false ->
  3 <= List.length name
  /\ Forall (fun w : string => contains w name = false) entry_blacklist.
Proof.
  intros H. apply orb_false_iff in H as [Hlen Hbl].
  apply Nat.ltb_ge in Hlen. split; [assumption|].
  apply Forall_forall. intros w Hw.
  destruct (contains w name) eqn:E; [|reflexivity].
  assert (existsb (fun w : string => contains w name) entry_blacklist = true)
    by (apply existsb_exists; eauto).
  congruence.
Qed.

Lemma clean_entry_columns (entry e' : Item) :
  clean_entry entry = Some e' ->
  (forall f, ~ In f cleaned_columns -> e' f = entry f)
  /\ (forall f, In f date_columns ->
        e' f = standardized_or_same (entry f)
        /\ (e' f = [] <-> entry f = [])
        /\ (e' f = entry f \/ is_iso_date (e' f) = true))
  /\ e' tempat_lahir = strip (upper (entry tempat_lahir))
  /\ ((e' nama = entry nama /\ strip (entry nama) = [])
      \/ (e' nama = [] /\ has_document_data entry = true)
      \/ (e' nama = clean_name (entry nama)
          /\ 3 <= List.length (e' nama)
          /\ Forall (fun w : string => contains w (e' nama) = false)
                    entry_blacklist)).
Proof.
  rewrite clean_entry_cases. cbv zeta.
  set (has_name := truthy (entry nama) && truthy (strip (entry nama))).
  set (name := clean_name (entry nama)).
  set (bad := (List.length name <? 3)
              || existsb (fun w : string => contains w name) entry_blacklist).
  intros H.
  assert (Hshape : exists e0 : Item,
             (forall f, e' f = match f with
                               | tanggal_lahir | tanggal_paspor | tanggal_visa
                               | tanggal_visa_akhir => standardized_or_same (e0 f)
                               | tempat_lahir => strip (upper (e0 f))
                               | _ => e0 f
                               end)
             /\ (forall f, f <> nama -> e0 f = entry f)
             /\ ((e0 nama = entry nama /\ strip (entry nama) = [])
                 \/ (e0 nama = [] /\ has_document_data entry = true)
                 \/ (e0 nama = name /\ bad = false))).
  { destruct (has_document_data entry) eqn:Hdata.
    - destruct has_name eqn:Hn.
      + exists (set_field entry nama (if bad then [] else name)).
        split; [intros f; injection H as <-; apply polish_at|].
        split; [intros f Hf; rewrite set_field_at;
                now rewrite (field_beq_neq f nama Hf)|].
        rewrite set_field_at. cbn [field_beq].
        destruct bad; [right; left|right; right]; split; reflexivity.
      + exists entry.
        split; [intros f; injection H as <-; apply polish_at|].
        split; [reflexivity|]. left. split; [reflexivity|].
        now apply has_name_blank.
    - destruct has_name; [|discriminate]. destruct bad eqn:Hbad; [discriminate|].
      cbn [negb andb] in H. exists (set_field entry nama name).
      split; [intros f; injection H as <-; apply polish_at|].
      split; [intros f Hf; rewrite set_field_at;
              now rewrite (field_beq_neq f nama Hf)|].
      right; right. split; reflexivity. }
  clear H. destruct Hshape as (e0 & He' & Hframe & Hname).
  split; [|split; [|split]].
  - intros f Hout. rewrite He'.
    assert (Hf : f <> nama) by (intros ->; apply Hout; now left).
    destruct f; try (apply Hframe; exact Hf);
      exfalso; apply Hout; cbn; tauto.
  - intros f Hin.
    assert (Hf : f <> nama)
      by (intros ->; cbn in Hin; intuition discriminate).
    assert (E : e' f = standardized_or_same (entry f)).
    { rewrite He', <- (Hframe f Hf). cbn in Hin.
      destruct Hin as [<-|[<-|[<-|[<-|[]]]]]; reflexivity. }
    rewrite E. split; [reflexivity|]. apply standardized_or_same_cases.
  - rewrite He'. now rewrite Hframe by discriminate.
  - rewrite He'. destruct Hname as [[E1 E2]|[[E1 E2]|[E1 E2]]].
    + left. now split.
    + right; left. now split.
    + right; right. rewrite E1. split; [reflexivity|]. now apply not_bad.
Qed.

(** What [clean_entry] returns, column by column. The columns outside
    the name, the place and the four dates are the entry's. A date is
    what [standardize_date] makes of it, or the date itself when that
    gives nothing: it is empty exactly when it was, and it is unchanged
    or of the shape dddd-dd-dd. The place is the entry's, in capitals and
    stripped. The name is the entry's when that is empty or blank; else
    it is the cleaned name, of three characters or more and without
    header word, or it is emptied, which only happens to an entry that
    has document data. *)
Theorem clean_entry_result (entry e' : Item) :
  clean_entry entry = Some e' ->
  (forall f, ~ In f cleaned_columns -> e' f = entry f)
  /\ (forall f, In f date_columns ->
        e' f = standardized_or_same (entry f)
        /\ (e' f = [] <-> entry f = [])
        /\ (e' f = entry f \/ is_iso_date (e' f) = true))
  /\ e' tempat_lahir = strip (upper (entry tempat_lahir))
  /\ ((e' nama = entry nama /\ strip (entry nama) = [])
      \/ (e' nama = [] /\ has_document_data entry = true)
      \/ (e' nama = clean_name (entry nama)
          /\ 3 <= List.length (e' nama)
          /\ Forall (fun w : string => contains w (e' nama) = false)
                    entry_blacklist)).
Proof. apply clean_entry_columns. Qed.

(** Cleaning neither adds nor removes document data. *)
Lemma clean_entry_documents (entry e' : Item) :
  clean_entry entry = Some e' ->
  has_document_data e' = has_document_data entry.
Proof.
  intros E. destruct (clean_entry_columns _ _ E) as (Hframe & Hdates & _).
  assert (Hv : e' no_visa = entry no_visa)
    by (apply Hframe; not_listed).
  assert (Hp : e' provider_visa = entry provider_visa)
    by (apply Hframe; not_listed).
  assert (Hn : e' no_paspor = entry no_paspor)
    by (apply Hframe; not_listed).
  assert (Hi : e' no_identitas = entry no_identitas)
    by (apply Hframe; not_listed).
  assert (Htv : truthy (e' tanggal_visa) = truthy (entry tanggal_visa)).
  { destruct (Hdates tanggal_visa) as (_ & Hnil & _); [cbn; tauto|].
    destruct (e' tanggal_visa), (entry tanggal_visa); try reflexivity.
    - discriminate (proj1 Hnil eq_refl).
    - discriminate (proj2 Hnil eq_refl). }
  assert (Htp : truthy (e' tanggal_paspor) = truthy (entry tanggal_paspor)).
  { destruct (Hdates tanggal_paspor) as (_ & Hnil & _); [cbn; tauto|].
    destruct (e' tanggal_paspor), (entry tanggal_paspor); try reflexivity.
    - discriminate (proj1 Hnil eq_refl).
    - discriminate (proj2 Hnil eq_refl). }
  unfold has_document_data. now rewrite Hv, Hp, Hn, Hi, Htv, Htp.
Qed.

(** What [clean_entry] keeps has a name or document data. *)
Lemma clean_entry_worth (entry e' : Item) :
  clean_entry entry = Some e' ->
  truthy (e' nama) || has_document_data e' = true.
Proof.
  intros E. rewrite (clean_entry_documents _ _ E).
  destruct (has_document_data entry) eqn:Hdata; [apply orb_true_r|].
  rewrite orb_false_r.
  destruct (clean_entry_columns _ _ E) as (_ & _ & _ & Hname).
  destruct Hname as [[_ Hblank]|[[_ Hd]|(_ & Hlen & _)]].
  - rewrite clean_entry_cases in E. cbv zeta in E. rewrite Hdata, Hblank in E.
    cbn [truthy] in E. rewrite andb_false_r in E. discriminate.
  - congruence.
  - destruct (e' nama); [cbn [List.length] in Hlen; lia|reflexivity].
Qed.

(** An entry that carries a visa number, a visa date, a provider, a
    passport number, a passport date or an identity number is never
    dropped, whatever its name, and comes out with such data; an entry
    with none of them and with an empty or blank name is dropped. *)
Theorem clean_entry_keeps_documents (entry : Item) :
  (has_document_data entry = true ->
   exists e', clean_entry entry = Some e' /\ has_document_data e' = true)
  /\ (has_document_data entry = false -> strip (entry nama) = [] ->
      clean_entry entry = None).
Proof.
  split.
  - intros Hdata.
    destruct (clean_entry entry) as [e'|] eqn:E.
    + exists e'. split; [reflexivity|].
      now rewrite (clean_entry_documents _ _ E).
    + rewrite clean_entry_cases in E. cbv zeta in E. rewrite Hdata in E.
      discriminate.
  - intros Hdata Hblank. rewrite clean_entry_cases. cbv zeta. rewrite Hdata.
    rewrite Hblank. cbn [truthy]. now rewrite andb_false_r.
Qed.

Lemma truthy_iso (y m d : N) : truthy (iso y m d) = true.
Proof.
  unfold iso. destruct (zfill 4 (str_of_int y)); reflexivity.
Qed.

(** Cleaning is not idempotent on dates: an entry whose date is written
    day-month-year with a day of 12 or less comes out with the date as
    year-month-day, and cleaning the result once more exchanges the month
    and the day. *)
Theorem cleaning_twice_swaps_day_and_month
        (entry e1 e2 : Item) (f : field) (y m d : N) :
  In f date_columns ->
  (1900 <= y <= 2040)%N -> (1 <= m <= 12)%N -> (1 <= d <= 12)%N ->
  entry f = day_first y m d ->
  clean_entry entry = Some e1 -> clean_entry e1 = Some e2 ->
  e1 f = iso y m d /\ e2 f = iso y d m.
Proof.
  intros Hf Hy Hm Hd Hdate H1 H2.
  destruct (dashed_dates y m d) as [Hfirst Hiso]; [lia|lia|lia|].
  assert (Hsmall : (d <=? 12)%N = true) by (apply N.leb_le; lia).
  rewrite Hsmall in Hiso.
  destruct (clean_entry_columns _ _ H1) as (_ & Hd1 & _).
  destruct (clean_entry_columns _ _ H2) as (_ & Hd2 & _).
  destruct (Hd1 f Hf) as [E1 _]. destruct (Hd2 f Hf) as [E2 _].
  assert (R1 : e1 f = iso y m d).
  { rewrite E1, Hdate. unfold standardized_or_same.
    now rewrite Hfirst, truthy_iso. }
  split; [exact R1|].
  rewrite E2, R1. unfold standardized_or_same. now rewrite Hiso, truthy_iso.
Qed.

Lemma clean_entry_result_witness :
  cleaned garbled_visa_row tempat_lahir = lit "PATI"
  /\ cleaned garbled_visa_row tanggal_lahir = lit "1990-03-05"
  /\ cleaned garbled_visa_row no_visa = lit "6012345678"
  /\ (cleaned garbled_visa_row nama = []
      /\ has_document_data garbled_visa_row = true).
Proof.
  assert (H : clean_entry garbled_visa_row = Some (cleaned garbled_visa_row))
    by (vm_compute; reflexivity).
  destruct (clean_entry_result _ _ H) as (Hframe & Hdates & Hplace & Hname).
  split; [rewrite Hplace; reflexivity|].
  split; [rewrite (proj1 (Hdates tanggal_lahir (or_introl eq_refl)));
          vm_compute; reflexivity|].
  split; [rewrite Hframe; [reflexivity|not_listed]|].
  split; reflexivity.
Defined.

Lemma clean_entry_keeps_documents_witness :
  (exists e', clean_entry garbled_visa_row = Some e'
              /\ has_document_data e' = true)
  /\ clean_entry blank_item = None.
Proof.
  split.
  - apply (proj1 (clean_entry_keeps_documents garbled_visa_row)). reflexivity.
  - apply (proj2 (clean_entry_keeps_documents blank_item)); reflexivity.
Defined.

Lemma cleaning_twice_swaps_day_and_month_witness :
  cleaned garbled_visa_row tanggal_lahir = lit "1990-03-05"
  /\ cleaned (cleaned garbled_visa_row) tanggal_lahir = lit "1990-05-03".
Proof.
  apply (cleaning_twice_swaps_day_and_month
           garbled_visa_row (cleaned garbled_visa_row)
           (cleaned (cleaned garbled_visa_row)) tanggal_lahir 1990 3 5).
  - now left.
  - lia.
  - lia.
  - lia.
  - reflexivity.
  - vm_compute; reflexivity.
  - vm_compute; reflexivity.
Defined.

End EntryFacts.

Module MergingFacts.
Import Cleaner MergeFacts ConsolidateFacts Merging Scenarios.

Lemma subsequence_refl {A : Type} (l : list A) : subsequence l l.
Proof. induction l; constructor; assumption. Qed.

Lemma subsequence_length {A : Type} (l big : list A) :
  subsequence l big -> List.length l <= List.length big.
Proof. induction 1; simpl; lia. Qed.

Lemma subsequence_in {A : Type} (l big : list A) (x : A) :
  subsequence l big -> In x l -> In x big.
Proof.
  induction 1 as [|y l big _ IH|y l big _ IH]; intros Hin; [assumption| |].
  - right. now apply IH.
  - destruct Hin as [->|Hin]; [now left|right; now apply IH].
Qed.

Lemma consolidate_ext (it it' : Item) :
  (forall f, it' f = it f) -> forall f, consolidate it' f = consolidate it f.
Proof.
  intros E f. unfold consolidate, is_passport_type. rewrite !E.
  repeat match goal with
         | |- context [if ?b then _ else _] => destruct b
         end; unfold set_field; rewrite ?E; reflexivity.
Qed.

Section Loop.

Variable ratio_above : str -> str -> bool.

Lemma is_similar_nameless (n : str) :
  is_similar ratio_above n [] = false /\ is_similar ratio_above [] n = false.
Proof.
  unfold is_similar. split; [|reflexivity].
  destruct n; reflexivity.
Qed.

Lemma is_similar_same (n : str) :
  n <> [] -> is_similar ratio_above n n = true.
Proof.
  intros Hn. unfold is_similar. destruct n as [|c n]; [contradiction|].
  cbn [truthy negb orb]. now rewrite str_eqb_refl.
Qed.

(** The loop lists objects in the order in which they were first seen. *)
Lemma merge_loop_subsequence :
  forall (data_list consolidated : list ref) (h : heap),
  exists kept,
    snd (merge_loop ratio_above h consolidated data_list) = consolidated ++ kept
    /\ subsequence kept data_list.
Proof.
  induction data_list as [|new_item rest IH]; intros consolidated h.
  - exists []. cbn [merge_loop snd]. rewrite app_nil_r. split; constructor.
  - cbn [merge_loop].
    destruct (find _ consolidated) as [existing|].
    + destruct (IH consolidated (merge_into h existing new_item))
        as (kept & E & Hsub).
      exists kept. split; [assumption|now constructor].
    + destruct (IH (consolidated ++ [new_item]) h) as (kept & E & Hsub).
      exists (new_item :: kept). rewrite E, <- app_assoc.
      split; [reflexivity|now constructor].
Qed.

(** A merge writes to the matched object only. *)
Lemma fill_fold_elsewhere (new_dict : Item) (existing r : ref) :
  r <> existing ->
  forall (fs : list field) (h : heap) (f : field),
    fold_left
      (fun h g =>
         if negb (truthy (h existing g)) && truthy (new_dict g)
         then set_attr h existing g (new_dict g) else h) fs h r f
    = h r f.
Proof.
  intros Hr. induction fs as [|g fs IH]; intros h f; [reflexivity|].
  cbn [fold_left]. rewrite IH.
  destruct (negb (truthy (h existing g)) && truthy (new_dict g));
    [|reflexivity].
  apply set_attr_frame. now left.
Qed.

Lemma merge_name_elsewhere (h : heap) (existing new_item r : ref) (f : field) :
  r <> existing -> merge_name h existing new_item r f = h r f.
Proof.
  intros Hr. unfold merge_name.
  repeat match goal with
         | |- context [if ?b then _ else _] => destruct b
         end; try reflexivity; apply set_attr_frame; now left.
Qed.

Lemma merge_into_elsewhere (h : heap) (existing new_item r : ref) (f : field) :
  r <> existing -> merge_into h existing new_item r f = h r f.
Proof.
  intros Hr. unfold merge_into, fill_missing.
  rewrite fill_fold_elsewhere by assumption.
  now apply merge_name_elsewhere.
Qed.

(** The name a merge leaves on the matched object. *)
Lemma merge_name_at (h : heap) (existing new_item : ref) :
  merge_name h existing new_item existing nama
  = if contains (lit " ") (h new_item nama)
       && negb (contains (lit " ") (h existing nama))
    then h new_item nama
    else if Bool.eqb (contains (lit " ") (h new_item nama))
                     (contains (lit " ") (h existing nama))
            && (List.length (h existing nama) <? List.length (h new_item nama))
            && negb (contains (lit "KKK") (h new_item nama))
         then h new_item nama
         else h existing nama.
Proof.
  unfold merge_name.
  destruct (contains (lit " ") (h new_item nama)
            && negb (contains (lit " ") (h existing nama))).
  - unfold set_attr. now rewrite store_same, set_field_same.
  - destruct (Bool.eqb _ _); cbn [andb]; [|reflexivity].
    destruct ((List.length (h existing nama) <? List.length (h new_item nama))
              && negb (contains (lit "KKK") (h new_item nama))) eqn:E.
    + unfold set_attr. now rewrite store_same, set_field_same.
    + reflexivity.
Qed.

Lemma merge_name_new_item (h : heap) (existing new_item : ref) :
  merge_name h existing new_item new_item nama = h new_item nama
  \/ new_item = existing.
Proof.
  destruct (Nat.eq_dec new_item existing) as [->|Hne]; [now right|left].
  now apply merge_name_elsewhere.
Qed.

Lemma merge_into_name (h : heap) (existing new_item : ref) :
  merge_into h existing new_item existing nama
  = if truthy (merge_name h existing new_item existing nama)
    then merge_name h existing new_item existing nama
    else merge_name h existing new_item new_item nama.
Proof.
  unfold merge_into, fill_missing.
  rewrite fill_fold_at; [reflexivity|apply all_fields_NoDup|].
  apply all_fields_complete.
Qed.

(** *** Records without a name *)

Lemma merge_loop_nameless (r : ref) :
  forall (data_list consolidated : list ref) (h : heap),
    h r nama = [] ->
    (forall f, fst (merge_loop ratio_above h consolidated data_list) r f = h r f)
    /\ count_occ Nat.eq_dec
                 (snd (merge_loop ratio_above h consolidated data_list)) r
       = count_occ Nat.eq_dec consolidated r + count_occ Nat.eq_dec data_list r.
Proof.
  induction data_list as [|new_item rest IH]; intros consolidated h Hr.
  - cbn [merge_loop fst snd count_occ]. split; [reflexivity|lia].
  - cbn [merge_loop].
    destruct (find _ consolidated) as [existing|] eqn:Hfind.
    + apply find_some in Hfind as [_ Hsim].
      assert (He : r <> existing).
      { intros <-. rewrite Hr in Hsim.
        rewrite (proj1 (is_similar_nameless _)) in Hsim. discriminate. }
      assert (Hn : new_item <> r).
      { intros ->. rewrite Hr in Hsim.
        rewrite (proj2 (is_similar_nameless _)) in Hsim. discriminate. }
      assert (Hr' : merge_into h existing new_item r nama = [])
        by (rewrite merge_into_elsewhere by assumption; exact Hr).
      destruct (IH consolidated _ Hr') as [Hcols Hcount]. split.
      * intros f. rewrite Hcols. now apply merge_into_elsewhere.
      * rewrite Hcount. cbn [count_occ].
        destruct (Nat.eq_dec new_item r); [contradiction|reflexivity].
    + destruct (IH (consolidated ++ [new_item]) h Hr) as [Hcols Hcount].
      split; [assumption|].
      rewrite Hcount, count_occ_app. cbn [count_occ].
      destruct (Nat.eq_dec new_item r); unfold ref in *; lia.
Qed.

(** A record without a name is never merged: it is listed in the result
    as often as in the input, the loop leaves its columns as they were,
    and only the consistency pass may touch it. *)
Theorem nameless_records_are_never_merged
        (h : heap) (data_list : list ref) (r : ref) :
  h r nama = [] ->
  count_occ Nat.eq_dec (snd (fuzzy_merge_data ratio_above h data_list)) r
  = count_occ Nat.eq_dec data_list r
  /\ (forall f, fst (merge_loop ratio_above h [] data_list) r f = h r f)
  /\ (In r data_list ->
      forall f, fst (fuzzy_merge_data ratio_above h data_list) r f
                = consolidate (h r) f).
Proof.
  intros Hr. destruct (merge_loop_nameless r data_list [] h Hr) as [Hcols Hcount].
  unfold fuzzy_merge_data. cbn [fst snd].
  split; [exact Hcount|]. split; [exact Hcols|].
  intros Hin f.
  assert (Hout : In r (snd (merge_loop ratio_above h [] data_list))).
  { apply (count_occ_In Nat.eq_dec). rewrite Hcount.
    apply (count_occ_In Nat.eq_dec) in Hin. cbn [count_occ Nat.add].
    exact Hin. }
  rewrite (post_merge_inside r f _ _ Hout).
  now apply consolidate_ext.
Qed.

(** *** The order of the result *)

(** The records of the result are input objects, in the order in which
    they were first seen, none listed more often than in the input; the
    first input object is the first record. *)
Theorem fuzzy_merge_lists_first_seen (h : heap) (data_list : list ref) :
  subsequence (snd (fuzzy_merge_data ratio_above h data_list)) data_list
  /\ List.length (snd (fuzzy_merge_data ratio_above h data_list))
     <= List.length data_list
  /\ hd_error (snd (fuzzy_merge_data ratio_above h data_list))
     = hd_error data_list.
Proof.
  unfold fuzzy_merge_data. cbn [snd].
  destruct (merge_loop_subsequence data_list [] h) as (kept & E & Hsub).
  cbn [app] in E. rewrite E.
  split; [assumption|]. split; [now apply subsequence_length|].
  destruct data_list as [|r0 rest]; [now inversion Hsub|].
  cbn [merge_loop find] in E.
  destruct (merge_loop_subsequence rest ([] ++ [r0]) h) as (kept' & E' & _).
  rewrite E' in E. cbn [app] in E. now rewrite <- E.
Qed.

(** *** Records with one name *)

Lemma first_nonempty_cons (v : str) (values : list str) :
  first_nonempty (v :: values) = if truthy v then v else first_nonempty values.
Proof. unfold first_nonempty. cbn [find]. now destruct (truthy v). Qed.

Lemma merge_into_same_name (h : heap) (existing new_item : ref) (n : str) :
  n <> [] -> h existing nama = n -> h new_item nama = n ->
  merge_into h existing new_item existing nama = n.
Proof.
  intros Hn He Hnew.
  assert (Hm : merge_name h existing new_item existing nama = n).
  { rewrite merge_name_at, He, Hnew.
    repeat match goal with
           | |- context [if ?b then _ else _] => destruct b
           end; reflexivity. }
  rewrite merge_into_name, Hm.
  destruct n; [contradiction|reflexivity].
Qed.

Lemma loop_same_name (n : str) (r0 : ref) (f : field) :
  n <> [] -> f <> nama ->
  forall (data_list : list ref) (h : heap),
    h r0 nama = n -> Forall (fun r => h r nama = n) data_list ->
    snd (merge_loop ratio_above h [r0] data_list) = [r0]
    /\ fst (merge_loop ratio_above h [r0] data_list) r0 nama = n
    /\ fst (merge_loop ratio_above h [r0] data_list) r0 f
       = first_nonempty (map (fun r => h r f) (r0 :: data_list)).
Proof.
  intros Hn Hf. induction data_list as [|new_item rest IH]; intros h H0 Hall.
  - cbn [merge_loop fst snd map]. split; [reflexivity|]. split; [assumption|].
    rewrite first_nonempty_cons. unfold first_nonempty. cbn [find].
    now destruct (h r0 f).
  - inversion Hall as [|? ? Hnew Hrest]; subst.
    cbn [merge_loop find]. rewrite Hnew, is_similar_same by assumption.
    set (h' := merge_into h r0 new_item).
    assert (H0' : h' r0 nama = h r0 nama)
      by (apply merge_into_same_name; [assumption|reflexivity|assumption]).
    assert (Hrest' : Forall (fun r => h' r nama = h r0 nama) rest).
    { apply Forall_forall. intros r Hr.
      destruct (Nat.eq_dec r r0) as [->|Hne]; [assumption|].
      unfold h'. rewrite merge_into_elsewhere by assumption.
      exact (proj1 (Forall_forall _ _) Hrest r Hr). }
    destruct (IH h' H0' Hrest') as (Hlist & Hname & Hcol).
    split; [assumption|]. split; [assumption|].
    rewrite Hcol. cbn [map]. rewrite !first_nonempty_cons.
    assert (Hcol0 : h' r0 f = if truthy (h r0 f) then h r0 f else h new_item f)
      by (apply merge_into_column; assumption).
    assert (Hother : forall r, r <> r0 -> h' r f = h r f)
      by (intros r Hr; now apply merge_into_elsewhere).
    rewrite Hcol0.
    destruct (truthy (h r0 f)) eqn:T0; [now rewrite T0|].
    destruct (truthy (h new_item f)) eqn:Tn; [reflexivity|].
    f_equal. apply map_ext. intros r.
    destruct (Nat.eq_dec r r0) as [->|Hne]; [|now apply Hother].
    rewrite Hcol0, ?T0. cbn iota.
    destruct (h r0 f), (h new_item f); try discriminate. reflexivity.
Qed.

(** Records that carry one and the same name collapse into the first of
    them, whatever the similarity ratio says: the result is that one
    record, under that name, and each column that the consistency pass
    does not write holds the first non-empty value of the input, in
    input order. *)
Theorem same_name_records_collapse
        (h : heap) (r0 : ref) (rest : list ref) (n : str) (f : field) :
  n <> [] -> Forall (fun r => h r nama = n) (r0 :: rest) ->
  f <> nama -> f <> no_identitas -> f <> jenis_identitas ->
  let out := fuzzy_merge_data ratio_above h (r0 :: rest) in
  snd out = [r0]
  /\ fst out r0 nama = n
  /\ fst out r0 f = first_nonempty (map (fun r => h r f) (r0 :: rest)).
Proof.
  intros Hn Hall Hf Hid Hty out. subst out.
  inversion Hall as [|? ? H0 Hrest]; subst.
  unfold fuzzy_merge_data. cbn [merge_loop find app fst snd].
  destruct (loop_same_name _ r0 f Hn Hf rest h eq_refl Hrest)
    as (Hlist & Hname & Hcol).
  rewrite Hlist. split; [reflexivity|].
  assert (Hin : In r0 [r0]) by now left.
  rewrite !(post_merge_inside r0 _ [r0] _ Hin).
  assert (Hkeep : forall g, g <> no_identitas -> g <> jenis_identitas ->
                    forall it : Item, consolidate it g = it g).
  { intros g Hg1 Hg2 it. unfold consolidate.
    repeat match goal with
           | |- context [if ?b then _ else _] => destruct b
           end; try reflexivity;
      rewrite ?set_field_other by assumption; reflexivity. }
  rewrite !Hkeep by (assumption || discriminate).
  split; assumption.
Qed.

(** *** The name of a merged record *)

(** After a merge the matched record has its own name or the new
    item's; a name with a blank is never given up for one without; and a
    new name that holds "KKK" does not replace a name that is as well
    spaced. *)
Theorem merged_name_is_one_of_the_two (h : heap) (existing new_item : ref) :
  let result := merge_into h existing new_item existing nama in
  (result = h existing nama \/ result = h new_item nama)
  /\ (contains (lit " ") (h existing nama) = true ->
      contains (lit " ") result = true)
  /\ (h existing nama <> [] ->
      contains (lit "KKK") (h new_item nama) = true ->
      contains (lit " ") (h new_item nama)
      = contains (lit " ") (h existing nama) ->
      result = h existing nama).
Proof.
  cbv zeta. rewrite merge_into_name, merge_name_at.
  set (e := h existing nama). set (n := h new_item nama).
  assert (Hnew : merge_name h existing new_item new_item nama = n
                 \/ new_item = existing) by apply merge_name_new_item.
  split; [|split].
  - destruct (contains (lit " ") n && negb (contains (lit " ") e)).
    + destruct (truthy n) eqn:T; [now right|].
      destruct Hnew as [->| ->]; [now right|].
      rewrite merge_name_at. fold e.
      repeat match goal with
             | |- context [if ?b then _ else _] => destruct b
             end; auto.
    + destruct (Bool.eqb _ _ && _ && _).
      * destruct (truthy n) eqn:T; [now right|].
        destruct Hnew as [->| ->]; [now right|].
        rewrite merge_name_at. fold e.
        repeat match goal with
               | |- context [if ?b then _ else _] => destruct b
               end; auto.
      * destruct (truthy e) eqn:T; [now left|].
        destruct Hnew as [->| ->]; [now right|].
        rewrite merge_name_at. fold e.
        repeat match goal with
               | |- context [if ?b then _ else _] => destruct b
               end; auto.
  - intros He. rewrite He. cbn [negb]. rewrite andb_false_r.
    destruct (contains (lit " ") n) eqn:Hsp; cbn [Bool.eqb andb].
    + destruct ((List.length e <? List.length n)
                && negb (contains (lit "KKK") n)).
      * destruct n; [discriminate|]. cbn [truthy]. exact Hsp.
      * destruct e; [discriminate|]. cbn [truthy]. exact He.
    + destruct e; [discriminate|]. cbn [truthy]. exact He.
  - intros He Hk Hsp. rewrite Hsp, Hk.
    destruct (contains (lit " ") e); cbn [negb andb Bool.eqb];
      rewrite ?andb_false_r; destruct e; try contradiction; reflexivity.
Qed.

End Loop.

Lemma nameless_records_are_never_merged_witness :
  count_occ Nat.eq_dec
            (snd (fuzzy_merge_data (fun _ _ => true) visa_pages [0; 1; 2])) 2
  = 1
  /\ fst (merge_loop (fun _ _ => true) visa_pages [] [0; 1; 2]) 2 no_visa
     = lit "6087654321".
Proof.
  destruct (nameless_records_are_never_merged
              (fun _ _ => true) visa_pages [0; 1; 2] 2 eq_refl)
    as (Hcount & Hcols & _).
  split; [exact Hcount|exact (Hcols no_visa)].
Defined.

Lemma same_name_records_collapse_witness :
  snd (fuzzy_merge_data (fun _ _ => false) pilgrims [0; 1]) = [0]
  /\ fst (fuzzy_merge_data (fun _ _ => false) pilgrims [0; 1]) 0 nama
     = lit "BUDI SANTOSO"
  /\ fst (fuzzy_merge_data (fun _ _ => false) pilgrims [0; 1]) 0 no_visa
     = first_nonempty [[]; lit "6012345678"].
Proof.
  apply (same_name_records_collapse (fun _ _ => false) pilgrims 0 [1]
           (lit "BUDI SANTOSO") no_visa).
  - discriminate.
  - repeat constructor.
  - discriminate.
  - discriminate.
  - discriminate.
Defined.

Lemma merged_name_is_one_of_the_two_witness :
  merge_into ahmad 0 1 0 nama = lit "AHMAD DAHLANN"
  /\ contains (lit " ") (merge_into ahmad 0 1 0 nama) = true.
Proof.
  destruct (merged_name_is_one_of_the_two ahmad 0 1) as (_ & Hblank & _).
  split; [reflexivity|]. apply Hblank. reflexivity.
Defined.

End MergingFacts.

Module RowFacts.
Import Re ReFacts Text TextFacts Validators Rows Merging DateFacts
       Repairs RepairFacts.

(** *** Greedy repetitions that succeed at the first try *)

Lemma run_all (cls : ascii -> bool) (hi : option nat) (piece rest : str) :
  Forall (fun c => cls c = true) piece ->
  match hi with Some h => List.length piece <= h | None => True end ->
  (match rest with c :: _ => cls c = false | [] => True end
   \/ hi = Some (List.length piece)) ->
  run cls hi (piece ++ rest) = List.length piece.
Proof.
  intros Hall. revert hi. induction Hall as [|c piece Hc _ IH]; intros hi Hhi Hrest.
  - cbn [app List.length]. destruct rest as [|c rest]; [reflexivity|].
    cbn [run]. destruct Hrest as [Hrest|Hrest].
    + destruct hi as [[|h]|]; [reflexivity| |]; now rewrite Hrest.
    + now rewrite Hrest.
  - cbn [app List.length run].
    destruct hi as [[|h]|].
    + cbn [List.length] in Hhi. lia.
    + rewrite Hc. f_equal. apply IH; [cbn [List.length] in Hhi; lia|].
      destruct Hrest as [Hrest|Hrest]; [now left|right].
      cbn [List.length] in Hrest. congruence.
    + rewrite Hc. f_equal. apply IH; [exact I|].
      destruct Hrest as [Hrest|Hrest]; [now left|discriminate].
Qed.

Lemma give_back_first (lo : nat) (s : str)
      (cont : str -> str -> option (list str * str)) (k : nat)
      (r : list str * str) :
  lo <= k -> cont (firstn k s) (skipn k s) = Some r ->
  give_back lo s cont k = Some r.
Proof.
  intros Hlo Hc. destruct k; cbn [give_back];
    apply Nat.leb_le in Hlo; now rewrite Hlo, Hc.
Qed.

(** A repetition whose whole run is followed by a match of the rest of
    the pattern takes the whole run. *)
Lemma match_here_rep (cls : ascii -> bool) (lo : nat) (hi : option nat)
      (re : pattern) (prev : option ascii) (piece rest : str)
      (caps : list str) (out : str) :
  Forall (fun c => cls c = true) piece ->
  lo <= List.length piece ->
  match hi with Some h => List.length piece <= h | None => True end ->
  (match rest with c :: _ => cls c = false | [] => True end
   \/ hi = Some (List.length piece)) ->
  match_here re (prev_after prev piece) rest = Some (caps, out) ->
  match_here (Rep cls lo hi :: re) prev (piece ++ rest)
  = Some (piece :: caps, out).
Proof.
  intros Hall Hlo Hhi Hrest Hcont. cbn [match_here].
  rewrite (run_all cls hi piece rest Hall Hhi Hrest).
  apply give_back_first; [assumption|].
  rewrite firstn_app, Nat.sub_diag, firstn_all, firstn_O, app_nil_r.
  rewrite skipn_app, Nat.sub_diag, skipn_all, skipn_O. cbn [app].
  now rewrite Hcont.
Qed.

(** A pattern that ends with [$] leaves nothing, or a last newline. *)
Lemma match_here_eol (re : pattern) :
  forall prev s caps rest,
    match_here (re ++ [Eol]) prev s = Some (caps, rest) -> at_end rest = true.
Proof.
  induction re as [|a re IH]; intros prev s caps rest H.
  - cbn [app match_here] in H.
    destruct (at_end s) eqn:E; [|discriminate]. now injection H as <- <-.
  - cbn [app match_here] in H.
    assert (Hcont : forall consumed tail,
               match match_here (re ++ [Eol]) (prev_after prev consumed) tail with
               | Some (caps0, out) => Some (consumed :: caps0, out)
               | None => None
               end = Some (caps, rest) -> at_end rest = true).
    { intros consumed tail Hm.
      destruct (match_here (re ++ [Eol]) (prev_after prev consumed) tail)
        as [[caps0 out]|] eqn:E; [|discriminate].
      injection Hm as <- <-. exact (IH _ _ _ _ E). }
    destruct a as [cls lo hi| | |].
    + apply give_back_spec in H as (j & _ & _ & Hc). exact (Hcont _ _ Hc).
    + destruct (at_boundary prev s); [|discriminate]. exact (Hcont _ _ H).
    + destruct (at_begin prev); [|discriminate]. exact (Hcont _ _ H).
    + destruct (at_end s); [|discriminate]. exact (Hcont _ _ H).
Qed.

Lemma match_here_bol (re : pattern) (s : str) :
  match_here (Bol :: re) None s
  = match match_here re None s with
    | Some (caps, out) => Some ([] :: caps, out)
    | None => None
    end.
Proof. reflexivity. Qed.

(** *** validate_passport_number *)

Lemma is_space_upper (c : ascii) : is_space (char_upper c) = is_space c.
Proof.
  pose proof (every_ascii
    (fun c => Bool.eqb (is_space (char_upper c)) (is_space c)) eq_refl c) as H.
  cbv beta in H. now apply eqb_prop in H.
Qed.

Lemma cleaned_last (passport : str) (body : str) (c : ascii) :
  upper (strip passport) = body ++ [c] -> is_space c = false.
Proof.
  intros E. destruct (strip_ends passport) as [_ Hlast].
  apply (f_equal (@rev ascii)) in E. unfold upper in E.
  rewrite <- map_rev, rev_app_distr in E. cbn [rev app] in E.
  destruct (rev (strip passport)) as [|z t]; [discriminate|].
  cbn [map] in E. injection E as Ez _. rewrite <- Ez, is_space_upper.
  exact Hlast.
Qed.

Lemma passport_number_accepted (passport : str) :
  validate_passport_number passport = None <->
  passport = []
  \/ exists (letter : ascii) (number : str),
       upper (strip passport) = letter :: number
       /\ is_upper letter = true
       /\ Forall (fun c => is_digit c = true) number
       /\ 6 <= List.length number <= 7.
Proof.
  unfold validate_passport_number.
  destruct passport as [|p0 passport]; [split; auto|].
  cbn [truthy negb]. set (raw := p0 :: passport).
  unfold match_start. split.
  - destruct (match_here passport_re None (upper (strip raw)))
      as [[caps rest]|] eqn:E; [|discriminate].
    intros _. right.
    pose proof (match_here_eol [Bol; one is_upper; Rep is_digit 6 (Some 7)]
                               _ _ _ _ E) as Hend.
    apply match_here_sound in E as [Hcat Hall]. unfold passport_re in Hall.
    apply Forall2_cons_inv in Hall as (g0 & r0 & -> & Hg0 & Hall).
    apply Forall2_cons_inv in Hall as (g1 & r1 & -> & Hg1 & Hall).
    apply Forall2_cons_inv in Hall as (g2 & r2 & -> & Hg2 & Hall).
    apply Forall2_cons_inv in Hall as (g3 & r3 & -> & Hg3 & Hall).
    inversion Hall; subst. cbn [atom_ok] in Hg0, Hg3. subst g0 g3.
    cbn [List.concat app] in Hcat. rewrite app_nil_r in Hcat.
    destruct Hg1 as (Hu & Hlo1 & Hhi1). destruct Hg2 as (Hd & Hlo2 & Hhi2).
    destruct g1 as [|letter [|? ?]]; cbn [List.length] in Hlo1, Hhi1; try lia.
    assert (Hrest : rest = []).
    { destruct rest as [|c [|? ?]]; [reflexivity| |discriminate].
      cbn [at_end] in Hend. apply Ascii.eqb_eq in Hend. subst c.
      symmetry in Hcat.
      apply (cleaned_last _ (letter :: g2)) in Hcat. discriminate. }
    subst rest. rewrite app_nil_r in Hcat.
    exists letter, g2. split; [now symmetry|].
    split; [now inversion Hu|]. split; [assumption|lia].
  - intros [Hnil|(letter & number & E & Hu & Hd & Hlen)]; [discriminate|].
    rewrite E. unfold passport_re, one. rewrite match_here_bol.
    change (letter :: number) with ([letter] ++ number).
    rewrite (match_here_rep is_upper 1 (Some 1) _ _ [letter] number
               [number; []] []).
    + reflexivity.
    + now constructor.
    + cbn; lia.
    + cbn; lia.
    + now right.
    + pose proof (match_here_rep is_digit 6 (Some 7) [Eol]
                    (prev_after None [letter]) number [] [[]] [] Hd
                    (proj1 Hlen) (proj2 Hlen) (or_introl I) eq_refl) as H.
      rewrite app_nil_r in H. exact H.
Qed.

(** A passport number passes exactly when it is empty or, stripped and in
    capitals, one letter followed by six or seven digits. *)
Theorem validate_passport_number_accepts (passport : str) :
  validate_passport_number passport = None <->
  passport = []
  \/ exists (letter : ascii) (number : str),
       upper (strip passport) = letter :: number
       /\ is_upper letter = true
       /\ Forall (fun c => is_digit c = true) number
       /\ 6 <= List.length number <= 7.
Proof. apply passport_number_accepted. Qed.

Lemma drop_while_snoc (p : ascii -> bool) (c : ascii) (l : str) :
  p c = false -> drop_while p (l ++ [c]) = drop_while p l ++ [c].
Proof.
  intros Hc. induction l as [|x l IH]; cbn [app drop_while].
  - now rewrite Hc.
  - destruct (p x); [exact IH|reflexivity].
Qed.

Lemma strip_cons (c : ascii) (s : str) :
  is_space c = false -> strip (c :: s) = c :: rstrip s.
Proof.
  intros Hc. unfold strip, lstrip. cbn [drop_while]. rewrite Hc.
  unfold rstrip. cbn [rev]. rewrite drop_while_snoc by assumption.
  now rewrite rev_app_distr.
Qed.

(** [fix_mrz_number] and the validator do not agree on what a passport
    number is: a number whose first character is one the repair turns
    into a digit (A, B, D, G, I, L, O, Q, S, T, Z among the capitals)
    comes out of the repair with a digit in front, and
    [validate_passport_number] then warns about it. *)
Theorem repaired_series_letter_is_rejected (letter : ascii) (rest : str) :
  misread mrz_digit_fixes letter = true ->
  is_digit (hd " "%char (fix_mrz_number (letter :: rest))) = true
  /\ validate_passport_number (fix_mrz_number (letter :: rest)) <> None.
Proof.
  intros Hletter. rewrite fix_mrz_number_map. cbn [map hd].
  destruct (fix_char_mrz letter) as (_ & _ & _ & Hdigit & _).
  specialize (Hdigit Hletter).
  set (c := fix_char mrz_digit_fixes letter) in *. clearbody c.
  split; [assumption|]. intros Hok.
  apply passport_number_accepted in Hok
    as [Hnil|(l & number & E & Hu & _)]; [discriminate|].
  assert (Hsp : is_space c = false).
  { apply negb_true_iff. apply (implb_holds (is_digit c)); [|exact Hdigit].
    exact (every_ascii (fun c => implb (is_digit c) (negb (is_space c)))
                       eq_refl c). }
  rewrite strip_cons in E by assumption. cbn [upper map] in E.
  assert (El : char_upper c = l) by congruence.
  assert (H : negb (is_upper (char_upper c)) = true).
  { apply (implb_holds (is_digit c)); [|exact Hdigit].
    exact (every_ascii
             (fun c => implb (is_digit c) (negb (is_upper (char_upper c))))
             eq_refl c). }
  rewrite El, Hu in H. discriminate.
Qed.

(** *** validate_nik *)

Lemma validate_nik_cases (nik : str) :
  validate_nik nik
  = if negb (truthy nik) || (List.length (filter is_digit nik) =? 16)
    then None
    else Some (lit "NIK harus 16 digit (ditemukan "
                 ++ str_of_int (N.of_nat (List.length (filter is_digit nik)))
                 ++ lit " digit)").
Proof.
  unfold validate_nik. destruct (negb (truthy nik)); [reflexivity|].
  rewrite sub_delete.
  replace (filter (neg (neg is_digit)) nik) with (filter is_digit nik)
    by (apply filter_ext; intros a; unfold neg; now rewrite negb_involutive).
  cbn [orb]. now destruct (List.length (filter is_digit nik) =? 16).
Qed.

Lemma extract_nik_shape (text nik : str) :
  Parser.extract_nik text = Some nik ->
  List.length nik = 16 /\ Forall (fun c => is_digit c = true) nik.
Proof.
  unfold Parser.extract_nik.
  set (clean_text := sub [plus is_space] (fun _ => lit " ") text).
  destruct (search Parser.nik_direct_re clean_text) as [m|] eqn:Hdirect.
  - intros H. assert (E : group m 1 = nik) by congruence. clear H.
    apply search_sound in Hdirect as [_ Hall].
    unfold Parser.nik_direct_re in Hall.
    apply Forall2_cons_inv in Hall as (g0 & r0 & Hg0 & _ & Hall).
    apply Forall2_cons_inv in Hall as (g1 & r1 & Hg1 & Hok & _).
    unfold group in E. rewrite Hg0, Hg1 in E. cbn [nth] in E. subst g1.
    destruct Hok as (Hdigits & Hlo & Hhi). split; [lia|assumption].
  - destruct (search Parser.nik_label_re clean_text) as [m|].
    + destruct (Parser.repaired_nik (group m 4)) as [n|] eqn:E.
      * intros H. assert (En : n = nik) by congruence. subst n.
        exact (ParserFacts.repaired_nik_shape _ _ E).
      * apply ParserFacts.first_repaired_shape.
    + apply ParserFacts.first_repaired_shape.
Qed.

(** [validate_nik] looks at the digits only: a number passes exactly
    when it is empty or holds sixteen digits, whatever stands between
    them, and the warning tells how many digits were found. Every number
    [extract_nik] returns passes. *)
Theorem validate_nik_counts_digits (nik : str) :
  (validate_nik nik = None <->
   nik = [] \/ List.length (filter is_digit nik) = 16)
  /\ (forall msg, validate_nik nik = Some msg ->
        msg = lit "NIK harus 16 digit (ditemukan "
                ++ str_of_int (N.of_nat (List.length (filter is_digit nik)))
                ++ lit " digit)")
  /\ (forall text, Parser.extract_nik text = Some nik -> validate_nik nik = None).
Proof.
  rewrite validate_nik_cases.
  split; [|split].
  - destruct nik as [|c nik]; [split; auto|]. cbn [truthy negb orb].
    destruct (Nat.eqb_spec (List.length (filter is_digit (c :: nik))) 16)
      as [E|E]; split; auto; try discriminate.
    intros [H|H]; [discriminate|contradiction].
  - intros msg. destruct (_ || _); [discriminate|]. congruence.
  - intros text H. apply extract_nik_shape in H as [Hlen Hd].
    rewrite (NameFacts.filter_all is_digit nik Hd), Hlen.
    now rewrite orb_true_r.
Qed.

(** *** validate_row *)

Lemma key_inj (f g : field) : key f = key g -> f = g.
Proof.
  assert (H : forallb (fun f => forallb (fun g =>
                implb (String.eqb (key f) (key g)) (field_beq f g))
                all_fields) all_fields = true) by (vm_compute; reflexivity).
  intros E. rewrite forallb_forall in H.
  specialize (H f (MergeFacts.all_fields_complete f)). rewrite forallb_forall in H.
  specialize (H g (MergeFacts.all_fields_complete g)).
  rewrite E, String.eqb_refl in H. cbn [implb] in H.
  now apply internal_field_dec_bl.
Qed.

Lemma subsequence_app {A : Type} (l1 big1 l2 big2 : list A) :
  subsequence l1 big1 -> subsequence l2 big2 ->
  subsequence (l1 ++ l2) (big1 ++ big2).
Proof.
  induction 1; intros H2; cbn [app]; [assumption| |];
    constructor; now apply IHsubsequence.
Qed.

Lemma subsequence_NoDup {A : Type} (l big : list A) :
  subsequence l big -> NoDup big -> NoDup l.
Proof.
  induction 1 as [|x l big Hs IH|x l big Hs IH]; intros Hbig.
  - constructor.
  - inversion Hbig; subst. now apply IH.
  - inversion Hbig as [|? ? Hx Hrest]; subst. constructor; [|now apply IH].
    intros Hin. apply Hx. exact (MergingFacts.subsequence_in _ _ _ Hs Hin).
Qed.

Lemma warn_column (f : field) (w : option str) :
  subsequence (map w_field (warn f w)) [key f].
Proof.
  destruct w as [[|c msg]|]; cbn [warn truthy map w_field];
    [apply subsequence_skip|apply subsequence_take|apply subsequence_skip];
    apply subsequence_nil.
Qed.

Lemma warn_in (f : field) (w : option str) (x : warning) :
  In x (warn f w) -> w_field x = key f /\ w = Some (message x) /\ message x <> [].
Proof.
  destruct w as [[|c msg]|]; cbn [warn truthy In]; try contradiction.
  intros [<-|[]]. cbn [w_field message]. repeat split. discriminate.
Qed.

Section Rows.

Variable strptime : str -> string -> bool.

Lemma date_warnings_columns (row : Item) (l : list (field * string)) :
  subsequence
    (map w_field
       (flat_map (fun fl : field * string =>
                    warn (fst fl) (validate_date strptime (row (fst fl)) (snd fl)))
                 l))
    (map key (map fst l)).
Proof.
  induction l as [|fl l IH]; [constructor|].
  cbn [flat_map map]. rewrite map_app.
  exact (subsequence_app _ [key (fst fl)] _ _ (warn_column _ _) IH).
Qed.

Lemma validate_row_columns (row : Item) :
  subsequence (map w_field (validate_row strptime row)) (map key checked_columns).
Proof.
  unfold validate_row. rewrite !map_app.
  apply (subsequence_app _ [key no_identitas] _ _).
  { destruct (existsb _ _);
      [apply warn_column|apply subsequence_skip, subsequence_nil]. }
  apply (subsequence_app _ [key no_paspor] _ _); [apply warn_column|].
  apply (subsequence_app _ [key no_visa] _ _); [apply warn_column|].
  apply (subsequence_app _ (map key (map fst date_fields)) _
                         [key kewarganegaraan; key nama]);
    [apply date_warnings_columns|].
  apply (subsequence_app _ [key kewarganegaraan] _ [key nama]);
    [apply warn_column|].
  destruct (negb _); cbn [map w_field];
    [apply subsequence_take|apply subsequence_skip]; apply subsequence_nil.
Qed.

(** Where a warning of [validate_row] comes from. *)
Lemma validate_row_in (row : Item) (x : warning) :
  In x (validate_row strptime row) ->
  message x <> []
  /\ exists f, w_field x = key f
       /\ ((f = nama /\ strip (row nama) = [])
           \/ (f <> nama /\ row f <> [])).
Proof.
  assert (Hwarn : forall f w, f <> nama ->
             (row f = [] -> w = None) -> In x (warn f w) ->
             message x <> []
             /\ exists f, w_field x = key f
                  /\ ((f = nama /\ strip (row nama) = [])
                      \/ (f <> nama /\ row f <> []))).
  { intros f w Hf Hnone Hin. apply warn_in in Hin as (Hk & Hw & Hm).
    split; [assumption|]. exists f. split; [assumption|]. right.
    split; [assumption|]. intros E. rewrite (Hnone E) in Hw. discriminate. }
  unfold validate_row. intros Hin.
  apply in_app_or in Hin as [Hin|Hin].
  { destruct (existsb _ _); [|contradiction].
    apply (Hwarn no_identitas _) in Hin; [assumption|discriminate|].
    now intros ->. }
  apply in_app_or in Hin as [Hin|Hin].
  { apply (Hwarn no_paspor _) in Hin; [assumption|discriminate|]. now intros ->. }
  apply in_app_or in Hin as [Hin|Hin].
  { apply (Hwarn no_visa _) in Hin; [assumption|discriminate|]. now intros ->. }
  apply in_app_or in Hin as [Hin|Hin].
  { apply in_flat_map in Hin as (fl & Hfl & Hin).
    apply (Hwarn (fst fl) _) in Hin; [assumption| |].
    - unfold date_fields in Hfl. cbn [In] in Hfl.
      repeat (destruct Hfl as [<-|Hfl]; [discriminate|]). contradiction.
    - intros E. unfold validate_date. now rewrite E. }
  apply in_app_or in Hin as [Hin|Hin].
  { apply (Hwarn kewarganegaraan _) in Hin; [assumption|discriminate|].
    now intros ->. }
  destruct (strip (row nama)) as [|c s] eqn:E; cbn [truthy negb In] in Hin;
    [|contradiction].
  destruct Hin as [<-|[]]. cbn [message w_field].
  split; [discriminate|]. exists nama. split; [reflexivity|]. now left.
Qed.

(** A warning about the citizenship comes from its validator. *)
Lemma validate_row_citizenship (row : Item) (x : warning) :
  In x (validate_row strptime row) ->
  w_field x = key kewarganegaraan ->
  validate_kewarganegaraan (row kewarganegaraan) <> None.
Proof.
  assert (Hwarn : forall f w, f <> kewarganegaraan -> In x (warn f w) ->
                              w_field x = key kewarganegaraan -> False).
  { intros f w Hf Hin Hk. apply warn_in in Hin as (Hk' & _).
    rewrite Hk in Hk'. apply key_inj in Hk'. congruence. }
  unfold validate_row. intros Hin Hk.
  apply in_app_or in Hin as [Hin|Hin].
  { destruct (existsb _ _); [|contradiction].
    exfalso. apply (Hwarn no_identitas _) in Hin; [assumption|discriminate|assumption]. }
  apply in_app_or in Hin as [Hin|Hin].
  { exfalso. apply (Hwarn no_paspor _) in Hin; [assumption|discriminate|assumption]. }
  apply in_app_or in Hin as [Hin|Hin].
  { exfalso. apply (Hwarn no_visa _) in Hin; [assumption|discriminate|assumption]. }
  apply in_app_or in Hin as [Hin|Hin].
  { exfalso. apply in_flat_map in Hin as (fl & Hfl & Hin).
    apply (Hwarn (fst fl) _) in Hin; [assumption| |assumption].
    unfold date_fields in Hfl. cbn [In] in Hfl.
    repeat (destruct Hfl as [<-|Hfl]; [discriminate|]). contradiction. }
  apply in_app_or in Hin as [Hin|Hin].
  { apply warn_in in Hin as (_ & Hw & _). rewrite Hw. discriminate. }
  exfalso. destruct (negb _); [|contradiction].
  destruct Hin as [<-|[]]. cbn [w_field] in Hk. apply key_inj in Hk. discriminate.
Qed.

(** [validate_row] checks twelve columns in a fixed order and gives at
    most one warning for each, never one without a text. Only the name is
    required: any other column is warned about only when it holds
    something, and the name is warned about exactly when it is blank. *)
Theorem validate_row_warns_in_column_order (row : Item) :
  subsequence (map w_field (validate_row strptime row)) (map key checked_columns)
  /\ NoDup (map w_field (validate_row strptime row))
  /\ List.length (validate_row strptime row) <= 12
  /\ Forall (fun w => message w <> []) (validate_row strptime row)
  /\ (forall f, f <> nama -> row f = [] ->
        ~ In (key f) (map w_field (validate_row strptime row)))
  /\ (In (key nama) (map w_field (validate_row strptime row))
      <-> strip (row nama) = []).
Proof.
  pose proof (validate_row_columns row) as Hsub.
  split; [assumption|]. split; [|split; [|split; [|split]]].
  - apply (subsequence_NoDup _ _ Hsub).
    assert (E : nodup string_dec (map key checked_columns)
                = map key checked_columns) by (vm_compute; reflexivity).
    rewrite <- E. apply NoDup_nodup.
  - apply MergingFacts.subsequence_length in Hsub. now rewrite !length_map in Hsub.
  - apply Forall_forall. intros x Hx. exact (proj1 (validate_row_in row x Hx)).
  - intros f Hf E Hin. apply in_map_iff in Hin as (x & Hk & Hx).
    apply validate_row_in in Hx as (_ & g & Hg & [[-> Hn]|[Hgn Hgv]]).
    + rewrite Hg in Hk. apply key_inj in Hk. congruence.
    + rewrite Hg in Hk. apply key_inj in Hk. subst g. contradiction.
  - split.
    + intros Hin. apply in_map_iff in Hin as (x & Hk & Hx).
      apply validate_row_in in Hx as (_ & g & Hg & [[-> Hn]|[Hgn Hgv]]);
        [assumption|].
      rewrite Hg in Hk. apply key_inj in Hk. congruence.
    + intros E. unfold validate_row. rewrite E. cbn [truthy negb].
      rewrite !map_app, !in_app_iff. cbn [map In w_field].
      do 5 right. now left.
Qed.

End Rows.

Lemma repaired_series_letter_is_rejected_witness :
  is_digit (hd " "%char (fix_mrz_number (lit "B1234567"))) = true
  /\ validate_passport_number (fix_mrz_number (lit "B1234567")) <> None.
Proof.
  apply (repaired_series_letter_is_rejected "B" (lit "1234567")).
  reflexivity.
Defined.

End RowFacts.

Module RunFacts.
Import Processor Runs.

(** The runs of [_process_single_image], by what the calls do. *)
Lemma process_single_image_runs
      (OCR_ENGINE : string) (OCR_FALLBACK_ENABLED : bool)
      (engine_call : engine -> nat -> attempt_result) :
  let fn := primary_fn OCR_ENGINE in
  _process_single_image OCR_ENGINE OCR_FALLBACK_ENABLED engine_call start
  = match engine_call fn 0 with
    | Returned r => (r, mk_run 1 [Call fn])
    | Raised _ =>
    match engine_call fn 1 with
    | Returned r => (r, mk_run 2 [Call fn; Sleep 1; Call fn])
    | Raised _ =>
    match engine_call fn 2 with
    | Returned r => (r, mk_run 3 [Call fn; Sleep 1; Call fn; Sleep 2; Call fn])
    | Raised e =>
        if OCR_FALLBACK_ENABLED && negb (String.eqb OCR_ENGINE "gemini") then
          (match engine_call gemini 3 with
           | Returned r => r
           | Raised e' => error_result (Some e')
           end,
           mk_run 4 [Call fn; Sleep 1; Call fn; Sleep 2; Call fn; Call gemini])
        else
          (error_result (Some e),
           mk_run 3 [Call fn; Sleep 1; Call fn; Sleep 2; Call fn])
    end end end.
Proof.
  intros fn. unfold _process_single_image.
  cbn [seq MAX_RETRIES Nat.add try_primary]. fold fn.
  unfold bind, call, sleep, ret. cbn [start calls trace app].
  destruct (engine_call fn 0); [reflexivity|]. cbn.
  destruct (engine_call fn 1); [reflexivity|]. cbn.
  destruct (engine_call fn 2); [reflexivity|]. cbn.
  destruct (OCR_FALLBACK_ENABLED && negb (String.eqb OCR_ENGINE "gemini"));
    [|reflexivity].
  cbn [calls trace app]. now destruct (engine_call gemini 3).
Qed.

(** Whatever the engines do, [_process_single_image] calls the primary
    strategy one to three times in a row and then, at most once and only
    after three failures, the vision model; it sleeps 0, 1 or 3 seconds in
    all. What it returns is decided by the last call alone: that call's
    answer, or the error dictionary with that call's error text. *)
Theorem dispatcher_is_bounded
        (OCR_ENGINE : string) (OCR_FALLBACK_ENABLED : bool)
        (engine_call : engine -> nat -> attempt_result) :
  let fn := primary_fn OCR_ENGINE in
  let out :=
    _process_single_image OCR_ENGINE OCR_FALLBACK_ENABLED engine_call start in
  let t := trace (snd out) in
  let n := calls (snd out) in
  n = List.length (called t)
  /\ (exists k, 1 <= k <= MAX_RETRIES + 1
        /\ slept t = k * (k - 1) / 2
        /\ (called t = repeat fn k
            \/ (k = MAX_RETRIES + 1
                /\ OCR_FALLBACK_ENABLED && negb (String.eqb OCR_ENGINE "gemini")
                   = true
                /\ called t = repeat fn k ++ [gemini])))
  /\ n <= MAX_RETRIES + 2
  /\ slept t <= 3
  /\ match engine_call (last (called t) fn) (n - 1) with
     | Returned result => fst out = result
     | Raised e => fst out = error_result (Some e)
     end.
Proof.
  intros fn out t n. subst t n out.
  rewrite process_single_image_runs. fold fn. clearbody fn.
  destruct (engine_call fn 0) as [r0|e0] eqn:E0.
  { cbn. rewrite E0. repeat split; try lia.
    exists 1. repeat split; try lia. now left. }
  destruct (engine_call fn 1) as [r1|e1] eqn:E1.
  { cbn. rewrite E1. repeat split; try lia.
    exists 2. repeat split; try lia. now left. }
  destruct (engine_call fn 2) as [r2|e2] eqn:E2.
  { cbn. rewrite E2. repeat split; try lia.
    exists 3. repeat split; try lia. now left. }
  destruct (OCR_FALLBACK_ENABLED && negb (String.eqb OCR_ENGINE "gemini")) eqn:F.
  - cbn. destruct (engine_call gemini 3) as [r3|e3] eqn:E3;
      (repeat split; try lia);
      exists 3; repeat split; try lia; right; repeat split.
  - cbn. rewrite E2. repeat split; try lia.
    exists 3. repeat split; try lia. now left.
Qed.

End RunFacts.

Module FileFacts.
Import Cache Processor Scenarios FileScenarios CacheOpsFacts.

Section Files.

Variable compute_hash : list Byte.byte -> str.

(** A lookup that misses leaves the settings and the hits as they were. *)
Lemma get_settings {A : Type} (k : str) (now : Z) (c : OCRCache A) :
  _ttl (snd (get k now c)) = _ttl c
  /\ _max_size (snd (get k now c)) = _max_size c
  /\ (fst (get k now c) = None -> _hits (snd (get k now c)) = _hits c).
Proof.
  unfold get. destruct (lookup A k (_cache c)) as [e|]; [|now repeat split].
  destruct (now - timestamp e <? _ttl c)%Z; cbn; repeat split. discriminate.
Qed.

Lemma get_after_put {A : Type} (k : str) (x : A) (t t' : Z) (c c' : OCRCache A) :
  put k x t c = Some c' -> (t' - t < _ttl c)%Z ->
  fst (get k t' c') = Some x /\ _hits (snd (get k t' c')) = S (_hits c).
Proof.
  unfold put. destruct (evict A (_max_size c) (_cache c)) as [d|]; [|discriminate].
  intros E Hfresh. injection E as <-. unfold get. cbn [_cache _ttl _hits].
  rewrite lookup_assign_same. cbn [timestamp data].
  apply Z.ltb_lt in Hfresh. now rewrite Hfresh.
Qed.

(** What a first-time success has done to the cache. *)
Lemma process_one_stored
      (convert_pdf_to_images : list Byte.byte -> option (list (list Byte.byte)))
      (ocr : list Byte.byte -> str -> doc_data)
      (filename file_ext : str) (content : list Byte.byte) (now_get now_put : Z)
      (c : OCRCache (list Item)) :
  let first := _process_one compute_hash convert_pdf_to_images ocr
                            filename file_ext content now_get now_put c in
  o_success (fst first) = true -> o_cached (fst first) = false ->
  o_items (fst first) <> [] ->
  fst (get (compute_hash content) now_get c) = None
  /\ put (compute_hash content) (o_items (fst first)) now_put
         (snd (get (compute_hash content) now_get c))
     = Some (snd first).
Proof.
  intros first. subst first. unfold _process_one.
  destruct (get (compute_hash content) now_get c) as [cached c0].
  cbn [fst snd].
  destruct cached as [items|].
  { destruct (str_eqb file_ext (lit ".pdf")).
    - destruct items as [|it items]; [|cbn; discriminate].
      destruct (convert_pdf_to_images content) as [imgs|]; [|cbn; discriminate].
      destruct (useful_items _) as [[|it items]|]; cbn; try discriminate.
      destruct (put _ _ _ _); cbn; discriminate.
    - destruct items as [|it items]; [|cbn; discriminate].
      destruct (_partial _); [cbn; discriminate|].
      destruct (doc_data_to_item _); [|cbn; discriminate].
      destruct (put _ _ _ _); cbn; discriminate. }
  destruct (str_eqb file_ext (lit ".pdf")).
  - destruct (convert_pdf_to_images content) as [imgs|]; [|cbn; discriminate].
    destruct (useful_items _) as [[|it items]|]; cbn; try discriminate;
      try congruence.
    destruct (put _ _ _ _) eqn:E; cbn; [|discriminate].
    intros _ _ _. split; [reflexivity|exact E].
  - destruct (_partial _); [cbn; discriminate|].
    destruct (doc_data_to_item _); [|cbn; discriminate].
    destruct (put _ _ _ _) eqn:E; cbn; [|discriminate].
    intros _ _ _. split; [reflexivity|exact E].
Qed.

(** What a lookup that hits makes of the file. *)
Lemma process_one_hit
      (convert_pdf_to_images : list Byte.byte -> option (list (list Byte.byte)))
      (ocr : list Byte.byte -> str -> doc_data)
      (filename file_ext : str) (content : list Byte.byte) (now_get now_put : Z)
      (c : OCRCache (list Item)) (items : list Item) :
  fst (get (compute_hash content) now_get c) = Some items -> items <> [] ->
  _process_one compute_hash convert_pdf_to_images ocr
               filename file_ext content now_get now_put c
  = (mk_outcome filename true
                (if str_eqb file_ext (lit ".pdf") then lit "PDF"
                 else match items with
                      | it :: _ => it jenis_identitas
                      | [] => lit "UNKNOWN"
                      end)
                None items true,
     snd (get (compute_hash content) now_get c)).
Proof.
  unfold _process_one.
  destruct (get (compute_hash content) now_get c) as [cached c0].
  cbn [fst snd]. intros -> Hitems.
  destruct items as [|it items]; [contradiction|].
  now destruct (str_eqb file_ext (lit ".pdf")).
Qed.

(** The cache is keyed by the content alone: once a file has been
    processed with success and a non-empty result, the same bytes
    submitted again before the entry expires, under whatever name or
    extension, get the stored items back as a cache hit, and neither the
    engines nor the PDF renderer have a say. *)
Theorem processed_file_is_served_from_cache
      (convert_pdf_to_images convert_pdf_to_images' :
         list Byte.byte -> option (list (list Byte.byte)))
      (ocr ocr' : list Byte.byte -> str -> doc_data)
      (filename file_ext filename' file_ext' : str) (content : list Byte.byte)
      (t1 t2 t3 t4 : Z) (c : OCRCache (list Item)) :
  let first := _process_one compute_hash convert_pdf_to_images ocr
                            filename file_ext content t1 t2 c in
  let again := _process_one compute_hash convert_pdf_to_images' ocr'
                            filename' file_ext' content t3 t4 (snd first) in
  o_success (fst first) = true -> o_cached (fst first) = false ->
  o_items (fst first) <> [] -> (t3 - t2 < _ttl c)%Z ->
  o_success (fst again) = true
  /\ o_cached (fst again) = true
  /\ o_items (fst again) = o_items (fst first)
  /\ o_filename (fst again) = filename'
  /\ _hits (snd again) = S (_hits c).
Proof.
  intros first again Hok Hnew Hitems Hfresh.
  destruct (process_one_stored _ _ _ _ _ _ _ _ Hok Hnew Hitems) as [Hmiss Hput].
  fold first in Hput.
  destruct (get_settings (compute_hash content) t1 c) as (Httl & _ & Hhits).
  rewrite <- Httl in Hfresh.
  destruct (get_after_put _ _ _ t3 _ _ Hput Hfresh) as [Hhit Hcount].
  subst again.
  rewrite (process_one_hit _ _ _ _ _ _ _ _ _ Hhit Hitems).
  cbn [fst snd o_success o_cached o_items o_filename].
  repeat split. rewrite Hcount. f_equal. exact (Hhits Hmiss).
Qed.

(** Only results worth keeping are stored: when a file fails, or yields
    no item, the cache is left as the lookup left it, so that the file is
    read again the next time; a failure carries no item and is never
    reported as cached. *)
Theorem fruitless_file_is_not_cached
      (convert_pdf_to_images : list Byte.byte -> option (list (list Byte.byte)))
      (ocr : list Byte.byte -> str -> doc_data)
      (filename file_ext : str) (content : list Byte.byte) (t1 t2 : Z)
      (c : OCRCache (list Item)) :
  let first := _process_one compute_hash convert_pdf_to_images ocr
                            filename file_ext content t1 t2 c in
  o_success (fst first) = false \/ o_items (fst first) = [] ->
  snd first = snd (get (compute_hash content) t1 c)
  /\ (o_success (fst first) = false ->
      o_items (fst first) = [] /\ o_cached (fst first) = false
      /\ o_error (fst first) <> None).
Proof.
  intros first. subst first. unfold _process_one.
  destruct (get (compute_hash content) t1 c) as [cached c0]. cbn [fst snd].
  destruct (str_eqb file_ext (lit ".pdf")).
  - destruct cached as [[|it items]|].
    + destruct (convert_pdf_to_images content) as [imgs|];
        [|cbn; intros _; split; [reflexivity|intros _; now repeat split]].
      destruct (useful_items _) as [[|it items]|]; cbn.
      * intros _. split; [reflexivity|discriminate].
      * destruct (put _ _ _ _); cbn.
        -- intros [H|H]; discriminate.
        -- intros _. split; [reflexivity|intros _; now repeat split].
      * intros _. split; [reflexivity|intros _; now repeat split].
    + cbn. intros [H|H]; discriminate.
    + destruct (convert_pdf_to_images content) as [imgs|];
        [|cbn; intros _; split; [reflexivity|intros _; now repeat split]].
      destruct (useful_items _) as [[|it items]|]; cbn.
      * intros _. split; [reflexivity|discriminate].
      * destruct (put _ _ _ _); cbn.
        -- intros [H|H]; discriminate.
        -- intros _. split; [reflexivity|intros _; now repeat split].
      * intros _. split; [reflexivity|intros _; now repeat split].
  - destruct cached as [[|it items]|];
      [|cbn; intros [H|H]; discriminate|];
      (destruct (_partial _); cbn;
       [intros _; split; [reflexivity|intros _; now repeat split]|]);
      (destruct (doc_data_to_item _); cbn;
       [|intros _; split; [reflexivity|intros _; now repeat split]]);
      (destruct (put _ _ _ _); cbn;
       [intros [H|H]; discriminate
       |intros _; split; [reflexivity|intros _; now repeat split]]).
Qed.

End Files.

Lemma processed_file_is_served_from_cache_witness :
  o_success (fst resubmitted) = true
  /\ o_cached (fst resubmitted) = true
  /\ o_items (fst resubmitted) = o_items (fst as_image)
  /\ o_filename (fst resubmitted) = lit "copy.pdf"
  /\ _hits (snd resubmitted) = 1.
Proof.
  apply (processed_file_is_served_from_cache one_hash one_page one_page
           reads_date_only reads_date_only (lit "scan.jpg") (lit ".jpg")
           (lit "copy.pdf") (lit ".pdf") scan_bytes 0%Z 0%Z 5%Z 5%Z empty_cache).
  - reflexivity.
  - reflexivity.
  - discriminate.
  - reflexivity.
Defined.

Lemma fruitless_file_is_not_cached_witness :
  snd as_pdf = snd (get (one_hash scan_bytes) 0%Z empty_cache)
  /\ (o_success (fst as_pdf) = false ->
      o_items (fst as_pdf) = [] /\ o_cached (fst as_pdf) = false
      /\ o_error (fst as_pdf) <> None).
Proof.
  apply (fruitless_file_is_not_cached one_hash one_page reads_date_only
           (lit "scan.pdf") (lit ".pdf") scan_bytes 0%Z 0%Z empty_cache).
  right. reflexivity.
Defined.

End FileFacts.

Module BatchFacts.
Import Batches.

Lemma firstn_plus {A : Type} (a b : nat) (l : list A) :
  firstn (a + b) l = firstn a l ++ firstn b (skipn a l).
Proof.
  revert l. induction a as [|a IH]; intros l; [reflexivity|].
  destruct l as [|x l]; cbn [Nat.add firstn skipn app].
  - now rewrite firstn_nil.
  - now rewrite IH.
Qed.

Lemma chunks_concat {A : Type} (step : nat) (l : list A) (k : nat) :
  List.concat (map (fun i => slice l i (i + step))
                   (map (fun j => 0 + j * step) (seq 0 k)))
  = firstn (k * step) l.
Proof.
  induction k as [|k IH]; [reflexivity|].
  rewrite seq_S, !map_app, concat_app, IH. cbn [map List.concat Nat.add].
  rewrite app_nil_r. unfold slice.
  replace (k * step + step - k * step) with step by lia.
  replace (S k * step) with (k * step + step) by lia.
  now rewrite firstn_plus.
Qed.

Lemma fold_extend {A B : Type} (task : A -> B) (batches : list (list A)) :
  forall acc,
    fold_left (fun tasks batch => tasks ++ map task batch) batches acc
    = acc ++ map task (List.concat batches).
Proof.
  induction batches as [|b batches IH]; intros acc; cbn [fold_left List.concat].
  - now rewrite app_nil_r.
  - now rewrite IH, map_app, app_assoc.
Qed.

(** Batching changes nothing but the grouping: the batches hold every
    file once and in order, each batch has between one and [BATCH_SIZE]
    files, there are as many batches as needed and no more, and the tasks
    are one per file, in the order of the files. *)
Theorem batches_partition_the_files {A B : Type} (task : A -> B)
        (file_data : list A) :
  List.concat (all_batches file_data) = file_data
  /\ Forall (fun batch => 1 <= List.length batch <= BATCH_SIZE)
            (all_batches file_data)
  /\ List.length (all_batches file_data)
     = (List.length file_data + BATCH_SIZE - 1) / BATCH_SIZE
  /\ tasks task file_data = map task file_data.
Proof.
  assert (Hcat : List.concat (all_batches file_data) = file_data).
  { unfold all_batches, range_step. rewrite chunks_concat.
    apply firstn_all2. rewrite Nat.sub_0_r. unfold BATCH_SIZE.
    pose proof (Nat.div_mod_eq (List.length file_data + 20 - 1) 20) as E.
    pose proof (Nat.mod_upper_bound (List.length file_data + 20 - 1) 20) as U.
    lia. }
  split; [assumption|]. split; [|split].
  - unfold all_batches, range_step. rewrite Nat.sub_0_r.
    apply Forall_forall. intros batch Hin.
    apply in_map_iff in Hin as (i & <- & Hi).
    apply in_map_iff in Hi as (j & <- & Hj). apply in_seq in Hj.
    unfold slice. rewrite length_firstn, length_skipn. unfold BATCH_SIZE in *.
    pose proof (Nat.div_mod_eq (List.length file_data + 20 - 1) 20) as E.
    pose proof (Nat.mod_upper_bound (List.length file_data + 20 - 1) 20) as U.
    lia.
  - unfold all_batches, range_step.
    now rewrite !length_map, length_seq, Nat.sub_0_r.
  - unfold tasks. rewrite fold_extend, Hcat. reflexivity.
Qed.

End BatchFacts.

Module MrzFacts.
Import Re ReFacts Text TextFacts Parser Repairs RepairFacts DateFacts Batches Mrz.

(** *** Replacing and splitting *)

Lemma length_replace_from (old new : str) :
  old <> [] -> List.length new <= List.length old ->
  forall s skip,
    skip <= List.length s ->
    List.length (replace_from old new skip s) + skip <= List.length s.
Proof.
  intros Hold Hnew. induction s as [|c s IH]; intros skip Hskip.
  - cbn [List.length] in Hskip. cbn [replace_from List.length]. lia.
  - cbn [replace_from]. destruct skip as [|k].
    + destruct (starts_with old (c :: s)) eqn:E.
      * apply ValidatorFacts.starts_with_length in E. cbn [List.length] in E.
        assert (Hpos : 1 <= List.length old)
          by (destruct old; [contradiction|cbn [List.length]; lia]).
        rewrite length_app. cbn [List.length].
        specialize (IH (List.length old - 1) ltac:(lia)). lia.
      * cbn [List.length]. specialize (IH 0 ltac:(lia)). lia.
    + cbn [List.length] in Hskip |- *. specialize (IH k ltac:(lia)). lia.
Qed.

(** A replacement by a text that is not longer does not lengthen. *)
Lemma length_replace (old new s : str) :
  old <> [] -> List.length new <= List.length old ->
  List.length (replace old new s) <= List.length s.
Proof.
  intros Hold Hnew. unfold replace. destruct old as [|o old]; [contradiction|].
  pose proof (length_replace_from (o :: old) new Hold Hnew s 0 ltac:(lia)). lia.
Qed.

Lemma replace_from_Forall (P : ascii -> Prop) (old new : str) :
  Forall P new ->
  forall s skip, Forall P s -> Forall P (replace_from old new skip s).
Proof.
  intros Hnew. induction s as [|c s IH]; intros skip Hs; [constructor|].
  inversion Hs as [|? ? Hc Hs']; subst. cbn [replace_from].
  destruct skip as [|k]; [|now apply IH].
  destruct (starts_with old (c :: s)).
  - apply Forall_app. split; [assumption|now apply IH].
  - constructor; [assumption|now apply IH].
Qed.

Lemma replace_Forall (P : ascii -> Prop) (old new s : str) :
  old <> [] -> Forall P new -> Forall P s -> Forall P (replace old new s).
Proof.
  intros Hold Hnew Hs. unfold replace. destruct old as [|o old]; [contradiction|].
  now apply replace_from_Forall.
Qed.

(** Deleting a character is a filter. *)
Lemma replace_delete (a : ascii) (s : str) :
  replace [a] [] s = filter (fun c => negb (Ascii.eqb a c)) s.
Proof.
  unfold replace. induction s as [|c s IH]; [reflexivity|].
  cbn [replace_from starts_with List.length Nat.sub filter app].
  rewrite andb_true_r. destruct (Ascii.eqb a c); cbn [negb app]; now rewrite IH.
Qed.

Lemma split_from_Forall (P : ascii -> Prop) (sep : str) :
  forall s skip piece_rev,
    Forall P s -> Forall P piece_rev ->
    Forall (Forall P) (split_from sep skip piece_rev s).
Proof.
  induction s as [|c s IH]; intros skip piece_rev Hs Hp; cbn [split_from].
  - constructor; [now apply Forall_rev|constructor].
  - inversion Hs as [|? ? Hc Hs']; subst.
    destruct skip as [|k]; [|now apply IH].
    destruct (starts_with sep (c :: s)).
    + constructor; [now apply Forall_rev|]. apply IH; [assumption|constructor].
    + apply IH; [assumption|now constructor].
Qed.

Lemma split_Forall (P : ascii -> Prop) (sep s : str) :
  Forall P s -> Forall (Forall P) (split sep s).
Proof. intros Hs. apply split_from_Forall; [assumption|constructor]. Qed.

Lemma firstn_Forall_kept {A : Type} (P : A -> Prop) (n : nat) (l : list A) :
  Forall P l -> Forall P (firstn n l).
Proof.
  intros H. revert n. induction H as [|x l Hx _ IH]; intros n.
  - rewrite firstn_nil. constructor.
  - destruct n; cbn [firstn]; constructor; auto.
Qed.

Lemma skipn_Forall_kept {A : Type} (P : A -> Prop) (n : nat) (l : list A) :
  Forall P l -> Forall P (skipn n l).
Proof.
  intros H. revert n. induction H as [|x l Hx Hl IH]; intros n.
  - rewrite skipn_nil. constructor.
  - destruct n; cbn [skipn]; [now constructor|apply IH].
Qed.

Lemma slice_Forall {A : Type} (P : A -> Prop) (l : list A) (i j : nat) :
  Forall P l -> Forall P (slice l i j).
Proof.
  intros H. unfold slice. now apply firstn_Forall_kept, skipn_Forall_kept.
Qed.

Lemma length_slice {A : Type} (l : list A) (i j : nat) :
  List.length (slice l i j) <= j - i.
Proof. unfold slice. rewrite length_firstn. lia. Qed.

(** A substitution by texts that are not longer does not lengthen. *)
Lemma length_sub_from (re : pattern) (repl : found -> str) :
  (forall m, List.length (repl m) <= List.length (whole m)) ->
  forall fuel prev s,
    List.length (sub_from fuel re repl prev s) <= List.length s.
Proof.
  intros Hrepl. induction fuel as [|fuel IH]; intros prev s; cbn [sub_from];
    [lia|].
  destruct (search_from re prev [] s) as [m|] eqn:E; [|lia].
  apply search_from_sound in E as [Hcat _]. cbn [rev app] in Hcat.
  apply (f_equal (@List.length ascii)) in Hcat. rewrite !length_app in Hcat.
  rewrite !length_app. specialize (Hrepl m).
  specialize (IH (prev_after prev (before m ++ whole m)) (after m)). lia.
Qed.

(** *** clean_mrz_line *)

Lemma length_fold_replace (table : list ascii) (new : str) :
  List.length new <= 1 ->
  forall s, List.length (fold_left (fun r old => replace [old] new r) table s)
            <= List.length s.
Proof.
  intros Hnew. induction table as [|old table IH]; intros s; cbn [fold_left];
    [lia|].
  etransitivity; [apply IH|]. apply length_replace; [discriminate|exact Hnew].
Qed.

Lemma length_repair_pass (s : str) :
  List.length (repair_pass s) <= List.length s.
Proof.
  unfold repair_pass.
  repeat (etransitivity; [apply length_replace; [discriminate|cbn; lia]|]).
  unfold chevron_lookalikes, repair_between. cbn [fold_left].
  repeat (etransitivity; [apply length_replace; [discriminate|cbn; lia]|]).
  lia.
Qed.

Lemma clean_mrz_line_shape (line : str) :
  Forall (fun c => is_mrz_char c = true) (clean_mrz_line line)
  /\ List.length (clean_mrz_line line) <= List.length line.
Proof.
  unfold clean_mrz_line. destruct (negb (truthy line)); [split; [constructor|cbn; lia]|].
  split.
  - apply sub_Forall; [intros m; apply ParserFacts.is_mrz_char_chevrons|].
    rewrite sub_delete. apply Forall_forall. intros c Hc.
    apply filter_In in Hc as [_ Hc]. unfold neg in Hc.
    now rewrite negb_involutive in Hc.
  - etransitivity.
    { apply length_sub_from. intros m. now rewrite repeat_length. }
    rewrite sub_delete.
    etransitivity; [apply filter_length_le|].
    assert (H5 : List.length
                   (fold_left (fun r _ => repair_pass r) (seq 0 5)
                      (fold_left (fun r old => replace [old] [chevron] r)
                                 bracket_like (upper line)))
                 <= List.length line).
    { cbn [seq fold_left].
      repeat (etransitivity; [apply length_repair_pass|]).
      etransitivity; [apply length_fold_replace; cbn; lia|].
      unfold upper. now rewrite length_map. }
    destruct (search trailing_re _) as [m|] eqn:E; [|exact H5].
    apply search_sound in E as [Hcat Hall].
    etransitivity; [|exact H5]. rewrite <- Hcat.
    unfold trailing_re in Hall.
    apply Forall2_cons_inv in Hall as (g0 & r0 & E0 & _ & Hall).
    apply Forall2_cons_inv in Hall as (g1 & r1 & E1 & _ & Hall).
    unfold whole, group. rewrite E0, E1. cbn [nth List.concat].
    rewrite !length_app, repeat_length. lia.
Qed.

(** *** The lines [parse_mrz] reads *)

Lemma cleaned_long_cons (line : str) (lines : list str) (l : str) :
  cleaned_long lines l -> cleaned_long (line :: lines) l.
Proof. intros (x & Hin & E & Hlen). exists x. repeat split; auto. now right. Qed.

Lemma second_line (next : str) (l2 : str) :
  (if (30 <=? List.length (clean_mrz_line next))
      && match clean_mrz_line next with
         | c :: _ => isalnum c
         | [] => false
         end
   then Some (clean_mrz_line next) else None) = Some l2 ->
  l2 = clean_mrz_line next /\ 30 <= List.length l2.
Proof.
  destruct (30 <=? List.length (clean_mrz_line next)) eqn:E; [|discriminate].
  apply Nat.leb_le in E. cbn [andb].
  destruct (match clean_mrz_line next with c :: _ => isalnum c | [] => false end);
    [|discriminate].
  intros H. assert (E2 : l2 = clean_mrz_line next) by congruence.
  subst l2. now split.
Qed.

Lemma strategy1_lines (lines : list str) :
  forall (l1 : str) (o2 : option str),
    strategy1 lines = Some (l1, o2) ->
    cleaned_long lines l1
    /\ (forall l2, o2 = Some l2 -> cleaned_long lines l2).
Proof.
  induction lines as [|line rest IH]; intros l1 o2; cbn [strategy1];
    [discriminate|].
  destruct (is_marked (clean_mrz_line line)
            && (30 <=? List.length (clean_mrz_line line))) eqn:E.
  - apply andb_prop in E as [_ E]. apply Nat.leb_le in E.
    intros H.
    assert (E1 : l1 = clean_mrz_line line) by congruence.
    assert (E2 : o2 = match rest with
                      | next :: _ =>
                          if (30 <=? List.length (clean_mrz_line next))
                             && match clean_mrz_line next with
                                | c :: _ => isalnum c
                                | [] => false
                                end
                          then Some (clean_mrz_line next) else None
                      | [] => None
                      end) by congruence.
    clear H. subst l1. split.
    + exists line. repeat split; auto. now left.
    + intros l2 H2. rewrite E2 in H2. clear E2.
      destruct rest as [|next rest]; [discriminate|].
      apply second_line in H2 as [-> Hlen].
      exists next. repeat split; auto. right. now left.
  - intros H. destruct (IH _ _ H) as [H1 H2]. split.
    + now apply cleaned_long_cons.
    + intros l2 E2. now apply cleaned_long_cons, H2.
Qed.

Lemma strategy2_lines (lines : list str) :
  forall (o o1 o2 : option str),
    strategy2 lines o = (o1, o2) ->
    (forall l1, o1 = Some l1 -> o = Some l1 \/ cleaned_long lines l1)
    /\ (forall l2, o2 = Some l2 -> cleaned_long lines l2 /\ o1 <> None).
Proof.
  induction lines as [|line rest IH]; intros o o1 o2; cbn [strategy2].
  - intros H. injection H as <- <-. split; [auto|discriminate].
  - destruct ((5 <=? count "<" (clean_mrz_line line))
              && (30 <=? List.length (clean_mrz_line line))) eqn:E.
    + apply andb_prop in E as [_ E]. apply Nat.leb_le in E.
      assert (Hline : cleaned_long (line :: rest) (clean_mrz_line line)).
      { exists line. repeat split; auto. now left. }
      destruct o as [l|].
      * intros H. injection H as <- <-. split.
        -- intros l1 H1. now left.
        -- intros l2 H2. injection H2 as <-. split; [assumption|discriminate].
      * intros H. destruct (IH _ _ _ H) as [H1 H2]. split.
        -- intros l1 E1. right. destruct (H1 l1 E1) as [Hs|Hc].
           ++ injection Hs as <-. assumption.
           ++ now apply cleaned_long_cons.
        -- intros l2 E2. destruct (H2 l2 E2) as [Hc Hn].
           split; [now apply cleaned_long_cons|assumption].
    + intros H. destruct (IH _ _ _ H) as [H1 H2]. split.
      * intros l1 E1. destruct (H1 l1 E1) as [Hs|Hc]; [now left|right].
        now apply cleaned_long_cons.
      * intros l2 E2. destruct (H2 l2 E2) as [Hc Hn].
        split; [now apply cleaned_long_cons|assumption].
Qed.

Lemma mrz_lines_found (text : str) (o1 o2 : option str) :
  mrz_lines text = (o1, o2) ->
  (forall l1, o1 = Some l1 -> cleaned_long (split newline text) l1)
  /\ (forall l2, o2 = Some l2 ->
        cleaned_long (split newline text) l2 /\ o1 <> None).
Proof.
  unfold mrz_lines.
  destruct (strategy1 (split newline text)) as [[l1 o]|] eqn:E.
  - intros H. injection H as <- <-.
    destruct (strategy1_lines _ _ _ E) as [H1 H2]. split.
    + intros l E1. now injection E1 as <-.
    + intros l2 E2. split; [now apply H2|discriminate].
  - intros H. destruct (strategy2_lines _ _ _ _ H) as [H1 H2]. split.
    + intros l1 E1. destruct (H1 l1 E1) as [Hs|Hc]; [discriminate|assumption].
    + assumption.
Qed.

Lemma cleaned_long_shape (lines : list str) (l : str) :
  cleaned_long lines l ->
  Forall (fun c => is_mrz_char c = true) l
  /\ 30 <= List.length l
  /\ exists line, In line lines /\ 30 <= List.length line.
Proof.
  intros (line & Hin & -> & Hlen).
  destruct (clean_mrz_line_shape line) as [Hall Hle].
  repeat split; auto. exists line. split; [assumption|lia].
Qed.

(** *** The fields *)


Lemma unchevron_chars (s : str) :
  Forall (fun c => is_mrz_char c = true) s ->
  Forall (fun c => is_mrz_name_char c = true) (unchevron s).
Proof.
  intros H. unfold unchevron.
  change (lit "<") with ["<"%char]. change (lit " ") with [" "%char].
  rewrite replace_char. apply Forall_map. eapply Forall_impl; [|exact H].
  intros c Hc.
  pose proof (every_ascii
    (fun c => implb (is_mrz_char c) (is_mrz_name_char (swap "<" " " c)))
    eq_refl c) as Hall.
  cbv beta in Hall. now rewrite Hc in Hall.
Qed.

Lemma unchevron_strip_chars (s : str) :
  Forall (fun c => is_mrz_char c = true) s ->
  Forall (fun c => is_mrz_name_char c = true) (strip (unchevron s)).
Proof. intros H. now apply strip_Forall, unchevron_chars. Qed.

Lemma mrz_names_chars (mrz_line1 final_name surname given_name : str) :
  Forall (fun c => is_mrz_char c = true) mrz_line1 ->
  mrz_names mrz_line1 = (final_name, surname, given_name) ->
  Forall (fun c => is_mrz_name_char c = true) final_name
  /\ Forall (fun c => is_mrz_name_char c = true) surname
  /\ Forall (fun c => is_mrz_name_char c = true) given_name
  /\ (given_name <> [] ->
      final_name = strip (given_name ++ lit " " ++ surname)).
Proof.
  intros Hline. unfold mrz_names. cbv zeta.
  set (clean_section := replace (lit "<<<<") (lit "<<")
                          (replace (lit "<<<") (lit "<<") (skipn 5 mrz_line1))).
  assert (Hsec : Forall (fun c => is_mrz_char c = true) clean_section).
  { apply replace_Forall; [discriminate|repeat constructor|].
    apply replace_Forall; [discriminate|repeat constructor|].
    now apply skipn_Forall_kept. }
  pose proof (split_Forall _ (lit "<<") clean_section Hsec) as Hparts.
  destruct (split (lit "<<") clean_section) as [|part0 [|part1 parts]].
  - intros E. injection E as <- <- <-.
    assert (H : Forall (fun c => is_mrz_name_char c = true)
                  (sub [one is_space; one is_upper; Eol] (fun _ => [])
                       (strip (unchevron clean_section)))).
    { apply sub_Forall; [constructor|]. now apply unchevron_strip_chars. }
    repeat split; auto. intros Hg. contradiction.
  - intros E. injection E as <- <- <-.
    assert (H : Forall (fun c => is_mrz_name_char c = true)
                  (sub [one is_space; one is_upper; Eol] (fun _ => [])
                       (strip (unchevron clean_section)))).
    { apply sub_Forall; [constructor|]. now apply unchevron_strip_chars. }
    repeat split; auto. intros Hg. contradiction.
  - inversion Hparts as [|? ? H0 Hrest]; subst.
    inversion Hrest as [|? ? H1 _]; subst.
    cbn [nth]. intros E. injection E as <- <- <-.
    pose proof (unchevron_strip_chars _ H0) as S0.
    pose proof (unchevron_strip_chars _ H1) as S1.
    repeat split; auto.
    apply strip_Forall, Forall_app. split; [assumption|].
    constructor; [reflexivity|assumption].
Qed.

Lemma number_chars (s : str) :
  Forall (fun c => is_mrz_char c = true) s ->
  Forall (fun c => is_number_char c = true)
         (fix_mrz_number (replace (lit "<") [] s)).
Proof.
  intros H. change (lit "<") with ["<"%char].
  rewrite replace_delete, fix_mrz_number_map. apply Forall_map.
  apply Forall_forall. intros c Hc. apply filter_In in Hc as [Hin Hc].
  rewrite Forall_forall in H. specialize (H c Hin).
  assert (Htable :
    forallb (fun c => implb (is_mrz_char c && negb (Ascii.eqb "<" c))
                            (is_number_char (fix_char mrz_digit_fixes c)))
            (map ascii_of_nat (seq 0 256)) = true) by (vm_compute; reflexivity).
  pose proof (every_ascii _ Htable c) as Hall. cbv beta in Hall.
  apply (implb_holds _ _ Hall). rewrite H. exact Hc.
Qed.

Lemma digit_val_small (c : ascii) : is_digit c = true -> (digit_val c <= 9)%N.
Proof.
  intros Hc.
  pose proof (every_ascii
    (fun c => implb (is_digit c) (digit_val c <=? 9)%N) eq_refl c) as Hall.
  cbv beta in Hall. rewrite Hc in Hall. now apply N.leb_le.
Qed.

(** What the two date blocks make of six characters. *)
Lemma mrz_date_shape (century : N -> N) (lo hi : N) (fixed : str) :
  (forall yy, (yy <= 99)%N -> (lo <= century yy <= hi)%N) ->
  (List.length fixed =? 6) && isdigit fixed = true ->
  dated lo hi (str_of_int (century (int_of (slice fixed 0 2)))
               ++ lit "-" ++ slice fixed 2 4 ++ lit "-" ++ slice fixed 4 6).
Proof.
  intros Hcentury H. apply andb_prop in H as [Hlen Hd].
  apply Nat.eqb_eq in Hlen. unfold isdigit in Hd.
  apply andb_prop in Hd as [_ Hd]. rewrite forallb_forall in Hd.
  destruct fixed as [|a [|b [|c [|d [|e [|f [|? ?]]]]]]]; try discriminate.
  exists (century (int_of (slice [a; b; c; d; e; f] 0 2))), [c; d], [e; f].
  split; [reflexivity|]. split.
  - apply Hcentury. unfold slice, int_of. cbn [Nat.sub skipn firstn fold_left].
    pose proof (digit_val_small a (Hd a ltac:(cbn; tauto))).
    pose proof (digit_val_small b (Hd b ltac:(cbn; tauto))). lia.
  - repeat split; repeat constructor; apply Hd; cbn; tauto.
Qed.

(** The fields of the second line. *)
Lemma line2_fields (mrz_line2 : str) :
  Forall (fun c => is_mrz_char c = true) mrz_line2 ->
  let passport_clean :=
    fix_mrz_number (replace (lit "<") [] (slice mrz_line2 0 9)) in
  let dob_fixed := fix_mrz_number (slice mrz_line2 13 19) in
  let exp_fixed := fix_mrz_number (slice mrz_line2 21 27) in
  (List.length passport_clean <= 9
   /\ Forall (fun c => is_number_char c = true) passport_clean)
  /\ ((List.length dob_fixed =? 6) && isdigit dob_fixed = true ->
      dated 1931 2030
        (str_of_int (if (int_of (slice dob_fixed 0 2) <=? 30)%N
                     then (2000 + int_of (slice dob_fixed 0 2))%N
                     else (1900 + int_of (slice dob_fixed 0 2))%N)
           ++ lit "-" ++ slice dob_fixed 2 4 ++ lit "-" ++ slice dob_fixed 4 6))
  /\ ((List.length exp_fixed =? 6) && isdigit exp_fixed = true ->
      dated 2000 2099
        (str_of_int (2000 + int_of (slice exp_fixed 0 2))%N
           ++ lit "-" ++ slice exp_fixed 2 4 ++ lit "-" ++ slice exp_fixed 4 6))
  /\ (List.length (replace (lit "<") [] (slice mrz_line2 10 13)) <= 3
      /\ Forall (fun c => is_upper c || is_digit c = true)
                (replace (lit "<") [] (slice mrz_line2 10 13))).
Proof.
  intros Hline. cbv zeta. split; [split|split; [|split; [|split]]].
  - rewrite fix_mrz_number_map, length_map.
    change (lit "<") with ["<"%char]. rewrite replace_delete.
    etransitivity; [apply filter_length_le|]. apply (length_slice mrz_line2 0 9).
  - apply number_chars. now apply slice_Forall.
  - intros H.
    apply (mrz_date_shape (fun yy => if (yy <=? 30)%N then (2000 + yy)%N
                                     else (1900 + yy)%N) 1931 2030 _); [|exact H].
    intros yy Hyy. destruct (N.leb_spec yy 30); lia.
  - intros H.
    apply (mrz_date_shape (fun yy => (2000 + yy)%N) 2000 2099 _); [|exact H].
    intros yy Hyy. lia.
  - change (lit "<") with ["<"%char]. rewrite replace_delete.
    etransitivity; [apply filter_length_le|]. apply (length_slice mrz_line2 10 13).
  - change (lit "<") with ["<"%char]. rewrite replace_delete.
    apply Forall_forall. intros c Hc. apply filter_In in Hc as [Hin Hc].
    pose proof (slice_Forall _ mrz_line2 10 13 Hline) as Hs.
    rewrite Forall_forall in Hs. specialize (Hs c Hin).
    unfold is_mrz_char, chevron in Hs. rewrite Ascii.eqb_sym in Hc.
    destruct (Ascii.eqb c "<"); [discriminate|]. now rewrite orb_false_r in Hs.
Qed.


(** What [parse_mrz] returns. Either no line was found and every entry
    is [None], or the three names are there. The names are made of
    capitals, digits and blanks, and when there are given names the name
    is the given names followed by the surname. A passport number has one
    to nine characters, each a digit or a capital that [fix_mrz_number]
    leaves alone, so none of A, B, D, G, I, L, O, Q, S, T, Z. The date of
    birth has a year from 1931 to 2030 and the date of expiry one from
    2000 to 2099, each with any two digits for the month and for the
    day. The sex is M or F, and the nationality has at most three
    characters, capitals or digits. *)
Theorem parse_mrz_fields (text : str) :
  let result := parse_mrz text in
  (name result = None -> result = no_mrz)
  /\ (forall final_name, name result = Some final_name ->
        exists family given,
          surname result = Some family /\ given_names result = Some given
          /\ Forall (fun c => is_mrz_name_char c = true) final_name
          /\ Forall (fun c => is_mrz_name_char c = true) family
          /\ Forall (fun c => is_mrz_name_char c = true) given
          /\ (given <> [] -> final_name = strip (given ++ lit " " ++ family)))
  /\ (forall number, passport_number result = Some number ->
        1 <= List.length number <= 9
        /\ Forall (fun c => is_number_char c = true) number)
  /\ (forall d, date_of_birth result = Some d -> dated 1931 2030 d)
  /\ (forall d, date_of_expiry result = Some d -> dated 2000 2099 d)
  /\ (forall s, sex result = Some s -> s = lit "M" \/ s = lit "F")
  /\ (forall n, nationality result = Some n ->
        List.length n <= 3
        /\ Forall (fun c => is_upper c || is_digit c = true) n).
Proof.
  cbv zeta. unfold parse_mrz.
  destruct (mrz_lines text) as [[l1|] o2] eqn:E.
  2: { cbn. repeat split; intros; discriminate. }
  destruct (mrz_lines_found _ _ _ E) as [H1 H2].
  destruct (cleaned_long_shape _ _ (H1 l1 eq_refl)) as (Hchars1 & _).
  destruct (mrz_names l1) as [[final_name family] given] eqn:En.
  destruct (mrz_names_chars _ _ _ _ Hchars1 En) as (Hf & Hs & Hg & Hjoin).
  assert (Hnames :
    forall final, Some final_name = Some final ->
      exists family0 given0,
        Some family = Some family0 /\ Some given = Some given0
        /\ Forall (fun c => is_mrz_name_char c = true) final
        /\ Forall (fun c => is_mrz_name_char c = true) family0
        /\ Forall (fun c => is_mrz_name_char c = true) given0
        /\ (given0 <> [] -> final = strip (given0 ++ lit " " ++ family0))).
  { intros final Efinal. injection Efinal as <-.
    exists family, given. now repeat split. }
  destruct o2 as [l2|].
  2: { cbn [name surname given_names passport_number date_of_birth
           date_of_expiry sex nationality].
       split; [discriminate|]. split; [exact Hnames|].
       repeat split; intros; discriminate. }
  destruct (20 <=? List.length l2).
  2: { cbn [name surname given_names passport_number date_of_birth
           date_of_expiry sex nationality].
       split; [discriminate|]. split; [exact Hnames|].
       repeat split; intros; discriminate. }
  destruct (H2 l2 eq_refl) as [Hlong _].
  destruct (cleaned_long_shape _ _ Hlong) as (Hchars2 & _).
  destruct (line2_fields l2 Hchars2) as ((Hplen & Hpchars) & Hdob & Hexp & Hnat).
  cbn [name surname given_names passport_number date_of_birth
       date_of_expiry sex nationality].
  split; [discriminate|]. split; [exact Hnames|].
  split; [|split; [|split; [|split]]].
  - intros number.
    destruct (fix_mrz_number (replace (lit "<") [] (slice l2 0 9)))
      as [|c p] eqn:Ep; cbn [truthy]; [discriminate|].
    intros H. injection H as <-. split; [|assumption].
    cbn [List.length] in *. lia.
  - intros d.
    destruct (19 <=? List.length l2); cbn [andb]; [|discriminate].
    destruct ((List.length (fix_mrz_number (slice l2 13 19)) =? 6)
              && isdigit (fix_mrz_number (slice l2 13 19))) eqn:Ed;
      [|discriminate].
    intros H. apply some_eq in H. rewrite <- H. exact (Hdob eq_refl).
  - intros d.
    destruct (27 <=? List.length l2); cbn [andb]; [|discriminate].
    destruct ((List.length (fix_mrz_number (slice l2 21 27)) =? 6)
              && isdigit (fix_mrz_number (slice l2 21 27))) eqn:Ed;
      [|discriminate].
    intros H. apply some_eq in H. rewrite <- H. exact (Hexp eq_refl).
  - intros s0. destruct (21 <=? List.length l2); [|discriminate].
    cbn [lit list_ascii_of_string existsb].
    destruct (Ascii.eqb_spec (nth 20 l2 " "%char) "M") as [->|_];
      [intros H; injection H as <-; now left|].
    destruct (Ascii.eqb_spec (nth 20 l2 " "%char) "F") as [->|_];
      [intros H; injection H as <-; now right|].
    discriminate.
  - intros n. destruct (13 <=? List.length l2); [|discriminate].
    intros H. injection H as <-. exact Hnat.
Qed.

(** A zone that is read as printed, and one whose surname ends in K,
    whose given name starts with C and whose number starts with B. *)
Example parse_mrz_specimens :
  name (parse_mrz specimen) = Some (lit "BUDI SANTOSO")
  /\ passport_number (parse_mrz specimen) = Some (lit "X1234567")
  /\ date_of_birth (parse_mrz specimen) = Some (lit "1990-01-01")
  /\ date_of_expiry (parse_mrz specimen) = Some (lit "2030-01-01")
  /\ name (parse_mrz specimen_b) = Some (lit "AHYA MALI")
  /\ passport_number (parse_mrz specimen_b) = Some (lit "81234567").
Proof. vm_compute. repeat split. Qed.


End MrzFacts.

Module PipelineRunFacts.
Import TextFacts Cleaner Validators Processor Entries EntryFacts Merging MergeFacts
       MergingFacts ConsolidateFacts Rows RowFacts Pipeline.

(** *** Sanitizing in place *)

Lemma sanitize_subsequence (extracted_data : list ref) :
  forall h, subsequence (snd (sanitize h extracted_data)) extracted_data.
Proof.
  induction extracted_data as [|item rest IH]; intros h; cbn [sanitize].
  - constructor.
  - destruct (clean_entry (h item)) as [cleaned|].
    + specialize (IH (store h item cleaned)).
      destruct (sanitize (store h item cleaned) rest) as [h' kept].
      cbn [snd] in *. now constructor.
    + constructor. apply IH.
Qed.

Lemma sanitize_outside (r : ref) (extracted_data : list ref) :
  forall h, ~ In r extracted_data ->
            fst (sanitize h extracted_data) r = h r.
Proof.
  induction extracted_data as [|item rest IH]; intros h Hr; cbn [sanitize].
  - reflexivity.
  - assert (Hne : r <> item) by (intros ->; apply Hr; now left).
    assert (Hrest : ~ In r rest) by (intros H; apply Hr; now right).
    destruct (clean_entry (h item)) as [cleaned|].
    + specialize (IH (store h item cleaned) Hrest).
      destruct (sanitize (store h item cleaned) rest) as [h' kept].
      cbn [fst] in *. rewrite IH. now apply store_other.
    + now apply IH.
Qed.

Lemma sanitize_worth (extracted_data : list ref) :
  forall h,
    (forall r, worth_keeping (h r) = true ->
               worth_keeping (fst (sanitize h extracted_data) r) = true)
    /\ (forall r, In r (snd (sanitize h extracted_data)) ->
                  worth_keeping (fst (sanitize h extracted_data) r) = true).
Proof.
  induction extracted_data as [|item rest IH]; intros h; cbn [sanitize].
  - split; [auto|intros r []].
  - destruct (clean_entry (h item)) as [cleaned|] eqn:E; [|apply IH].
    destruct (IH (store h item cleaned)) as [Hmono Hkept].
    destruct (sanitize (store h item cleaned) rest) as [h' kept].
    cbn [fst snd] in *.
    assert (Hitem : worth_keeping (h' item) = true).
    { apply Hmono. rewrite store_same. exact (clean_entry_worth _ _ E). }
    split.
    + intros r Hr. destruct (Nat.eq_dec r item) as [->|Hne]; [assumption|].
      apply Hmono. now rewrite store_other.
    + intros r [<-|Hin]; [assumption|now apply Hkept].
Qed.

(** *** Merging never empties a column *)

Section Loop.

Variable ratio_above : str -> str -> bool.

Lemma merge_into_truthy (h : heap) (existing new_item r : ref) (f : field) :
  truthy (h r f) = true -> truthy (merge_into h existing new_item r f) = true.
Proof.
  intros Hr. destruct (field_eq_dec f nama) as [->|Hf];
    [|now rewrite merge_into_frame].
  destruct (Nat.eq_dec r existing) as [->|Hne];
    [|now rewrite merge_into_elsewhere].
  rewrite merge_into_name.
  assert (Hname : truthy (merge_name h existing new_item existing nama) = true).
  { rewrite merge_name_at.
    destruct (contains (lit " ") (h new_item nama)
              && negb (contains (lit " ") (h existing nama))) eqn:E1.
    - apply andb_prop in E1 as [E1 _].
      destruct (h new_item nama); [discriminate|reflexivity].
    - destruct (Bool.eqb _ _ && (_ <? _) && negb _) eqn:E2; [|assumption].
      apply andb_prop in E2 as [E2 _]. apply andb_prop in E2 as [_ E2].
      apply Nat.ltb_lt in E2.
      destruct (h new_item nama); [cbn [List.length] in E2; lia|reflexivity]. }
  now rewrite Hname.
Qed.

Lemma merge_loop_truthy (r : ref) (f : field) :
  forall (data_list consolidated : list ref) (h : heap),
    truthy (h r f) = true ->
    truthy (fst (merge_loop ratio_above h consolidated data_list) r f) = true.
Proof.
  induction data_list as [|new_item rest IH]; intros consolidated h Hr;
    cbn [merge_loop]; [assumption|].
  destruct (find _ consolidated) as [existing|]; apply IH; [|assumption].
  now apply merge_into_truthy.
Qed.

Lemma merge_loop_outside (r : ref) (f : field) :
  forall (data_list consolidated : list ref) (h : heap),
    ~ In r consolidated -> ~ In r data_list ->
    fst (merge_loop ratio_above h consolidated data_list) r f = h r f.
Proof.
  induction data_list as [|new_item rest IH]; intros consolidated h Hc Hd;
    cbn [merge_loop]; [reflexivity|].
  assert (Hrest : ~ In r rest) by (intros H; apply Hd; now right).
  destruct (find _ consolidated) as [existing|] eqn:Hfind.
  - apply find_some in Hfind as [Hin _].
    rewrite IH by assumption. apply merge_into_elsewhere.
    intros ->. contradiction.
  - apply IH; [|assumption]. intros H. apply in_app_or in H as [H|[<-|[]]];
      [contradiction|]. apply Hd. now left.
Qed.

Lemma consolidate_truthy (it : Item) (f : field) :
  truthy (it f) = true -> truthy (consolidate it f) = true.
Proof.
  intros Hf.
  destruct (consolidate_cases it) as [(_ & Hp & ->)|[(_ & Hp & _ & ->)|[-> _]]];
    [| |assumption]; unfold set_field;
    repeat match goal with
           | |- context [field_beq ?a ?b] => destruct (field_beq a b)
           end; auto.
Qed.

Lemma fuzzy_merge_truthy (h : heap) (data_list : list ref) (r : ref) (f : field) :
  truthy (h r f) = true ->
  truthy (fst (fuzzy_merge_data ratio_above h data_list) r f) = true.
Proof.
  intros Hr. unfold fuzzy_merge_data. cbn [fst snd].
  pose proof (merge_loop_truthy r f data_list [] h Hr) as Hloop.
  destruct (in_dec Nat.eq_dec r (snd (merge_loop ratio_above h [] data_list)))
    as [Hin|Hout].
  - rewrite post_merge_inside by assumption. now apply consolidate_truthy.
  - now rewrite post_merge_outside.
Qed.

Lemma fuzzy_merge_outside (h : heap) (data_list : list ref) (r : ref) (f : field) :
  ~ In r data_list ->
  fst (fuzzy_merge_data ratio_above h data_list) r f = h r f.
Proof.
  intros Hr. unfold fuzzy_merge_data. cbn [fst snd].
  destruct (merge_loop_subsequence ratio_above data_list [] h)
    as (kept & E & Hsub).
  rewrite post_merge_outside.
  - apply merge_loop_outside; [intros []|assumption].
  - rewrite E. cbn [app]. intros Hin. apply Hr.
    exact (subsequence_in _ _ _ Hsub Hin).
Qed.

End Loop.

Lemma sanitize_column (f : field) (r : ref) (extracted_data : list ref) :
  ~ In f cleaned_columns ->
  forall h, fst (sanitize h extracted_data) r f = h r f.
Proof.
  intros Hf. induction extracted_data as [|item rest IH]; intros h;
    cbn [sanitize]; [reflexivity|].
  destruct (clean_entry (h item)) as [cleaned|] eqn:E; [|apply IH].
  specialize (IH (store h item cleaned)).
  destruct (sanitize (store h item cleaned) rest) as [h' kept].
  cbn [fst] in *. rewrite IH.
  destruct (Nat.eq_dec r item) as [->|Hne]; [|now rewrite store_other].
  rewrite store_same.
  destruct (clean_entry_columns _ _ E) as (Hframe & _). now apply Hframe.
Qed.

Lemma consolidate_column (it : Item) (f : field) :
  f <> no_identitas -> f <> jenis_identitas -> consolidate it f = it f.
Proof.
  intros H1 H2.
  destruct (consolidate_cases it) as [(_ & _ & ->)|[(_ & _ & _ & ->)|[-> _]]];
    [| |reflexivity]; now rewrite ?set_field_other.
Qed.

Lemma fuzzy_merge_column (ratio_above : str -> str -> bool)
      (h : heap) (data_list : list ref) (r : ref) (f : field) :
  f <> nama -> f <> no_identitas -> f <> jenis_identitas ->
  truthy (h r f) = true ->
  fst (fuzzy_merge_data ratio_above h data_list) r f = h r f.
Proof.
  intros Hn H1 H2 Hr. unfold fuzzy_merge_data. cbn [fst snd].
  pose proof (merge_loop_frame ratio_above r f Hn data_list [] h Hr) as Hloop.
  destruct (in_dec Nat.eq_dec r (snd (merge_loop ratio_above h [] data_list)))
    as [Hin|Hout].
  - rewrite post_merge_inside by assumption.
    now rewrite consolidate_column.
  - now rewrite post_merge_outside.
Qed.

Lemma worth_keeping_kept (e e' : Item) :
  (forall f, truthy (e f) = true -> truthy (e' f) = true) ->
  worth_keeping e = true -> worth_keeping e' = true.
Proof.
  intros Hmono. unfold worth_keeping, has_document_data.
  rewrite !orb_true_iff.
  intuition (auto 10 using Hmono).
Qed.

Lemma subsequence_trans {A : Type} (l1 l2 l3 : list A) :
  subsequence l1 l2 -> subsequence l2 l3 -> subsequence l1 l3.
Proof.
  intros H12 H23. revert l1 H12.
  induction H23 as [|x l2 l3 _ IH|x l2 l3 _ IH]; intros l1 H12.
  - assumption.
  - constructor. now apply IH.
  - inversion H12; subst; constructor; now apply IH.
Qed.

Section Run.

Variable ratio_above : str -> str -> bool.
Variable strptime : str -> string -> bool.

Lemma run_pipeline_returns (h : heap) (extracted_data : list ref) :
  let out := run_pipeline ratio_above strptime h extracted_data in
  let h' := fst (fst out) in
  let final_data := snd (fst out) in
  let all_warnings := snd out in
  subsequence final_data extracted_data
  /\ all_warnings = map (fun item => validate_row strptime (h' item)) final_data
  /\ List.length all_warnings = List.length final_data
  /\ Forall (fun warnings => List.length warnings <= 12) all_warnings
  /\ (forall item, In item final_data -> worth_keeping (h' item) = true)
  /\ (forall r f, ~ In r extracted_data -> h' r f = h r f).
Proof.
  unfold run_pipeline.
  pose proof (sanitize_subsequence extracted_data h) as Hsub1.
  pose proof (sanitize_worth extracted_data h) as [_ Hworth].
  pose proof (fun r => sanitize_outside r extracted_data h) as Hout1.
  destruct (sanitize h extracted_data) as [h1 sanitized_data].
  cbn [fst snd] in Hsub1, Hworth, Hout1.
  pose proof (merge_loop_subsequence ratio_above sanitized_data [] h1)
    as (kept & E & Hsub2).
  pose proof (fuzzy_merge_truthy ratio_above h1 sanitized_data) as Htruthy.
  pose proof (fuzzy_merge_outside ratio_above h1 sanitized_data) as Hout2.
  unfold fuzzy_merge_data in *. cbn [fst snd] in *. cbn [app] in E.
  rewrite E in *. cbv zeta. cbn [fst snd].
  split; [exact (subsequence_trans _ _ _ Hsub2 Hsub1)|].
  split; [reflexivity|]. split; [apply length_map|].
  split; [|split].
  - apply Forall_forall. intros ws Hws.
    apply in_map_iff in Hws as (item & <- & _).
    pose proof (validate_row_columns strptime
                  (post_merge (fst (merge_loop ratio_above h1 [] sanitized_data))
                              kept item)) as Hcols.
    apply subsequence_length in Hcols. now rewrite !length_map in Hcols.
  - intros item Hin.
    apply (worth_keeping_kept (h1 item)); [intros f; apply Htruthy|].
    apply Hworth. exact (subsequence_in _ _ _ Hsub2 Hin).
  - intros r f Hr. rewrite Hout2.
    + now rewrite Hout1.
    + intros Hin. apply Hr. exact (subsequence_in _ _ _ Hsub1 Hin).
Qed.

(** [run_pipeline] returns some of the objects it was given, each at
    most as often as given and in the order in which they were first
    seen, with one list of at most twelve warnings for each; every record
    it returns has a name or document data; and it changes no object
    other than those it was given. *)
Theorem run_pipeline_returns_given_records
        (h : heap) (extracted_data : list ref) :
  let out := run_pipeline ratio_above strptime h extracted_data in
  let h' := fst (fst out) in
  let final_data := snd (fst out) in
  let all_warnings := snd out in
  subsequence final_data extracted_data
  /\ all_warnings = map (fun item => validate_row strptime (h' item)) final_data
  /\ List.length all_warnings = List.length final_data
  /\ Forall (fun warnings => List.length warnings <= 12) all_warnings
  /\ (forall item, In item final_data -> worth_keeping (h' item) = true)
  /\ (forall r f, ~ In r extracted_data -> h' r f = h r f).
Proof. apply run_pipeline_returns. Qed.

Lemma run_pipeline_column (h : heap) (extracted_data : list ref)
      (r : ref) (f : field) :
  ~ In f rewritten_columns -> truthy (h r f) = true ->
  fst (fst (run_pipeline ratio_above strptime h extracted_data)) r f = h r f.
Proof.
  intros Hf Hr. unfold run_pipeline.
  pose proof (sanitize_column f r extracted_data) as Hsan.
  destruct (sanitize h extracted_data) as [h1 sanitized_data] eqn:E.
  assert (H1 : h1 r f = h r f).
  { rewrite <- (Hsan ltac:(intros H; apply Hf; now do 2 right) h).
    now rewrite E. }
  pose proof (fuzzy_merge_column ratio_above h1 sanitized_data r f) as Hm.
  destruct (fuzzy_merge_data ratio_above h1 sanitized_data) as [h2 final_data].
  cbn [fst] in *. rewrite <- H1. apply Hm.
  - intros ->. apply Hf. do 2 right. now left.
  - intros ->. apply Hf. now left.
  - intros ->. apply Hf. right. now left.
  - now rewrite H1.
Qed.

(** Outside the columns it cleans and the two it makes consistent, the
    pipeline never overwrites: a value that was read stays as it is, on
    every object, whatever is merged into it. *)
Theorem pipeline_keeps_read_values
        (h : heap) (extracted_data : list ref) (r : ref) (f : field) :
  ~ In f rewritten_columns -> h r f <> [] ->
  fst (fst (run_pipeline ratio_above strptime h extracted_data)) r f = h r f.
Proof.
  intros Hf Hr. apply run_pipeline_column; [assumption|].
  now apply truthy_nonempty.
Qed.

(** The mapper gives every item the citizenship WNI, whatever the
    engines read; the pipeline leaves it there, and so no record made of
    mapped items is ever warned about its citizenship. *)
Theorem mapped_items_get_no_citizenship_warning
        (h : heap) (extracted_data : list ref) :
  let out := run_pipeline ratio_above strptime h extracted_data in
  (forall r, In r extracted_data ->
             exists d, doc_data_to_item d = Some (h r)) ->
  (forall r, In r (snd (fst out)) ->
             fst (fst out) r kewarganegaraan = lit "WNI")
  /\ Forall (Forall (fun w => w_field w <> key kewarganegaraan)) (snd out).
Proof.
  intros out Hmapped.
  assert (Hwni : forall r, In r (snd (fst out)) ->
                           fst (fst out) r kewarganegaraan = lit "WNI").
  { intros r Hin.
    destruct (run_pipeline_returns h extracted_data)
      as (Hsub & _).
    fold out in Hsub.
    destruct (Hmapped r (subsequence_in _ _ _ Hsub Hin)) as (d & Hd).
    assert (Hr : h r kewarganegaraan = lit "WNI").
    { unfold doc_data_to_item in Hd.
      destruct (dget_or d "document_type" "UNKNOWN"); [|discriminate].
      apply some_eq in Hd. now rewrite <- Hd. }
    subst out. rewrite run_pipeline_column; [assumption| |now rewrite Hr].
    cbv [rewritten_columns cleaned_columns date_columns In].
    intuition discriminate. }
  split; [assumption|].
  destruct (run_pipeline_returns h extracted_data)
    as (_ & Hw & _).
  fold out in Hw. rewrite Hw.
  apply Forall_forall. intros ws Hws. apply in_map_iff in Hws as (r & <- & Hr).
  apply Forall_forall. intros x Hx Hk.
  apply (validate_row_citizenship strptime _ x Hx Hk).
  now rewrite (Hwni r Hr).
Qed.

(** The pipeline on one object: cleaned, then made consistent. *)
Lemma run_pipeline_single (h : heap) (r : ref) (e1 : Item) :
  clean_entry (h r) = Some e1 ->
  fst (fst (run_pipeline ratio_above strptime h [r])) r = consolidate e1.
Proof.
  intros E. unfold run_pipeline. cbn [sanitize]. rewrite E.
  unfold fuzzy_merge_data. cbn [merge_loop find app fst snd post_merge fold_left].
  now rewrite !store_same.
Qed.

Lemma consolidate_date (it : Item) (f : field) :
  In f date_columns -> consolidate it f = it f.
Proof.
  intros Hf.
  assert (H1 : f <> no_identitas)
    by (intros ->; cbn in Hf; intuition discriminate).
  assert (H2 : f <> jenis_identitas)
    by (intros ->; cbn in Hf; intuition discriminate).
  destruct (consolidate_cases it) as [(_ & _ & ->)|[(_ & _ & _ & ->)|[-> _]]];
    [| |reflexivity]; now rewrite ?set_field_other.
Qed.

(** The pipeline is not idempotent on the objects it returns: a record
    with document data whose date is written day-month-year, with a day
    of 12 or less, comes out with the date as year-month-day, and when
    the same object goes through the pipeline once more the month and
    the day change places. *)
Theorem pipeline_twice_swaps_day_and_month
        (h : heap) (r : ref) (f : field) (y m d : N) :
  let once := run_pipeline ratio_above strptime h [r] in
  let twice := run_pipeline ratio_above strptime (fst (fst once)) [r] in
  In f date_columns ->
  (1900 <= y <= 2040)%N -> (1 <= m <= 12)%N -> (1 <= d <= 12)%N ->
  h r f = Dates.day_first y m d ->
  has_document_data (h r) = true ->
  snd (fst once) = [r] /\ snd (fst twice) = [r]
  /\ fst (fst once) r f = Dates.iso y m d
  /\ fst (fst twice) r f = Dates.iso y d m.
Proof.
  intros once twice Hf Hy Hm Hd Hdate Hdata.
  destruct (DateFacts.dashed_dates y m d) as [Hfirst Hiso]; [lia|lia|lia|].
  assert (Hsmall : (d <=? 12)%N = true) by (apply N.leb_le; lia).
  rewrite Hsmall in Hiso.
  destruct (clean_entry (h r)) as [e1|] eqn:E1.
  2: { rewrite clean_entry_cases in E1. cbv zeta in E1.
       rewrite Hdata in E1. discriminate. }
  assert (Hh1 : fst (fst once) r = consolidate e1)
    by exact (run_pipeline_single h r e1 E1).
  assert (Hdata1 : has_document_data (consolidate e1) = true).
  { rewrite <- (clean_entry_documents _ _ E1) in Hdata.
    unfold has_document_data in *. rewrite !orb_true_iff in *.
    intuition (auto 10 using consolidate_truthy). }
  destruct (clean_entry (consolidate e1)) as [e2|] eqn:E2.
  2: { rewrite clean_entry_cases in E2. cbv zeta in E2.
       rewrite Hdata1 in E2. discriminate. }
  assert (Hh2 : fst (fst twice) r = consolidate e2).
  { apply run_pipeline_single. now rewrite Hh1. }
  assert (Hl1 : snd (fst once) = [r]).
  { subst once. unfold run_pipeline. cbn [sanitize]. now rewrite E1. }
  assert (Hl2 : snd (fst twice) = [r]).
  { subst twice. unfold run_pipeline. cbn [sanitize]. rewrite Hh1, E2.
    reflexivity. }
  destruct (clean_entry_columns _ _ E1) as (_ & Hd1 & _).
  destruct (clean_entry_columns _ _ E2) as (_ & Hd2 & _).
  destruct (Hd1 f Hf) as [R1 _]. destruct (Hd2 f Hf) as [R2 _].
  assert (D1 : consolidate e1 f = Dates.iso y m d).
  { rewrite consolidate_date by assumption. rewrite R1, Hdate.
    unfold standardized_or_same. now rewrite Hfirst, truthy_iso. }
  split; [assumption|]. split; [assumption|].
  rewrite Hh1, Hh2. split; [assumption|].
  rewrite consolidate_date by assumption. rewrite R2, D1.
  unfold standardized_or_same. now rewrite Hiso, truthy_iso.
Qed.

End Run.

Lemma pipeline_keeps_read_values_witness :
  fst (fst (run_pipeline (fun _ _ => true) (fun _ _ => true)
                         Scenarios.siti [0; 1])) 0 kota_paspor
  = lit "JAKARTA".
Proof.
  apply (pipeline_keeps_read_values (fun _ _ => true) (fun _ _ => true)
           Scenarios.siti [0; 1] 0 kota_paspor).
  - cbv [rewritten_columns cleaned_columns date_columns In].
    intuition discriminate.
  - discriminate.
Defined.

Lemma mapped_items_get_no_citizenship_warning_witness :
  let out := run_pipeline (fun _ _ => true) (fun _ _ => true)
                          passport_upload [0; 1] in
  (forall r, In r (snd (fst out)) ->
             fst (fst out) r kewarganegaraan = lit "WNI")
  /\ Forall (Forall (fun w => w_field w <> key kewarganegaraan)) (snd out).
Proof.
  apply (mapped_items_get_no_citizenship_warning
           (fun _ _ => true) (fun _ _ => true) passport_upload [0; 1]).
  intros r _. exists Scenarios.passport_page. reflexivity.
Defined.

Lemma pipeline_twice_swaps_day_and_month_witness :
  let once := run_pipeline (fun _ _ => false) (fun _ _ => true) visa_upload [0] in
  let twice :=
    run_pipeline (fun _ _ => false) (fun _ _ => true) (fst (fst once)) [0] in
  snd (fst once) = [0] /\ snd (fst twice) = [0]
  /\ fst (fst once) 0 tanggal_lahir = lit "1990-03-05"
  /\ fst (fst twice) 0 tanggal_lahir = lit "1990-05-03".
Proof.
  apply (pipeline_twice_swaps_day_and_month
           (fun _ _ => false) (fun _ _ => true) visa_upload 0
           tanggal_lahir 1990 3 5).
  - now left.
  - lia.
  - lia.
  - lia.
  - reflexivity.
  - reflexivity.
Defined.

End PipelineRunFacts.
